(** * Telemetry ingestion scripts: a shallow embedding and its properties

    The development follows the scripts of the repository that write the
    store or compute from it:

    - [scripts/parse_otel_metrics.py]: the lenient metric-block parser, the
      block extractor, and the persistence of classified data points;
    - [scripts/combine_sources.py]: the transcript merger;
    - [scripts/generate_local_report.py]: the cache-efficiency computation.

    ([scripts/generate_timeline.py] only formats rows it reads.)

    Python [str] values are lists of characters over the 8-bit alphabet
    [ascii]; the character classes [\w] and [\s] and [str.lower] are given on
    the ASCII range, where the telemetry source writes its logs.  Library
    functions the scripts call ([re.sub], [re.split], [dict.get],
    [str.split], SQLite's [INSERT OR IGNORE] and [SUM]) are modelled from
    their documented behaviour; [json.loads] is a parameter of the
    development, with a reference implementation used to run examples. *)

From Stdlib Require Import List String Ascii ZArith NArith QArith Bool Lia Arith.
From Stdlib Require Import DecimalString.
Import ListNotations.
Close Scope Q_scope.
Open Scope string_scope.
Open Scope list_scope.

Set Implicit Arguments.
Set Warnings "-register-all".

(* ===================================================================== *)
(** * Text *)
(* ===================================================================== *)

Module Text.

Definition str := list ascii.

Definition of_string (s : string) : str := list_ascii_of_string s.

(** The double-quote character. *)
Definition dquote : ascii := "034"%char.

(** A text written with ['] where the double quote is meant. *)
Definition dq (s : string) : str :=
  map (fun c => if Ascii.eqb c "'" then dquote else c) (of_string s).

Definition code (c : ascii) : N := N_of_ascii c.

Definition between (lo hi : N) (c : ascii) : bool :=
  (lo <=? code c)%N && (code c <=? hi)%N.

Definition is_digit (c : ascii) : bool := between 48 57 c.
Definition is_upper (c : ascii) : bool := between 65 90 c.
Definition is_lower (c : ascii) : bool := between 97 122 c.

(** [\w] of Python's [re] on the ASCII range: letters, digits, underscore. *)
Definition is_word (c : ascii) : bool :=
  is_digit c || is_upper c || is_lower c || Ascii.eqb c "_".

(** [\s] of Python's [re] on the ASCII range: TAB, LF, VT, FF, CR, the four
    separators FS..US, and the space.  [str.strip()] without argument
    removes the same characters. *)
Definition is_space (c : ascii) : bool :=
  between 9 13 c || between 28 31 c || Ascii.eqb c " ".

(** [c.lower()] on the ASCII range *)
Definition lower_char (c : ascii) : ascii :=
  if is_upper c then ascii_of_N (code c + 32) else c.

(** [s.lower()] *)
Definition lower (s : str) : str := map lower_char s.

Fixpoint str_eqb (a b : str) : bool :=
  match a, b with
  | [], [] => true
  | x :: a', y :: b' => Ascii.eqb x y && str_eqb a' b'
  | _, _ => false
  end.

Fixpoint starts_with (p s : str) : bool :=
  match p, s with
  | [], _ => true
  | x :: p', y :: s' => Ascii.eqb x y && starts_with p' s'
  | _ :: _, [] => false
  end.

(** [needle in hay] for strings *)
Fixpoint contains (needle hay : str) : bool :=
  starts_with needle hay ||
  match hay with
  | [] => false
  | _ :: hay' => contains needle hay'
  end.

(** [s.find(c)] for a one-character needle: [None] stands for [-1]. *)
Fixpoint find_char (c : ascii) (s : str) : option nat :=
  match s with
  | [] => None
  | x :: s' => if Ascii.eqb x c then Some 0
               else option_map S (find_char c s')
  end.

(** [s[a:b]] for [0 <= a] and [0 <= b] *)
Definition slice (s : str) (a b : nat) : str := firstn (b - a) (skipn a s).

(** [s.replace(old, new)] for one-character [old] and [new] *)
Definition replace_char (old new : ascii) (s : str) : str :=
  map (fun c => if Ascii.eqb c old then new else c) s.

(** [s.split(sep)] for a one-character separator: never empty. *)
Fixpoint split_char (sep : ascii) (s : str) : list str :=
  match s with
  | [] => [[]]
  | c :: s' =>
      if Ascii.eqb c sep then [] :: split_char sep s'
      else match split_char sep s' with
           | p :: ps => (c :: p) :: ps
           | [] => [[c]]
           end
  end.

Fixpoint take_while (p : ascii -> bool) (s : str) : str :=
  match s with
  | c :: s' => if p c then c :: take_while p s' else []
  | [] => []
  end.

Fixpoint drop_while (p : ascii -> bool) (s : str) : str :=
  match s with
  | c :: s' => if p c then drop_while p s' else s
  | [] => []
  end.

(** [s.strip()] *)
Definition strip (s : str) : str :=
  rev (drop_while is_space (rev (drop_while is_space s))).

End Text.

Import Text.
Coercion Text.of_string : string >-> Text.str.

(* ===================================================================== *)
(** * Regular expressions: the fragment of Python's [re] the scripts use *)
(* ===================================================================== *)

Module Regex.

(** Patterns.  Repetition is only ever applied to a character class in the
    three patterns of [parse_otel_metrics.py], so [Many] and [Many1] take a
    class.  Repetition is greedy and backtracks, as in [re]. *)
Inductive regex : Type :=
| Eps                            (* the empty pattern *)
| Chr (c : ascii)                (* a literal character *)
| Cls (p : ascii -> bool)        (* a class: [\w], [\s], [[}\]]] *)
| Many (p : ascii -> bool)       (* [p*] *)
| Many1 (p : ascii -> bool)      (* [p+] *)
| Seq (r1 r2 : regex)
| Grp (r : regex)                (* the capturing group [\1] *)
| Look (r : regex).              (* [(?=r)] *)

(** A literal text, character by character. *)
Fixpoint lit (s : str) : regex :=
  match s with
  | [] => Eps
  | c :: s' => Seq (Chr c) (lit s')
  end.

(** Greedy [p*]: the longest run first, shorter runs on failure of [k]. *)
Fixpoint many (R : Type) (p : ascii -> bool) (s : str) (k : str -> option R)
  : option R :=
  match s with
  | c :: s' =>
      if p c then
        match many p s' k with
        | Some r => Some r
        | None => k s
        end
      else k s
  | [] => k s
  end.

(** [rmatch r s g k]: match [r] at the head of [s], with [g] the current
    capture of group 1, and hand the rest of the input to [k]. *)
Fixpoint rmatch (r : regex) (R : Type) (s : str) (g : option str)
         (k : str -> option str -> option R) : option R :=
  match r with
  | Eps => k s g
  | Chr c =>
      match s with
      | x :: s' => if Ascii.eqb x c then k s' g else None
      | [] => None
      end
  | Cls p =>
      match s with
      | x :: s' => if p x then k s' g else None
      | [] => None
      end
  | Many p => many p s (fun s' => k s' g)
  | Many1 p =>
      match s with
      | x :: s' => if p x then many p s' (fun s'' => k s'' g) else None
      | [] => None
      end
  | Seq r1 r2 => rmatch r1 s g (fun s1 g1 => rmatch r2 s1 g1 k)
  | Grp r1 =>
      rmatch r1 s g
        (fun s' _ => k s' (Some (firstn (List.length s - List.length s') s)))
  | Look r1 =>
      match rmatch r1 s g (fun _ g' => Some g') with
      | Some g' => k s g'
      | None => None
      end
  end.

(** The match of [r] anchored at the head of [s]: the number of characters
    it consumes and the text of group 1. *)
Definition match_at (r : regex) (s : str) : option (nat * option str) :=
  rmatch r s None (fun s' g => Some (List.length s - List.length s', g)).

(** Replacement templates: literal text and [\1]. *)
Inductive titem : Type :=
| TLit (s : str)
| TGroup1.

Definition expand (tpl : list titem) (g : option str) : str :=
  flat_map (fun t => match t with
                     | TLit s => s
                     | TGroup1 => match g with Some x => x | None => [] end
                     end) tpl.

(** [re.sub(r, tpl, s)]: leftmost matches, left to right, not overlapping.
    [skip] counts the characters of the current match still to pass over. *)
Fixpoint sub_from (r : regex) (tpl : list titem) (s : str) (skip : nat)
  : str :=
  match s with
  | [] =>
      match skip, match_at r [] with
      | 0, Some (_, g) => expand tpl g
      | _, _ => []
      end
  | c :: s' =>
      match skip with
      | S n => sub_from r tpl s' n
      | 0 =>
          match match_at r s with
          | Some (0, g) => expand tpl g ++ c :: sub_from r tpl s' 0
          | Some (S n, g) => expand tpl g ++ sub_from r tpl s' n
          | None => c :: sub_from r tpl s' 0
          end
      end
  end.

Definition re_sub (r : regex) (tpl : list titem) (s : str) : str :=
  sub_from r tpl s 0.

(** [re.split(r, s)] for a pattern without capturing groups (Python 3.7 and
    later: empty matches split too).  [cur] is the piece being built, in
    reverse. *)
Fixpoint split_from (r : regex) (s : str) (skip : nat) (cur : str)
  : list str :=
  match s with
  | [] =>
      match skip, match_at r [] with
      | 0, Some _ => [rev cur; []]
      | _, _ => [rev cur]
      end
  | c :: s' =>
      match skip with
      | S n => split_from r s' n cur
      | 0 =>
          match match_at r s with
          | Some (0, _) => rev cur :: split_from r s' 0 [c]
          | Some (S n, _) => rev cur :: split_from r s' n []
          | None => split_from r s' 0 (c :: cur)
          end
      end
  end.

Definition re_split (r : regex) (s : str) : list str :=
  split_from r s 0 [].

End Regex.

Import Regex.

(* ===================================================================== *)
(** * Python values and exceptions *)
(* ===================================================================== *)

Module Py.

(** The values [json.loads] produces.  A number with a fraction or an
    exponent is carried as its literal text: no floating-point arithmetic is
    modelled. *)
Inductive json : Type :=
| JNull
| JBool (b : bool)
| JInt (z : Z)
| JFloat (literal : str)
| JStr (s : str)
| JArr (items : list json)
| JObj (fields : list (str * json)).

Inductive exn : Type :=
| JSONDecodeError
| AttributeError      (* [.get] or [.lower] on a value that has none *)
| TypeError           (* not iterable, not subscriptable *)
| BindingError        (* sqlite3: a parameter of an unsupported type *)
| OverflowError       (* sqlite3: an integer outside 64 bits *)
| OperationalError    (* sqlite3: integer overflow in SUM *)
| RecursionError      (* json: nesting deeper than the interpreter allows *)
| ValueError.         (* json: an integer literal of too many digits *)

Inductive outcome (A : Type) : Type :=
| Return (a : A)
| Raise (e : exn).
Arguments Raise {A} e.

Definition obind (A B : Type) (m : outcome A) (f : A -> outcome B)
  : outcome B :=
  match m with
  | Return a => f a
  | Raise e => Raise e
  end.

(** [d.get(k)] on the fields of a dict *)
Fixpoint lookup (fields : list (str * json)) (k : str) : option json :=
  match fields with
  | [] => None
  | (k', v) :: rest => if str_eqb k' k then Some v else lookup rest k
  end.

(** [d[k] = v]: an existing key keeps its place. *)
Fixpoint dict_set (fields : list (str * json)) (k : str) (v : json)
  : list (str * json) :=
  match fields with
  | [] => [(k, v)]
  | (k', v') :: rest =>
      if str_eqb k' k then (k', v) :: rest
      else (k', v') :: dict_set rest k v
  end.

(** [x.get(k, default)]: only a dict has [get]. *)
Definition py_get (x : json) (k : str) (default : json) : outcome json :=
  match x with
  | JObj fields =>
      Return (match lookup fields k with Some v => v | None => default end)
  | _ => Raise AttributeError
  end.

(** A float literal denotes zero when its mantissa has no non-zero digit
    (the underflow of a tiny literal to zero is not modelled). *)
Fixpoint mantissa_zero (s : str) : bool :=
  match s with
  | [] => true
  | c :: s' =>
      if Ascii.eqb c "e" || Ascii.eqb c "E" then true
      else if is_digit c && negb (Ascii.eqb c "0") then false
      else if is_upper c || is_lower c then false   (* NaN, Infinity *)
      else mantissa_zero s'
  end.

(** [bool(x)] *)
Definition truthy (x : json) : bool :=
  match x with
  | JNull => false
  | JBool b => b
  | JInt z => negb (z =? 0)%Z
  | JFloat l => negb (mantissa_zero l)
  | JStr s => match s with [] => false | _ => true end
  | JArr l => match l with [] => false | _ => true end
  | JObj f => match f with [] => false | _ => true end
  end.

Definition is_str (k : str) (x : json) : bool :=
  match x with
  | JStr s => str_eqb s k
  | _ => false
  end.

(** [k in x] for a string [k] *)
Definition py_in (k : str) (x : json) : outcome bool :=
  match x with
  | JObj fields =>
      Return (match lookup fields k with Some _ => true | None => false end)
  | JArr items => Return (existsb (is_str k) items)
  | JStr s => Return (contains k s)
  | _ => Raise TypeError
  end.

(** [for x in v]: a list yields its items, a dict its keys, a string its
    characters. *)
Definition py_iter (v : json) : outcome (list json) :=
  match v with
  | JArr items => Return items
  | JObj fields => Return (map (fun kv => JStr (fst kv)) fields)
  | JStr s => Return (map (fun c => JStr [c]) s)
  | _ => Raise TypeError
  end.

(** The receiver of a [str] method such as [x.lower()]: other values have
    no such attribute. *)
Definition as_str (x : json) : outcome str :=
  match x with
  | JStr s => Return s
  | _ => Raise AttributeError
  end.

Definition Z_to_str (z : Z) : str :=
  of_string (DecimalString.NilZero.string_of_int (Z.to_int z)).

Definition hex_digit (n : N) : ascii :=
  if (n <? 10)%N then ascii_of_N (48 + n) else ascii_of_N (87 + n).

(** One character inside [repr] of a string quoted with [q]. *)
Definition repr_char (q c : ascii) : str :=
  if Ascii.eqb c "\" then ["\"; "\"]%char
  else if Ascii.eqb c q then ["\"%char; c]
  else if Ascii.eqb c "009" then of_string "\t"
  else if Ascii.eqb c "010" then of_string "\n"
  else if Ascii.eqb c "013" then of_string "\r"
  else if (code c <? 32)%N || (code c =? 127)%N then
    ["\"; "x"; hex_digit (code c / 16); hex_digit (code c mod 16)]%char
  else [c].

(** [repr(s)] for a string: single quotes unless [s] has a single quote and
    no double quote. *)
Definition repr_str (s : str) : str :=
  let q := if existsb (Ascii.eqb "'") s && negb (existsb (Ascii.eqb dquote) s)
           then dquote else "'"%char in
  q :: flat_map (repr_char q) s ++ [q].

Fixpoint join (sep : str) (parts : list str) : str :=
  match parts with
  | [] => []
  | [p] => p
  | p :: rest => p ++ sep ++ join sep rest
  end.

(** [repr(x)] *)
Fixpoint py_repr (x : json) : str :=
  match x with
  | JNull => of_string "None"
  | JBool true => of_string "True"
  | JBool false => of_string "False"
  | JInt z => Z_to_str z
  | JFloat l => l
  | JStr s => repr_str s
  | JArr items =>
      of_string "[" ++ join ", " (map py_repr items) ++ of_string "]"
  | JObj fields =>
      of_string "{" ++
      join ", " (map (fun kv => repr_str (fst kv) ++ of_string ": " ++
                                py_repr (snd kv)) fields) ++
      of_string "}"
  end.

(** [str(x)] *)
Definition py_str (x : json) : str :=
  match x with
  | JStr s => s
  | _ => py_repr x
  end.

End Py.

Import Py.

(* ===================================================================== *)
(** * A reference strict parser *)
(* ===================================================================== *)

(** [json.loads] belongs to Python's library, not to the repository: the
    scripts below take it as a parameter.  [JsonRef.loads] is a reference
    instance, written after the grammar of Python's [json] decoder (literals
    [null], [true], [false], [NaN], [Infinity], [-Infinity]; numbers;
    strings with escapes, no raw control character; arrays; objects with a
    repeated key keeping its last value).  A [\u] escape above the 8-bit
    alphabet is rejected by this instance. *)

Module JsonRef.

Definition is_json_ws (c : ascii) : bool :=
  Ascii.eqb c " " || Ascii.eqb c "009" || Ascii.eqb c "010" ||
  Ascii.eqb c "013".

Definition skip_ws (s : str) : str := drop_while is_json_ws s.

Definition hex_val (c : ascii) : option N :=
  if is_digit c then Some (code c - 48)%N
  else if between 97 102 c then Some (code c - 87)%N
  else if between 65 70 c then Some (code c - 55)%N
  else None.

Definition simple_escape (c : ascii) : option ascii :=
  if Ascii.eqb c dquote then Some dquote
  else if Ascii.eqb c "\" then Some "\"%char
  else if Ascii.eqb c "/" then Some "/"%char
  else if Ascii.eqb c "b" then Some "008"%char
  else if Ascii.eqb c "f" then Some "012"%char
  else if Ascii.eqb c "n" then Some "010"%char
  else if Ascii.eqb c "r" then Some "013"%char
  else if Ascii.eqb c "t" then Some "009"%char
  else None.

(** The body of a string literal, after its opening quote. *)
Fixpoint scan_string (s : str) (acc : str) : option (str * str) :=
  match s with
  | [] => None
  | c :: r =>
      if Ascii.eqb c dquote then Some (rev acc, r)
      else if Ascii.eqb c "\" then
        match r with
        | [] => None
        | e :: r1 =>
            match simple_escape e with
            | Some x => scan_string r1 (x :: acc)
            | None =>
                if Ascii.eqb e "u" then
                  match r1 with
                  | h1 :: h2 :: h3 :: h4 :: r2 =>
                      match hex_val h1, hex_val h2, hex_val h3, hex_val h4 with
                      | Some 0%N, Some 0%N, Some a, Some b =>
                          scan_string r2 (ascii_of_N (16 * a + b) :: acc)
                      | _, _, _, _ => None
                      end
                  | _ => None
                  end
                else None
            end
        end
      else if (code c <? 32)%N then None
      else scan_string r (c :: acc)
  end.

Definition digits_val (ds : str) : Z :=
  fold_left (fun acc c => (10 * acc + Z.of_N (code c - 48))%Z) ds 0%Z.

(** The integer part: an optional minus sign, then [0] alone or a run of
    digits that does not start with [0]. *)
Definition scan_int (s : str) : option (str * str) :=
  let '(sign, r) := match s with
                    | "-"%char :: r => (["-"%char], r)
                    | _ => ([], s)
                    end in
  match r with
  | "0"%char :: r1 => Some (sign ++ ["0"%char], r1)
  | c :: _ =>
      if is_digit c then Some (sign ++ take_while is_digit r,
                               drop_while is_digit r)
      else None
  | [] => None
  end.

(** The optional fraction: a dot and at least one digit. *)
Definition scan_frac (s : str) : str * str :=
  match s with
  | "."%char :: (c :: _) as r =>
      if is_digit c then ("."%char :: take_while is_digit r,
                          drop_while is_digit r)
      else ([], s)
  | _ => ([], s)
  end.

(** The optional exponent: [e] or [E], an optional sign, at least one
    digit. *)
Definition scan_exp (s : str) : str * str :=
  match s with
  | e :: r =>
      if Ascii.eqb e "e" || Ascii.eqb e "E" then
        let '(sign, r1) := match r with
                           | c :: r1 =>
                               if Ascii.eqb c "-" || Ascii.eqb c "+"
                               then ([c], r1) else ([], r)
                           | [] => ([], r)
                           end in
        match r1 with
        | c :: _ =>
            if is_digit c then (e :: sign ++ take_while is_digit r1,
                                drop_while is_digit r1)
            else ([], s)
        | [] => ([], s)
        end
      else ([], s)
  | [] => ([], s)
  end.

Definition int_of_literal (l : str) : Z :=
  match l with
  | "-"%char :: ds => (- digits_val ds)%Z
  | _ => digits_val l
  end.

(** [sys.int_info.default_max_str_digits]: since Python 3.11, [int] of a
    text of more digits raises [ValueError]; [float] has no such limit. *)
Definition max_str_digits : nat := 4300.

Definition digit_count (l : str) : nat :=
  match l with
  | "-"%char :: ds => List.length ds
  | _ => List.length l
  end.

(** A number at the head of [s], if one starts there: its value, or the
    exception of the conversion, and the rest of the text. *)
Definition scan_number (s : str) : option (outcome json * str) :=
  match scan_int s with
  | None => None
  | Some (i, r) =>
      let '(f, r1) := scan_frac r in
      let '(e, r2) := scan_exp r1 in
      match f, e with
      | [], [] =>
          Some (if (max_str_digits <? digit_count i)%nat
                then Raise ValueError
                else Return (JInt (int_of_literal i)), r2)
      | _, _ => Some (Return (JFloat (i ++ f ++ e)), r2)
      end
  end.

Definition keyword (w : string) (v : json) (s : str)
  : outcome (json * str) :=
  if starts_with w s then Return (v, skipn (List.length (of_string w)) s)
  else Raise JSONDecodeError.

(** Members of an object, from the opening quote of a key. *)
Fixpoint parse_members (pv : str -> outcome (json * str)) (n : nat)
         (s : str) (acc : list (str * json)) : outcome (json * str) :=
  match n with
  | 0 => Raise JSONDecodeError
  | S n' =>
      match s with
      | q :: r =>
          if Ascii.eqb q dquote then
            match scan_string r [] with
            | Some (key, r1) =>
                match skip_ws r1 with
                | ":"%char :: r2 =>
                    match pv (skip_ws r2) with
                    | Return (v, r3) =>
                        let acc' := dict_set acc key v in
                        match skip_ws r3 with
                        | "}"%char :: r4 => Return (JObj acc', r4)
                        | ","%char :: r4 =>
                            parse_members pv n' (skip_ws r4) acc'
                        | _ => Raise JSONDecodeError
                        end
                    | Raise e => Raise e
                    end
                | _ => Raise JSONDecodeError
                end
            | None => Raise JSONDecodeError
            end
          else Raise JSONDecodeError
      | [] => Raise JSONDecodeError
      end
  end.

(** Items of an array, from the first character of an item. *)
Fixpoint parse_items (pv : str -> outcome (json * str)) (n : nat)
         (s : str) (acc : list json) : outcome (json * str) :=
  match n with
  | 0 => Raise JSONDecodeError
  | S n' =>
      match pv s with
      | Return (v, r) =>
          match skip_ws r with
          | "]"%char :: r1 => Return (JArr (rev (v :: acc)), r1)
          | ","%char :: r1 => parse_items pv n' (skip_ws r1) (v :: acc)
          | _ => Raise JSONDecodeError
          end
      | Raise e => Raise e
      end
  end.

(** One value at the head of [s], or the first exception met on the way;
    [fuel] bounds the nesting depth. *)
Fixpoint parse_value (fuel : nat) (s : str) : outcome (json * str) :=
  match fuel with
  | 0 => Raise JSONDecodeError
  | S f =>
      match s with
      | [] => Raise JSONDecodeError
      | c :: r =>
          if Ascii.eqb c dquote then
            match scan_string r [] with
            | Some (t, r1) => Return (JStr t, r1)
            | None => Raise JSONDecodeError
            end
          else if Ascii.eqb c "{" then
            match skip_ws r with
            | "}"%char :: r1 => Return (JObj [], r1)
            | r1 => parse_members (parse_value f) (List.length s) r1 []
            end
          else if Ascii.eqb c "[" then
            match skip_ws r with
            | "]"%char :: r1 => Return (JArr [], r1)
            | r1 => parse_items (parse_value f) (List.length s) r1 []
            end
          else if Ascii.eqb c "n" then keyword "null" JNull s
          else if Ascii.eqb c "t" then keyword "true" (JBool true) s
          else if Ascii.eqb c "f" then keyword "false" (JBool false) s
          else
            match scan_number s with
            | Some (Return v, r1) => Return (v, r1)
            | Some (Raise e, _) => Raise e
            | None =>
                if Ascii.eqb c "N" then keyword "NaN" (JFloat "NaN") s
                else if Ascii.eqb c "I" then
                  keyword "Infinity" (JFloat "Infinity") s
                else if Ascii.eqb c "-" then
                  keyword "-Infinity" (JFloat "-Infinity") s
                else Raise JSONDecodeError
            end
      end
  end.

(** [json.loads(s)]: the value, [JSONDecodeError] where the text is not
    JSON, or the exception of a conversion met before that.  The fuel is
    more than the text can nest, so the model never raises
    [RecursionError]; Python does, at a depth that depends on the
    interpreter. *)
Definition loads (s : str) : outcome json :=
  match parse_value (S (List.length s)) (skip_ws s) with
  | Return (v, r) =>
      match skip_ws r with
      | [] => Return v
      | _ => Raise JSONDecodeError
      end
  | Raise e => Raise e
  end.

End JsonRef.

(* ===================================================================== *)
(** * The store *)
(* ===================================================================== *)

Module Sql.

(** A value bound to a statement parameter, or held in a column.  Rows hold
    the values as bound: SQLite's coercion of a value to the declared type
    of its column is modelled only where a statement depends on it, in the
    UNIQUE constraint on [session_id]. *)
Inductive sqlval : Type :=
| SqlNull
| SqlInt (z : Z)
| SqlReal (literal : str)
| SqlText (s : str).

(** Binding a Python value to a parameter of [cursor.execute]. *)
Definition bind_param (v : json) : outcome sqlval :=
  match v with
  | JNull => Return SqlNull
  | JBool b => Return (SqlInt (if b then 1 else 0))
  | JInt z =>
      if ((- 2 ^ 63 <=? z) && (z <? 2 ^ 63))%Z then Return (SqlInt z)
      else Raise OverflowError
  | JFloat l => if str_eqb l "NaN" then Return SqlNull   (* NaN is stored
                                                            as NULL *)
                else Return (SqlReal l)
  | JStr s => Return (SqlText s)
  | JArr _ => Raise BindingError
  | JObj _ => Raise BindingError
  end.

(** A value as the TEXT column [session_id] holds it: an integer becomes
    its decimal text.  (A float is taken by its literal.) *)
Definition text_key (v : sqlval) : option str :=
  match v with
  | SqlNull => None
  | SqlInt z => Some (Z_to_str z)
  | SqlReal l => Some l
  | SqlText s => Some s
  end.

(** Equality as the UNIQUE constraint on [session_id] sees it: NULL differs
    from everything, NULL included. *)
Definition sql_eqb (a b : sqlval) : bool :=
  match text_key a, text_key b with
  | Some x, Some y => str_eqb x y
  | _, _ => false
  end.

(** The tables of [create_database] and [create_messages_table], without
    the AUTOINCREMENT [id] column, which nothing reads: a table is the list
    of its rows in insertion order. *)
Record session_row : Type := {
  s_session_id : sqlval;
  s_user_id : sqlval;
  s_model : sqlval;
  s_started_at : sqlval;
  s_ended_at : sqlval }.

Record token_row : Type := {
  t_session_id : sqlval;
  t_timestamp : sqlval;
  t_model : sqlval;
  t_token_type : sqlval;
  t_value : sqlval }.

Record cost_row : Type := {
  c_session_id : sqlval;
  c_timestamp : sqlval;
  c_model : sqlval;
  c_value : sqlval }.

Record active_row : Type := {
  a_session_id : sqlval;
  a_timestamp : sqlval;
  a_value : sqlval }.

Record code_row : Type := {
  k_session_id : sqlval;
  k_timestamp : sqlval;
  k_activity_type : sqlval;
  k_value : sqlval }.

(** [raw_json] holds [json.dumps(metric)]; the row keeps the value that
    text serialises. *)
Record raw_row : Type := {
  r_timestamp : sqlval;
  r_metric_name : sqlval;
  r_raw_json : json }.

Record message_row : Type := {
  m_session_id : sqlval;
  m_timestamp : sqlval;
  m_role : sqlval;
  m_content_preview : sqlval;
  m_tool_use : sqlval;
  m_usage_input_tokens : sqlval;
  m_usage_output_tokens : sqlval;
  m_usage_cache_read : sqlval;
  m_usage_cache_creation : sqlval }.

Record db : Type := {
  sessions : list session_row;
  token_usage : list token_row;
  cost_usage : list cost_row;
  active_time : list active_row;
  code_activity : list code_row;
  raw_metrics : list raw_row;
  session_messages : list message_row }.

Definition empty_db : db :=
  {| sessions := []; token_usage := []; cost_usage := [];
     active_time := []; code_activity := []; raw_metrics := [];
     session_messages := [] |}.

(** The statements the scripts execute. *)
Inductive stmt : Type :=
| InsertRaw (r : raw_row)
| InsertOrIgnoreSession (r : session_row)
| InsertToken (r : token_row)
| InsertCost (r : cost_row)
| InsertActive (r : active_row)
| InsertCode (r : code_row)
| InsertMessage (r : message_row)
| Commit.

Definition same_session (sid : sqlval) (r : session_row) : bool :=
  sql_eqb (s_session_id r) sid.

Definition has_session (sid : sqlval) (d : db) : bool :=
  existsb (same_session sid) (sessions d).

(** One statement on the tables.  [INSERT OR IGNORE] drops the row when
    the UNIQUE constraint on [session_id] would be violated. *)
Definition apply_stmt (st : stmt) (d : db) : db :=
  match st with
  | InsertRaw r =>
      {| sessions := sessions d; token_usage := token_usage d;
         cost_usage := cost_usage d; active_time := active_time d;
         code_activity := code_activity d;
         raw_metrics := raw_metrics d ++ [r];
         session_messages := session_messages d |}
  | InsertOrIgnoreSession r =>
      if has_session (s_session_id r) d then d
      else
        {| sessions := sessions d ++ [r]; token_usage := token_usage d;
           cost_usage := cost_usage d; active_time := active_time d;
           code_activity := code_activity d; raw_metrics := raw_metrics d;
           session_messages := session_messages d |}
  | InsertToken r =>
      {| sessions := sessions d; token_usage := token_usage d ++ [r];
         cost_usage := cost_usage d; active_time := active_time d;
         code_activity := code_activity d; raw_metrics := raw_metrics d;
         session_messages := session_messages d |}
  | InsertCost r =>
      {| sessions := sessions d; token_usage := token_usage d;
         cost_usage := cost_usage d ++ [r]; active_time := active_time d;
         code_activity := code_activity d; raw_metrics := raw_metrics d;
         session_messages := session_messages d |}
  | InsertActive r =>
      {| sessions := sessions d; token_usage := token_usage d;
         cost_usage := cost_usage d; active_time := active_time d ++ [r];
         code_activity := code_activity d; raw_metrics := raw_metrics d;
         session_messages := session_messages d |}
  | InsertCode r =>
      {| sessions := sessions d; token_usage := token_usage d;
         cost_usage := cost_usage d; active_time := active_time d;
         code_activity := code_activity d ++ [r];
         raw_metrics := raw_metrics d;
         session_messages := session_messages d |}
  | InsertMessage r =>
      {| sessions := sessions d; token_usage := token_usage d;
         cost_usage := cost_usage d; active_time := active_time d;
         code_activity := code_activity d; raw_metrics := raw_metrics d;
         session_messages := session_messages d ++ [r] |}
  | Commit => d
  end.

(** A connection: what is durable and visible to every reader
    ([committed]), and what this connection sees, pending rows included
    ([working]).  Python's [sqlite3] opens a transaction before the first
    INSERT and [conn.commit()] ends it. *)
Record conn : Type := {
  committed : db;
  working : db }.

Definition connect (d : db) : conn := {| committed := d; working := d |}.

Definition exec (c : conn) (st : stmt) : conn :=
  match st with
  | Commit => {| committed := working c; working := working c |}
  | _ => {| committed := committed c; working := apply_stmt st (working c) |}
  end.

Definition is_commit (st : stmt) : bool :=
  match st with
  | Commit => true
  | _ => false
  end.

(** The statements of a run, in order. *)
Definition run (tr : list stmt) (c : conn) : conn := fold_left exec tr c.

End Sql.

Import Sql.

(* ===================================================================== *)
(** * Effects: the statements executed, then a result or an exception *)
(* ===================================================================== *)

(** None of the scripts' writing functions reads the store back, so a call
    is described by the statements it executes, in order, and by how it
    ends.  A statement whose parameters fail to bind is not executed. *)

Module Io.

Definition io (A : Type) : Type := (list stmt * outcome A)%type.

Definition ret (A : Type) (a : A) : io A := ([], Return a).

Definition bind (A B : Type) (m : io A) (f : A -> io B) : io B :=
  match m with
  | (t1, Return a) => let '(t2, o) := f a in (t1 ++ t2, o)
  | (t1, Raise e) => (t1, Raise e)
  end.

Definition lift (A : Type) (o : outcome A) : io A := ([], o).

Definition execute (st : stmt) : io unit := ([st], Return tt).

Definition trace (A : Type) (m : io A) : list stmt := fst m.

Definition result (A : Type) (m : io A) : outcome A := snd m.

(** [for x in xs: body(x)] *)
Fixpoint for_each (A : Type) (xs : list A) (body : A -> io unit) : io unit :=
  match xs with
  | [] => ret tt
  | x :: rest => bind (body x) (fun _ => for_each rest body)
  end.

End Io.

Import Io.

Declare Scope io_scope.
Delimit Scope io_scope with io.
Notation "x <- m ;; k" := (Io.bind m (fun x => k))
  (at level 61, m at next level, right associativity) : io_scope.
Notation "m ;; k" := (Io.bind m (fun _ => k))
  (at level 61, right associativity) : io_scope.
Notation "x <~ o ;; k" := (Io.bind (Io.lift o) (fun x => k))
  (at level 61, o at next level, right associativity) : io_scope.

(* ===================================================================== *)
(** * scripts/parse_otel_metrics.py *)
(* ===================================================================== *)

Module OtelMetrics.

(** [(\w+):] and its replacement ["\1":] *)
Definition key_pattern : regex := Seq (Grp (Many1 is_word)) (Chr ":").
Definition key_template : list titem :=
  [TLit [dquote]; TGroup1; TLit [dquote; ":"%char]].

(** [,(\s*[}\]])] and its replacement [\1] *)
Definition is_close (c : ascii) : bool := Ascii.eqb c "}" || Ascii.eqb c "]".
Definition comma_pattern : regex :=
  Seq (Chr ",") (Grp (Seq (Many is_space) (Cls is_close))).
Definition comma_template : list titem := [TGroup1].

(** [(?=\{\s*descriptor:)] *)
Definition marker_pattern : regex :=
  Look (Seq (Chr "{") (Seq (Many is_space) (lit "descriptor:"))).

(** The three rewriting steps of [parse_metric_block], in order. *)
Definition clean (block : str) : str :=
  let cleaned := replace_char "'" dquote block in
  let cleaned := re_sub key_pattern key_template cleaned in
  let cleaned := re_sub comma_pattern comma_template cleaned in
  cleaned.

(** The loop of [extract_metrics_from_log] over [block[start:]]: the index
    one past the brace that brings the count back to zero, if any. *)
Fixpoint scan_braces (s : str) (brace_count : Z) (i : nat) : option nat :=
  match s with
  | [] => None
  | char :: s' =>
      if Ascii.eqb char "{" then scan_braces s' (brace_count + 1)%Z (S i)
      else if Ascii.eqb char "}" then
        let brace_count := (brace_count - 1)%Z in
        if (brace_count =? 0)%Z then Some (i + 1)
        else scan_braces s' brace_count (S i)
      else scan_braces s' brace_count (S i)
  end.

(** The text handed to [parse_metric_block] for one block, or [None] when
    the block is passed over ([descriptor:] absent, or no brace). *)
Definition metric_str (block : str) : option str :=
  if contains "descriptor:" block then
    match find_char "{" block with
    | None => None
    | Some start =>
        let end_ := match scan_braces (skipn start block) 0%Z start with
                    | Some e => e
                    | None => start
                    end in
        Some (slice block start end_)
    end
  else None.

(** The texts [extract_metrics_from_log] hands to [parse_metric_block], in
    order.  A block whose braces never balance contributes the empty text
    ([end] stays at [start]). *)
Definition candidate_of (block : str) : list str :=
  match metric_str block with
  | Some text => [text]
  | None => []
  end.

Definition candidates (log_content : str) : list str :=
  flat_map candidate_of (re_split marker_pattern log_content).

Definition nonempty (text : str) : bool :=
  match text with
  | [] => false
  | _ :: _ => true
  end.

(** The spans the extractor isolates: the candidates that are not empty. *)
Definition spans (log_content : str) : list str :=
  filter nonempty (candidates log_content).

(** [timestamp or datetime.now().isoformat()] *)
Definition timestamp_or (timestamp : option str) (now : str) : str :=
  match timestamp with
  | Some (c :: t) => c :: t
  | _ => now
  end.

(** [not metric or 'descriptor' not in metric] *)
Definition no_descriptor (metric : json) : outcome bool :=
  if negb (truthy metric) then Return true
  else obind (py_in "descriptor" metric) (fun b => Return (negb b)).

(** [cursor.execute] of the INSERT statements: parameters are bound left
    to right, and the statement runs when all of them bind. *)
Definition insert_raw (timestamp : str) (metric_name metric : json)
  : io unit :=
  (n <~ bind_param metric_name ;;
   execute (InsertRaw {| r_timestamp := SqlText timestamp;
                         r_metric_name := n;
                         r_raw_json := metric |}))%io.

Definition insert_or_ignore_session (session_id user_id model : json)
           (timestamp : str) : io unit :=
  (s <~ bind_param session_id ;;
   u <~ bind_param user_id ;;
   m <~ bind_param model ;;
   execute (InsertOrIgnoreSession
              {| s_session_id := s; s_user_id := u; s_model := m;
                 s_started_at := SqlText timestamp;
                 s_ended_at := SqlNull |}))%io.

Definition insert_token (session_id : json) (timestamp : str)
           (model token_type value : json) : io unit :=
  (s <~ bind_param session_id ;;
   m <~ bind_param model ;;
   t <~ bind_param token_type ;;
   v <~ bind_param value ;;
   execute (InsertToken
              {| t_session_id := s; t_timestamp := SqlText timestamp;
                 t_model := m; t_token_type := t; t_value := v |}))%io.

Definition insert_cost (session_id : json) (timestamp : str)
           (model value : json) : io unit :=
  (s <~ bind_param session_id ;;
   m <~ bind_param model ;;
   v <~ bind_param value ;;
   execute (InsertCost
              {| c_session_id := s; c_timestamp := SqlText timestamp;
                 c_model := m; c_value := v |}))%io.

Definition insert_active (session_id : json) (timestamp : str)
           (value : json) : io unit :=
  (s <~ bind_param session_id ;;
   v <~ bind_param value ;;
   execute (InsertActive
              {| a_session_id := s; a_timestamp := SqlText timestamp;
                 a_value := v |}))%io.

Definition insert_code (session_id : json) (timestamp : str)
           (activity_type : str) (value : json) : io unit :=
  (s <~ bind_param session_id ;;
   v <~ bind_param value ;;
   execute (InsertCode
              {| k_session_id := s; k_timestamp := SqlText timestamp;
                 k_activity_type := SqlText activity_type;
                 k_value := v |}))%io.

(** [metric_name.split('.')[-1] if '.' in metric_name else metric_name] *)
Definition activity_type_of (metric_name : str) : str :=
  if contains "." metric_name
  then last (split_char "." metric_name) []
  else metric_name.

Definition code_keywords : list str :=
  [of_string "commit"; of_string "pull_request"; of_string "lines_of_code"].

(** The body of the loop [for dp in data_points] of [store_metric]. *)
Definition store_data_point (metric_name : json) (timestamp : str)
           (dp : json) : io unit :=
  (attrs <~ py_get dp "attributes" (JObj []) ;;
   session_default <~ py_get attrs "session_id" (JStr "unknown") ;;
   session_id <~ py_get attrs "session.id" session_default ;;
   user_default <~ py_get attrs "user_id" (JStr "unknown") ;;
   user_id <~ py_get attrs "user.id" user_default ;;
   model <~ py_get attrs "model" (JStr "unknown") ;;
   value <~ py_get dp "value" (JInt 0) ;;
   insert_or_ignore_session session_id user_id model timestamp ;;
   n <~ as_str metric_name ;;
   let name := lower n in
   if contains "token" name then
     token_type <~ py_get attrs "type" (JStr "unknown") ;;
     insert_token session_id timestamp model token_type value
   else if contains "cost" name then
     insert_cost session_id timestamp model value
   else if contains "active_time" name then
     insert_active session_id timestamp value
   else if existsb (fun x => contains x name) code_keywords then
     insert_code session_id timestamp (activity_type_of n) value
   else ret tt)%io.

(** [store_metric(conn, metric, timestamp)]; [now] is what
    [datetime.now().isoformat()] returns during the call. *)
Definition store_metric (metric : json) (timestamp : option str) (now : str)
  : io unit :=
  (absent <~ no_descriptor metric ;;
   if absent then ret tt
   else
     let timestamp := timestamp_or timestamp now in
     descriptor <~ py_get metric "descriptor" (JObj []) ;;
     metric_name <~ py_get descriptor "name" (JStr "") ;;
     data_points <~ py_get metric "dataPoints" (JArr []) ;;
     insert_raw timestamp metric_name metric ;;
     dps <~ py_iter data_points ;;
     for_each dps (store_data_point metric_name timestamp) ;;
     execute Commit)%io.

(** The loop [for metric in metrics: store_metric(conn, metric)] of
    [parse_log_file]; [clock i] is the time during the call for the
    metric of index [i]. *)
Fixpoint store_all (clock : nat -> str) (i : nat) (metrics : list json)
  : io unit :=
  match metrics with
  | [] => ret tt
  | metric :: rest =>
      (store_metric metric None (clock i) ;;
       store_all clock (S i) rest)%io
  end.

Section WithParser.

(** [json.loads]: the strict parser of Python's library. *)
Variable loads : str -> outcome json.

(** [parse_metric_block(block)]: a [JSONDecodeError] becomes [None]. *)
Definition parse_metric_block (block : str) : outcome (option json) :=
  match loads (clean block) with
  | Return v => Return (Some v)
  | Raise JSONDecodeError => Return None
  | Raise e => Raise e
  end.

(** The loop [for block in blocks] of [extract_metrics_from_log]. *)
Fixpoint extract_from_blocks (blocks : list str) : outcome (list json) :=
  match blocks with
  | [] => Return []
  | block :: rest =>
      match metric_str block with
      | None => extract_from_blocks rest
      | Some text =>
          obind (parse_metric_block text) (fun parsed =>
          obind (extract_from_blocks rest) (fun metrics =>
          Return (match parsed with
                  | Some v => if truthy v then v :: metrics else metrics
                  | None => metrics
                  end)))
      end
  end.

(** Parsing a list of texts and keeping the truthy results, as the loop
    does with [if parsed: metrics.append(parsed)]. *)
Fixpoint parse_all (texts : list str) : outcome (list json) :=
  match texts with
  | [] => Return []
  | text :: rest =>
      obind (parse_metric_block text) (fun parsed =>
      obind (parse_all rest) (fun metrics =>
      Return (match parsed with
              | Some v => if truthy v then v :: metrics else metrics
              | None => metrics
              end)))
  end.

(** [extract_metrics_from_log(log_content)] *)
Definition extract_metrics_from_log (log_content : str)
  : outcome (list json) :=
  extract_from_blocks (re_split marker_pattern log_content).

(** [parse_log_file]: the content of the log file, then one [store_metric]
    per extracted metric.  (The summary it prints reads the store and
    writes nothing.) *)
Definition parse_log_file (content : str) (clock : nat -> str) : io unit :=
  (metrics <~ extract_metrics_from_log content ;;
   store_all clock 0 metrics)%io.

End WithParser.

End OtelMetrics.

Import OtelMetrics.

(* ===================================================================== *)
(** * scripts/combine_sources.py *)
(* ===================================================================== *)

Module CombineSources.

(** A transcript file as [merge_data] uses it: [jsonl_file.stem] and the
    lines read from it. *)
Record session_file : Type := {
  stem : str;
  lines : list str }.

(** [extract_usage_from_entry(entry)] *)
Record usage : Type := {
  input_tokens : json;
  output_tokens : json;
  cache_read : json;
  cache_creation : json }.

Definition extract_usage_from_entry (entry : json) : outcome usage :=
  obind (py_get entry "usage" (JObj [])) (fun u =>
  obind (py_get u "input_tokens" (JInt 0)) (fun i =>
  obind (py_get u "output_tokens" (JInt 0)) (fun o =>
  obind (py_get u "cache_read_input_tokens" (JInt 0)) (fun r =>
  obind (py_get u "cache_creation_input_tokens" (JInt 0)) (fun c =>
  Return {| input_tokens := i; output_tokens := o;
            cache_read := r; cache_creation := c |}))))).

(** The block [if isinstance(content, list): ...] of [merge_data]. *)
Definition first_content (content : json) : outcome json :=
  match content with
  | JArr (JObj f :: _) => py_get (JObj f) "text" (JStr (py_str (JObj f)))
  | JArr (x :: _) => Return (JStr (py_str x))
  | JArr [] => Return (JStr [])
  | _ => Return content
  end.

(** [content[:200] if content else ''] *)
Definition preview_of (content : json) : outcome json :=
  if truthy content then
    match content with
    | JStr s => Return (JStr (firstn 200 s))
    | JArr l => Return (JArr (firstn 200 l))
    | _ => Raise TypeError
    end
  else Return (JStr []).

(** The loop [for item in entry.get('content', [])] with its [break]:
    [None] is Python's [None]. *)
Fixpoint first_tool_use (items : list json) : option json :=
  match items with
  | [] => None
  | item :: rest =>
      match item with
      | JObj f =>
          if match lookup f "type" with
             | Some t => is_str "tool_use" t
             | None => false
             end
          then Some (match lookup f "name" with
                     | Some n => n
                     | None => JStr "unknown_tool"
                     end)
          else first_tool_use rest
      | _ => first_tool_use rest
      end
  end.

Definition tool_use_of (content : json) : option json :=
  match content with
  | JArr items => first_tool_use items
  | _ => None
  end.

Definition bind_opt (v : option json) : outcome sqlval :=
  match v with
  | Some x => bind_param x
  | None => Return SqlNull
  end.

(** The INSERT of [merge_data].  Its column list has no [timestamp]: the
    column keeps its default, NULL. *)
Definition insert_message (session_id : str) (role content_preview : json)
           (tool_use : option json) (u : usage) : io unit :=
  (r <~ bind_param role ;;
   p <~ bind_param content_preview ;;
   t <~ bind_opt tool_use ;;
   ui <~ bind_param (input_tokens u) ;;
   uo <~ bind_param (output_tokens u) ;;
   ur <~ bind_param (cache_read u) ;;
   uc <~ bind_param (cache_creation u) ;;
   execute (InsertMessage
              {| m_session_id := SqlText session_id;
                 m_timestamp := SqlNull;
                 m_role := r;
                 m_content_preview := p;
                 m_tool_use := t;
                 m_usage_input_tokens := ui;
                 m_usage_output_tokens := uo;
                 m_usage_cache_read := ur;
                 m_usage_cache_creation := uc |}))%io.

(** The body of the loop [for entry in entries] of [merge_data]. *)
Definition merge_entry (session_id : str) (entry : json) : io unit :=
  (role <~ py_get entry "role" (JStr "unknown") ;;
   content <~ py_get entry "content" (JStr []) ;;
   content <~ first_content content ;;
   content_preview <~ preview_of content ;;
   listed <~ py_get entry "content" JNull ;;
   let tool_use := tool_use_of listed in
   u <~ extract_usage_from_entry entry ;;
   insert_message session_id role content_preview tool_use u)%io.

Section WithParser.

Variable loads : str -> outcome json.

(** [parse_session_jsonl]: the lines of the file, in order. *)
Fixpoint parse_session_jsonl (file_lines : list str) : outcome (list json) :=
  match file_lines with
  | [] => Return []
  | line :: rest =>
      match strip line with
      | [] => parse_session_jsonl rest
      | _ :: _ =>
          match loads line with
          | Return v =>
              obind (parse_session_jsonl rest) (fun entries =>
              Return (v :: entries))
          | Raise JSONDecodeError => parse_session_jsonl rest
          | Raise e => Raise e
          end
      end
  end.

Definition merge_file (f : session_file) : io unit :=
  (entries <~ parse_session_jsonl (lines f) ;;
   for_each entries (merge_entry (stem f)))%io.

(** [merge_data]: [files] is what [find_session_files()] returns. *)
Definition merge_data (files : list session_file) : io unit :=
  match files with
  | [] => ret tt
  | _ :: _ => (for_each files merge_file ;; execute Commit)%io
  end.

End WithParser.

End CombineSources.

Import CombineSources.

(* ===================================================================== *)
(** * scripts/generate_local_report.py *)
(* ===================================================================== *)

Module LocalReport.

(** The result of a SUM aggregate: NULL when no row contributes a value; an
    integer while every value is an integer; an error when the integer sum
    leaves 64 bits; a float otherwise, which is not computed here. *)
Inductive sum_result : Type :=
| SumNull
| SumInt (z : Z)
| SumOverflow
| SumFloat.

Definition sum_step (acc : sum_result) (v : sqlval) : sum_result :=
  match v with
  | SqlNull => acc
  | SqlInt x =>
      match acc with
      | SumNull => SumInt x
      | SumInt z =>
          if ((- 2 ^ 63 <=? z + x) && (z + x <? 2 ^ 63))%Z
          then SumInt (z + x) else SumOverflow
      | SumOverflow => SumOverflow
      | SumFloat => SumFloat
      end
  | _ =>
      match acc with
      | SumOverflow => SumOverflow
      | _ => SumFloat
      end
  end.

Definition sql_sum (vals : list sqlval) : sum_result :=
  fold_left sum_step vals SumNull.

(** [CASE WHEN token_type = ty THEN value ELSE 0 END] *)
Definition case_when_type (ty : str) (r : token_row) : sqlval :=
  match t_token_type r with
  | SqlText s => if str_eqb s ty then t_value r else SqlInt 0
  | _ => SqlInt 0
  end.

Definition sum_of_type (ty : str) (rows : list token_row) : sum_result :=
  sql_sum (map (case_when_type ty) rows).

(** The dictionary [calculate_cache_metrics] returns.  Python's [/] on two
    integers is the exact quotient rounded to a float; the ratios are kept
    as the exact quotients. *)
Record cache_metrics : Type := {
  cache_read_tokens : Z;
  cache_creation_tokens : Z;
  report_input_tokens : Z;
  cache_hit_ratio : Q;
  cache_efficiency : Q;
  cache_read_creation_ratio : Q;
  estimated_savings : Q }.

(** How a report computation ends. *)
Inductive answer (A : Type) : Type :=
| Exact (a : A)
| Fails (e : exn)
| Floating.
Arguments Fails {A} e.
Arguments Floating {A}.

(** [row[i] or 0] *)
Definition or_zero (r : sum_result) : answer Z :=
  match r with
  | SumNull => Exact 0%Z
  | SumInt z => Exact z
  | SumOverflow => Fails OperationalError
  | SumFloat => Floating
  end.

Definition ratio (a b : Z) : Q := (inject_Z a / inject_Z b)%Q.

(** [calculate_cache_metrics(cursor)] on the rows of [token_usage] *)
Definition calculate_cache_metrics (rows : list token_row)
  : answer cache_metrics :=
  match or_zero (sum_of_type "cacheRead" rows),
        or_zero (sum_of_type "cacheCreation" rows),
        or_zero (sum_of_type "input" rows) with
  | Exact cache_read, Exact cache_creation, Exact input_tokens =>
      Exact
        {| cache_read_tokens := cache_read;
           cache_creation_tokens := cache_creation;
           report_input_tokens := input_tokens;
           cache_hit_ratio :=
             if (cache_read + cache_creation >? 0)%Z
             then ratio cache_read (cache_read + cache_creation) else 0%Q;
           cache_efficiency :=
             if (cache_read + input_tokens >? 0)%Z
             then ratio cache_read (cache_read + input_tokens) else 0%Q;
           cache_read_creation_ratio :=
             if (cache_creation >? 0)%Z
             then ratio cache_read cache_creation else 0%Q;
           estimated_savings :=
             (inject_Z cache_read * (3 # 1000000) * (9 # 10))%Q |}
  | Fails e, _, _ => Fails e
  | _, Fails e, _ => Fails e
  | _, _, Fails e => Fails e
  | _, _, _ => Floating
  end.

End LocalReport.

Import LocalReport.

(* ===================================================================== *)
(** * The specification's wording, as definitions *)
(* ===================================================================== *)

Module Spec.

(** A descriptor-bearing opening brace: [{], optional white space, then
    [descriptor:]. *)
Definition marker_at (s : str) : bool :=
  match s with
  | c :: r => Ascii.eqb c "{" &&
              starts_with "descriptor:" (drop_while is_space r)
  | [] => false
  end.

(** The length of the shortest prefix of [s] that closes [depth] open
    braces, counting [{] and [}] only. *)
Fixpoint close_after (depth : nat) (s : str) : option nat :=
  match s with
  | [] => None
  | c :: s' =>
      if Ascii.eqb c "{" then option_map S (close_after (S depth) s')
      else if Ascii.eqb c "}" then
        match depth with
        | 0 | 1 => Some 1
        | S d => option_map S (close_after d s')
        end
      else option_map S (close_after depth s')
  end.

(** The length of the span from the opening brace at the head of [s] to its
    matching closing brace. *)
Definition matching_close (s : str) : option nat :=
  match s with
  | c :: s' => if Ascii.eqb c "{" then option_map S (close_after 1 s')
               else None
  | [] => None
  end.

(** The span of the marker at the head of [s], when it has one. *)
Definition span_at (s : str) : list str :=
  if marker_at s then
    match matching_close s with
    | Some n => [firstn n s]
    | None => []
    end
  else [].

(** Every span that starts at a descriptor-bearing brace and ends at its
    matching closing brace, in the order of the text. *)
Fixpoint marker_spans (s : str) : list str :=
  match s with
  | [] => []
  | _ :: s' => span_at s ++ marker_spans s'
  end.

(** The text before the first marker. *)
Fixpoint before_first_marker (s : str) : str :=
  match s with
  | [] => []
  | c :: s' => if marker_at s then [] else c :: before_first_marker s'
  end.

(** The block that starts at the head of [s]: up to the next marker. *)
Definition piece_at (s : str) : str :=
  match s with
  | [] => []
  | c :: s' => c :: before_first_marker s'
  end.

(** The blocks that start at a marker, in the order of the text. *)
Fixpoint marker_pieces (s : str) : list str :=
  match s with
  | [] => []
  | _ :: s' => (if marker_at s then [piece_at s] else []) ++ marker_pieces s'
  end.

(** No marker starts at any of the first [k] positions of [s]. *)
Fixpoint marker_free (k : nat) (s : str) : bool :=
  match k, s with
  | S k', _ :: s' => negb (marker_at s) && marker_free k' s'
  | _, _ => true
  end.

(** No marker lies inside the span of another marker. *)
Fixpoint separated (s : str) : bool :=
  match s with
  | [] => true
  | _ :: s' =>
      (if marker_at s then
         match matching_close s with
         | Some n => marker_free (n - 1) s'
         | None => true
         end
       else true) && separated s'
  end.

(** Nothing before the first marker can be taken for a block: the text
    there has no [descriptor:], or no opening brace. *)
Definition stray_free (s : str) : bool :=
  negb (contains "descriptor:" (before_first_marker s) &&
        existsb (fun c => Ascii.eqb c "{") (before_first_marker s)).

(** Step (b): every bareword, a maximal run of word characters, that a
    colon follows at once is put between double quotes.  [word] is the run
    being read, in reverse. *)
Fixpoint quote_barewords_from (word : str) (s : str) : str :=
  match s with
  | [] => rev word
  | c :: s' =>
      if is_word c then quote_barewords_from (c :: word) s'
      else if Ascii.eqb c ":" && nonempty word then
        dquote :: rev word ++ dquote :: c :: quote_barewords_from [] s'
      else rev word ++ c :: quote_barewords_from [] s'
  end.

Definition quote_barewords (s : str) : str := quote_barewords_from [] s.

(** Only white space, then a closing brace or bracket. *)
Definition closes_after_space (s : str) : bool :=
  match drop_while is_space s with
  | c :: _ => is_close c
  | [] => false
  end.

(** Step (c): every comma followed only by white space and a closing brace
    or bracket is removed. *)
Fixpoint drop_trailing_commas (s : str) : str :=
  match s with
  | [] => []
  | c :: s' =>
      if Ascii.eqb c "," && closes_after_space s'
      then drop_trailing_commas s'
      else c :: drop_trailing_commas s'
  end.

(** The substring after the last [.], or the whole name without one. *)
Definition after_last_dot (name : str) : str :=
  rev (take_while (fun c => negb (Ascii.eqb c ".")) (rev name)).

(** The usage event of one data point. *)
Inductive usage_event : Type :=
| TokenUsage (session model token_type value : sqlval)
| CostUsage (session model value : sqlval)
| ActiveTime (session value : sqlval)
| CodeActivity (session activity_type value : sqlval).

(** The precedence of the classification, on the lower-cased name. *)
Definition classify (name : str) (session model token_type value : sqlval)
  : option usage_event :=
  let l := lower name in
  if contains "token" l then
    Some (TokenUsage session model token_type value)
  else if contains "cost" l then Some (CostUsage session model value)
  else if contains "active_time" l then Some (ActiveTime session value)
  else if contains "commit" l || contains "pull_request" l ||
          contains "lines_of_code" l then
    Some (CodeActivity session (SqlText (after_last_dot name)) value)
  else None.

(** The statement that persists an event at [timestamp]. *)
Definition stmt_of_event (timestamp : str) (e : usage_event) : stmt :=
  match e with
  | TokenUsage s m t v =>
      InsertToken {| t_session_id := s; t_timestamp := SqlText timestamp;
                     t_model := m; t_token_type := t; t_value := v |}
  | CostUsage s m v =>
      InsertCost {| c_session_id := s; c_timestamp := SqlText timestamp;
                    c_model := m; c_value := v |}
  | ActiveTime s v =>
      InsertActive {| a_session_id := s; a_timestamp := SqlText timestamp;
                      a_value := v |}
  | CodeActivity s a v =>
      InsertCode {| k_session_id := s; k_timestamp := SqlText timestamp;
                    k_activity_type := a; k_value := v |}
  end.

(** Attribute resolution: a key, then its alias, then ["unknown"]. *)
Definition get_or (fields : list (str * json)) (k : str) (default : json)
  : json :=
  match lookup fields k with
  | Some v => v
  | None => default
  end.

Definition resolve_session (attrs : list (str * json)) : json :=
  get_or attrs "session.id" (get_or attrs "session_id" (JStr "unknown")).

Definition resolve_user (attrs : list (str * json)) : json :=
  get_or attrs "user.id" (get_or attrs "user_id" (JStr "unknown")).

Definition resolve_model (attrs : list (str * json)) : json :=
  get_or attrs "model" (JStr "unknown").

Definition resolve_type (attrs : list (str * json)) : json :=
  get_or attrs "type" (JStr "unknown").

Definition resolve_value (fields : list (str * json)) : json :=
  get_or fields "value" (JInt 0).





(** The tokens a row contributes to the total of type [ty]. *)
Definition tokens_of (ty : str) (r : token_row) : Z :=
  match t_token_type r, t_value r with
  | SqlText s, SqlInt z => if str_eqb s ty then z else 0%Z
  | _, _ => 0%Z
  end.

Definition total (ty : str) (rows : list token_row) : Z :=
  fold_right (fun r acc => (tokens_of ty r + acc)%Z) 0%Z rows.

(** A row whose value is a non-negative integer. *)
Definition counted (r : token_row) : Prop :=
  exists z, t_value r = SqlInt z /\ (0 <= z)%Z.

(** Nothing of a run is visible before its last statement. *)
Definition invisible_until_end (tr : list stmt) (c : conn) : Prop :=
  forall k, k < List.length tr ->
            committed (run (firstn k tr) c) = committed c.

(** A run commits at most once, and then with its last statement. *)
Definition commits_only_at_end (tr : list stmt) : Prop :=
  exists body, ~ In Commit body /\ (tr = body \/ tr = body ++ [Commit]).

End Spec.

Import Spec.

(* ===================================================================== *)
(** * Sample inputs *)
(* ===================================================================== *)

Module Samples.

(** A line that mentions [descriptor:] before any marker. *)
Definition stray_descriptor_log : str := "descriptor: {a: 1}".

(** A marker inside the span of another marker. *)
Definition nested_marker_log : str :=
  "{ descriptor: {a: 1, b: { descriptor: 2 }}}".

(** Two complete blocks around a marker that never closes, with other
    braces in the surrounding text. *)
Definition mixed_log : str :=
  "noise {x} { descriptor: { name: 'a.token' }, dataPoints: [] } mid } { descriptor: { open { descriptor: { name: 'b.cost' } } tail".

(** The data point of the token-usage example: value 42, attributes
    [type] and [session.id]. *)
Definition token_point : json :=
  JObj [(of_string "attributes",
         JObj [(of_string "type", JStr "output");
               (of_string "session.id", JStr "s1")]);
        (of_string "value", JInt 42)].

Definition token_log : str :=
  "{ descriptor: { name: 'claude_code.token.usage' }, dataPoints: [ { attributes: { type: 'output', 'session.id': 's1' }, value: 42 } ] }".

(** The same example with [value] written among the attributes. *)
Definition token_log_value_attribute : str :=
  "{ descriptor: { name: 'claude_code.token.usage' }, dataPoints: [ { attributes: { type: 'output', value: 42, 'session.id': 's1' } } ] }".

(** The same example with the attribute key [session.id] left bare. *)
Definition token_log_bare_key : str :=
  "{ descriptor: { name: 'claude_code.token.usage' }, dataPoints: [ { attributes: { type: 'output', value: 42, session.id: 's1' } } ] }".

(** A log with two metric blocks. *)
Definition two_metric_log : str :=
  "{ descriptor: { name: 'claude_code.token.usage' }, dataPoints: [ { attributes: { type: 'output', 'session.id': 's1' }, value: 42 } ] } { descriptor: { name: 'claude_code.cost.usage' }, dataPoints: [ { attributes: { 'session.id': 's1' }, value: 7 } ] }".

(** Its two metrics, and the statements of the second one before its
    commit, at the time ["T0"]. *)
Definition token_metric : json :=
  JObj [(of_string "descriptor",
         JObj [(of_string "name", JStr "claude_code.token.usage")]);
        (of_string "dataPoints", JArr [token_point])].

Definition cost_metric : json :=
  JObj [(of_string "descriptor",
         JObj [(of_string "name", JStr "claude_code.cost.usage")]);
        (of_string "dataPoints",
         JArr [JObj [(of_string "attributes",
                      JObj [(of_string "session.id", JStr "s1")]);
                     (of_string "value", JInt 7)]])].

Definition cost_pending : list stmt :=
  [InsertRaw {| r_timestamp := SqlText "T0";
                r_metric_name := SqlText "claude_code.cost.usage";
                r_raw_json := cost_metric |};
   InsertOrIgnoreSession
     {| s_session_id := SqlText "s1"; s_user_id := SqlText "unknown";
        s_model := SqlText "unknown"; s_started_at := SqlText "T0";
        s_ended_at := SqlNull |};
   InsertCost {| c_session_id := SqlText "s1"; c_timestamp := SqlText "T0";
                 c_model := SqlText "unknown"; c_value := SqlInt 7 |}].



(** Token rows of a small store. *)
Definition token_row_of (ty : str) (z : Z) : token_row :=
  {| t_session_id := SqlText "s1"; t_timestamp := SqlText "T0";
     t_model := SqlText "m-1"; t_token_type := SqlText ty;
     t_value := SqlInt z |}.

Definition cache_rows : list token_row :=
  [token_row_of "input" 100; token_row_of "cacheRead" 300;
   token_row_of "output" 50; token_row_of "cacheCreation" 100;
   token_row_of "cacheRead" 200].

(** A store that already knows the session ["s1"]. *)
Definition known_session : session_row :=
  {| s_session_id := SqlText "s1"; s_user_id := SqlText "alice";
     s_model := SqlText "m-1"; s_started_at := SqlText "T0";
     s_ended_at := SqlNull |}.

Definition store_with_session : db :=
  {| sessions := [known_session]; token_usage := []; cost_usage := [];
     active_time := []; code_activity := []; raw_metrics := [];
     session_messages := [] |}.

(** A later metric for ["s1"], from another user and model. *)
Definition later_metric : json :=
  JObj [(of_string "descriptor",
         JObj [(of_string "name", JStr "claude_code.token.usage")]);
        (of_string "dataPoints",
         JArr [JObj [(of_string "attributes",
                      JObj [(of_string "session.id", JStr "s1");
                            (of_string "user.id", JStr "bob");
                            (of_string "model", JStr "m-2");
                            (of_string "type", JStr "input")]);
                     (of_string "value", JInt 5)]])].

End Samples.

Import Samples.

(* ===================================================================== *)
(** * What a run adds to the tables *)
(* ===================================================================== *)

Module Added.

(** The rows a statement appends to each table other than [sessions]. *)
Definition raw_of (st : stmt) : list raw_row :=
  match st with InsertRaw r => [r] | _ => [] end.

Definition token_of (st : stmt) : list token_row :=
  match st with InsertToken r => [r] | _ => [] end.

Definition cost_of (st : stmt) : list cost_row :=
  match st with InsertCost r => [r] | _ => [] end.

Definition active_of (st : stmt) : list active_row :=
  match st with InsertActive r => [r] | _ => [] end.

Definition code_of (st : stmt) : list code_row :=
  match st with InsertCode r => [r] | _ => [] end.

Definition message_of (st : stmt) : list message_row :=
  match st with InsertMessage r => [r] | _ => [] end.

(** The session a usage statement refers to. *)
Definition usage_session (st : stmt) : option sqlval :=
  match st with
  | InsertToken r => Some (t_session_id r)
  | InsertCost r => Some (c_session_id r)
  | InsertActive r => Some (a_session_id r)
  | InsertCode r => Some (k_session_id r)
  | _ => None
  end.

(** A statement of the transcript merger: a message row, or the commit. *)
Definition message_only (st : stmt) : bool :=
  match st with
  | InsertMessage _ => true
  | Commit => true
  | _ => false
  end.

(** A statement of the metric ingestion carries the timestamp [t]. *)
Definition stamped (t : str) (st : stmt) : Prop :=
  match st with
  | InsertRaw r => r_timestamp r = SqlText t
  | InsertOrIgnoreSession r => s_started_at r = SqlText t
  | InsertToken r => t_timestamp r = SqlText t
  | InsertCost r => c_timestamp r = SqlText t
  | InsertActive r => a_timestamp r = SqlText t
  | InsertCode r => k_timestamp r = SqlText t
  | InsertMessage _ => False
  | Commit => True
  end.

(** The session ids of the table, as the TEXT column holds them; NULL ids
    are left out. *)
Definition session_keys (d : db) : list str :=
  flat_map (fun r => match text_key (s_session_id r) with
                     | Some k => [k]
                     | None => []
                     end) (sessions d).

(** The UNIQUE constraint on [session_id] holds. *)
Definition unique_sessions (d : db) : Prop := NoDup (session_keys d).

(** Nothing is pending on the connection. *)
Definition settled (c : conn) : Prop := committed c = working c.

(** [before] is the beginning of [after]: rows were only appended. *)
Definition extends (A : Type) (before after : list A) : Prop :=
  exists added, after = before ++ added.

(** Every table of [after] begins with the table of [before]. *)
Definition grows (before after : db) : Prop :=
  extends (sessions before) (sessions after) /\
  extends (token_usage before) (token_usage after) /\
  extends (cost_usage before) (cost_usage after) /\
  extends (active_time before) (active_time after) /\
  extends (code_activity before) (code_activity after) /\
  extends (raw_metrics before) (raw_metrics after) /\
  extends (session_messages before) (session_messages after).

(** Every usage statement of the run comes after an [INSERT OR IGNORE]
    of the session it refers to. *)
Definition announced (tr : list stmt) : Prop :=
  forall (a : list stmt) (st : stmt) (b : list stmt) (sid : sqlval),
    tr = a ++ st :: b ->
    usage_session st = Some sid ->
    exists r, In (InsertOrIgnoreSession r) a /\ s_session_id r = sid.

End Added.

Import Added.

(* ===================================================================== *)
(** * scripts/parse_otel_metrics.py: the summary of [parse_log_file] *)
(* ===================================================================== *)

Module LogSummary.

Definition str_eq_dec : forall a b : str, {a = b} + {a <> b} :=
  list_eq_dec ascii_dec.

(** [SELECT COUNT(DISTINCT session_id) FROM sessions]: NULL is not
    counted. *)
Definition count_distinct_sessions (d : db) : nat :=
  List.length (nodup str_eq_dec (session_keys d)).

(** The three numbers [parse_log_file] prints. *)
Record summary : Type := {
  session_count : nat;
  token_count : nat;
  cost_count : nat }.

Definition log_summary (d : db) : summary :=
  {| session_count := count_distinct_sessions d;
     token_count := List.length (token_usage d);
     cost_count := List.length (cost_usage d) |}.

(** [parse_log_file(log_path, db_path)] with what it reads back: the
    content of the log, the store found at [db_path], and the summary
    computed on the connection before it is closed. *)
Definition parse_log_file_summary (loads : str -> outcome json)
           (content : str) (clock : nat -> str) (d : db) : outcome summary :=
  let call := parse_log_file loads content clock in
  match result call with
  | Return _ =>
      Return (log_summary (working (run (trace call) (connect d))))
  | Raise e => Raise e
  end.

End LogSummary.

Import LogSummary.

(* ===================================================================== *)
(** * scripts/parse_otel_metrics.py: what the cleaning leaves *)
(* ===================================================================== *)

Module Cleaned.

(** A colon stands directly after a word character somewhere in [s]: a
    key is still bare. *)
Fixpoint bare_key (s : str) : bool :=
  match s with
  | [] => false
  | c :: s' =>
      match s' with
      | d :: _ => (is_word c && Ascii.eqb d ":") || bare_key s'
      | [] => false
      end
  end.

End Cleaned.

Import Cleaned.

(* ===================================================================== *)
(** * scripts/combine_sources.py: the counter of [merge_data] *)
(* ===================================================================== *)

Module MergeCount.

(** [total_entries]: one is added after each INSERT of the run. *)
Definition total_entries (loads : str -> outcome json)
           (files : list session_file) : nat :=
  List.length (flat_map message_of (trace (merge_data loads files))).

(** The entries [parse_session_jsonl] returns for a file. *)
Definition entries_of (loads : str -> outcome json) (f : session_file)
  : list json :=
  match parse_session_jsonl loads (lines f) with
  | Return entries => entries
  | Raise _ => []
  end.

(** [merge_data(db_path)] run as a script: a connection of its own on the
    store found at [db_path]; what is not committed when the connection
    is closed is lost. *)
Definition merge_run (loads : str -> outcome json)
           (files : list session_file) (d : db) : db :=
  committed (run (trace (merge_data loads files)) (connect d)).

End MergeCount.

Import MergeCount.

(* ===================================================================== *)
(** * scripts/generate_local_report.py: the session column *)
(* ===================================================================== *)

Module MarkdownReport.

(** [session['session_id'][:8] + '...' if len(session['session_id']) > 12
    else session['session_id']] *)
Definition session_short (session_id : str) : str :=
  if (12 <? List.length session_id)%nat
  then firstn 8 session_id ++ of_string "..."
  else session_id.

End MarkdownReport.

Import MarkdownReport.

(* ===================================================================== *)
(** * More sample inputs *)
(* ===================================================================== *)

Module MoreSamples.

Definition plain_log : str :=
  "2026-01-01 12:00:00 exporter started {pid: 17} [ok]".

(** A metric whose second data point cannot be stored. *)
Definition broken_metric : json :=
  JObj [(of_string "descriptor",
         JObj [(of_string "name", JStr "claude_code.token.usage")]);
        (of_string "dataPoints",
         JArr [token_point;
               JObj [(of_string "attributes",
                      JObj [(of_string "session.id", JStr "s2")]);
                     (of_string "value", JArr [JInt 1])]])].

(** A transcript of two lines, and one whose second line is a list. *)
Definition good_transcript : session_file :=
  {| stem := "session-7";
     lines := [dq "{'role': 'user', 'content': 'hi'}";
               of_string "   ";
               dq "{'role': 'assistant', 'usage': {'input_tokens': 3}}"] |}.

Definition bad_transcript : session_file :=
  {| stem := "session-8";
     lines := [dq "{'role': 'user', 'content': 'hi'}";
               of_string "[1, 2]"] |}.

(** An integer literal of 4301 digits, one more than [int] converts;
    a block and a transcript line that hold it. *)
Definition long_integer : str := repeat "1"%char 4301.

Definition long_integer_block : str :=
  of_string "{ descriptor: { name: 'a.token' }, dataPoints: [ { value: "
  ++ long_integer ++ of_string " } ] }".


End MoreSamples.

Import MoreSamples.

(* ===================================================================== *)
(** * Properties *)
(* ===================================================================== *)

(* --------------------------------------------------------------------- *)
(** ** Text *)
(* --------------------------------------------------------------------- *)

Lemma str_eqb_refl (a : str) : str_eqb a a = true.
Proof.
  induction a as [|x a IH]; simpl; [reflexivity|].
  now rewrite Ascii.eqb_refl, IH.
Qed.

Lemma str_eqb_eq (a b : str) : str_eqb a b = true <-> a = b.
Proof.
  split; [|intros ->; apply str_eqb_refl].
  revert b; induction a as [|x a IH]; intros [|y b]; simpl; try congruence.
  intros H; apply andb_true_iff in H as [Hxy Hab].
  apply Ascii.eqb_eq in Hxy; subst; f_equal; now apply IH.
Qed.

Lemma take_drop_while (p : ascii -> bool) (s : str) :
  take_while p s ++ drop_while p s = s.
Proof.
  induction s as [|c s IH]; simpl; [reflexivity|].
  destruct (p c); simpl; [now rewrite IH | reflexivity].
Qed.

Lemma starts_with_app (p s : str) : starts_with p (p ++ s) = true.
Proof.
  induction p as [|x p IH]; simpl; [reflexivity|].
  now rewrite Ascii.eqb_refl, IH.
Qed.

Lemma starts_with_split (p s : str) :
  starts_with p s = true -> exists t, s = p ++ t.
Proof.
  revert s; induction p as [|x p IH]; intros s H; simpl in *.
  - now exists s.
  - destruct s as [|y s]; [discriminate|].
    apply andb_true_iff in H as [Hxy H]. apply Ascii.eqb_eq in Hxy; subst.
    destruct (IH _ H) as [t ->]. now exists t.
Qed.

Lemma drop_while_app_stop (p : ascii -> bool) (w : str) (c : ascii) (r : str) :
  forallb p w = true -> p c = false -> drop_while p (w ++ c :: r) = c :: r.
Proof.
  induction w as [|x w IH]; simpl; intros Hw Hc.
  - now rewrite Hc.
  - apply andb_true_iff in Hw as [Hx Hw]. rewrite Hx. now apply IH.
Qed.

Lemma take_while_app_stop (p : ascii -> bool) (w : str) (c : ascii) (r : str) :
  forallb p w = true -> p c = false -> take_while p (w ++ c :: r) = w.
Proof.
  induction w as [|x w IH]; simpl; intros Hw Hc.
  - now rewrite Hc.
  - apply andb_true_iff in Hw as [Hx Hw]. rewrite Hx. f_equal. now apply IH.
Qed.

Lemma take_while_all (p : ascii -> bool) (s : str) :
  forallb p (take_while p s) = true.
Proof.
  induction s as [|c s IH]; simpl; [reflexivity|].
  destruct (p c) eqn:E; simpl; [now rewrite E | reflexivity].
Qed.

(* --------------------------------------------------------------------- *)
(** ** The matcher on the three patterns *)
(* --------------------------------------------------------------------- *)

(** Greedy repetition needs no backtracking when what follows cannot start
    with a character of the class. *)
Lemma many_greedy (R : Type) (p : ascii -> bool) (k : str -> option R) :
  (forall c t, p c = true -> k (c :: t) = None) ->
  forall s, many p s k = k (drop_while p s).
Proof.
  intros Hk s; induction s as [|c s IH]; simpl; [reflexivity|].
  destruct (p c) eqn:E; [|reflexivity].
  rewrite IH. destruct (k (drop_while p s)) eqn:K; [reflexivity|].
  now apply Hk.
Qed.

Lemma rmatch_lit (R : Type) (w s : str) (g : option str)
      (k : str -> option str -> option R) :
  rmatch (lit w) s g k =
  if starts_with w s then k (skipn (List.length w) s) g else None.
Proof.
  revert s; induction w as [|x w IH]; intros s; simpl; [reflexivity|].
  destruct s as [|y s]; [reflexivity|].
  rewrite (Ascii.eqb_sym x y).
  destruct (Ascii.eqb y x); simpl; [apply IH | reflexivity].
Qed.

Lemma space_not_d (c : ascii) : is_space c = true -> Ascii.eqb c "d" = false.
Proof.
  intros H. destruct (Ascii.eqb_spec c "d") as [->|]; [discriminate | reflexivity].
Qed.

Lemma match_at_marker (s : str) :
  match_at marker_pattern s = if marker_at s then Some (0, None) else None.
Proof.
  unfold match_at, marker_pattern, marker_at.
  destruct s as [|c r]; [reflexivity|].
  cbn [rmatch].
  destruct (Ascii.eqb c "{") eqn:E; [|reflexivity].
  rewrite many_greedy.
  - rewrite rmatch_lit. rewrite andb_true_l.
    destruct (starts_with "descriptor:" (drop_while is_space r)); [|reflexivity].
    now rewrite Nat.sub_diag.
  - intros x t Hx. rewrite rmatch_lit. cbn [of_string list_ascii_of_string starts_with].
    rewrite (Ascii.eqb_sym _ x), (space_not_d _ Hx). reflexivity.
Qed.

Lemma forallb_rev (A : Type) (p : A -> bool) (l : list A) :
  forallb p (rev l) = forallb p l.
Proof.
  induction l as [|x l IH]; simpl; [reflexivity|].
  rewrite forallb_app, IH. simpl. rewrite andb_true_r. apply andb_comm.
Qed.

Lemma forallb_imp (A : Type) (p q : A -> bool) (l : list A) :
  (forall x, p x = true -> q x = true) ->
  forallb p l = true -> forallb q l = true.
Proof.
  intros Hpq. induction l as [|x l IH]; simpl; [reflexivity|].
  intros H. apply andb_true_iff in H as [Hx Hl].
  now rewrite (Hpq _ Hx), IH.
Qed.

Lemma word_not_colon (c : ascii) : is_word c = true -> Ascii.eqb c ":" = false.
Proof.
  intros H. destruct (Ascii.eqb_spec c ":") as [->|]; [discriminate | reflexivity].
Qed.

Lemma firstn_app_length (A : Type) (a b : list A) :
  firstn (List.length a) (a ++ b) = a.
Proof. induction a as [|x a IH]; simpl; [reflexivity | now rewrite IH]. Qed.

(** [(\w+):] does not match at a character that is not a word character. *)
Lemma key_no_match_head (c : ascii) (s : str) :
  is_word c = false -> match_at key_pattern (c :: s) = None.
Proof.
  intros H. unfold match_at, key_pattern. cbn [rmatch]. now rewrite H.
Qed.

(** A greedy run followed by something that cannot start with a word
    character: the whole run is taken. *)
Lemma many_run (R : Type) (k : str -> option R) (w r : str) :
  (forall c t, is_word c = true -> k (c :: t) = None) ->
  forallb is_word w = true ->
  match r with [] => True | c :: _ => is_word c = false end ->
  many is_word (w ++ r) k = k r.
Proof.
  intros Hk Hw Hr. rewrite many_greedy by exact Hk.
  destruct r as [|c r']; [|now rewrite drop_while_app_stop].
  rewrite app_nil_r.
  assert (E : drop_while is_word w = []).
  { clear - Hw. induction w as [|x w IH]; simpl in *; [reflexivity|].
    apply andb_true_iff in Hw as [-> Hw]. now apply IH. }
  now rewrite E.
Qed.

(** A run of word characters followed by a colon is matched whole. *)
Lemma key_match_run (x : ascii) (w t : str) :
  forallb is_word (x :: w) = true ->
  match_at key_pattern ((x :: w) ++ ":"%char :: t)
  = Some (S (S (List.length w)), Some (x :: w)).
Proof.
  intros Hw. pose proof Hw as Hw'. simpl in Hw'.
  apply andb_true_iff in Hw' as [Hx Hw'].
  unfold match_at, key_pattern. cbn [rmatch app]. rewrite Hx.
  rewrite many_run; [|intros c u Hc; now rewrite (word_not_colon _ Hc)
                     |assumption|reflexivity].
  rewrite Ascii.eqb_refl. f_equal. f_equal.
  - cbn [List.length]. rewrite length_app. cbn [List.length]. lia.
  - f_equal. cbn [List.length]. rewrite length_app. cbn [List.length].
    replace (S (List.length w + S (List.length t)) - S (List.length t))
      with (List.length (x :: w)) by (cbn [List.length]; lia).
    change (x :: w ++ ":"%char :: t) with ((x :: w) ++ ":"%char :: t).
    apply firstn_app_length.
Qed.

(** A run of word characters not followed by a colon is not matched. *)
Lemma key_no_match_run (x : ascii) (w r : str) :
  forallb is_word (x :: w) = true ->
  match r with
  | [] => True
  | c :: _ => is_word c = false /\ Ascii.eqb c ":" = false
  end ->
  match_at key_pattern ((x :: w) ++ r) = None.
Proof.
  intros Hw Hr. pose proof Hw as Hw'. simpl in Hw'.
  apply andb_true_iff in Hw' as [Hx Hw'].
  unfold match_at, key_pattern. cbn [rmatch app]. rewrite Hx.
  rewrite many_run; [|intros c u Hc; now rewrite (word_not_colon _ Hc)
                     |assumption|].
  - destruct r as [|c r']; [reflexivity|].
    destruct Hr as [_ ->]. reflexivity.
  - destruct r; [exact I | apply Hr].
Qed.

(** Passing over the rest of a match. *)
Lemma sub_from_skip (r : regex) (tpl : list titem) (a b : str) :
  sub_from r tpl (a ++ b) (List.length a) = sub_from r tpl b 0.
Proof.
  induction a as [|x a IH]; [reflexivity|]. cbn [app List.length sub_from].
  exact IH.
Qed.

Lemma expand_key (w : str) :
  expand key_template (Some w) = dquote :: w ++ [dquote; ":"%char].
Proof. reflexivity. Qed.

Lemma sub_key_run_colon (x : ascii) (w t : str) :
  forallb is_word (x :: w) = true ->
  re_sub key_pattern key_template ((x :: w) ++ ":"%char :: t)
  = dquote :: (x :: w) ++ dquote :: ":"%char ::
    re_sub key_pattern key_template t.
Proof.
  intros Hw. unfold re_sub.
  change (sub_from key_pattern key_template ((x :: w) ++ ":"%char :: t) 0)
    with (match match_at key_pattern ((x :: w) ++ ":"%char :: t) with
          | Some (0, g) => expand key_template g ++
                           x :: sub_from key_pattern key_template (w ++ ":"%char :: t) 0
          | Some (S n, g) => expand key_template g ++
                             sub_from key_pattern key_template (w ++ ":"%char :: t) n
          | None => x :: sub_from key_pattern key_template (w ++ ":"%char :: t) 0
          end).
  rewrite key_match_run by exact Hw. rewrite expand_key.
  replace (w ++ ":"%char :: t) with ((w ++ [":"%char]) ++ t)
    by (now rewrite <- app_assoc).
  replace (S (List.length w)) with (List.length (w ++ [":"%char]))
    by (rewrite length_app; simpl; lia).
  rewrite sub_from_skip. cbn [app]. f_equal. f_equal.
  now rewrite <- app_assoc.
Qed.

Lemma sub_key_run_other (w r : str) :
  forallb is_word w = true ->
  match r with
  | [] => True
  | c :: _ => is_word c = false /\ Ascii.eqb c ":" = false
  end ->
  re_sub key_pattern key_template (w ++ r)
  = w ++ re_sub key_pattern key_template r.
Proof.
  intros Hw Hr. induction w as [|x w IH]; [reflexivity|].
  unfold re_sub in *.
  change (sub_from key_pattern key_template ((x :: w) ++ r) 0)
    with (match match_at key_pattern ((x :: w) ++ r) with
          | Some (0, g) => expand key_template g ++
                           x :: sub_from key_pattern key_template (w ++ r) 0
          | Some (S n, g) => expand key_template g ++
                             sub_from key_pattern key_template (w ++ r) n
          | None => x :: sub_from key_pattern key_template (w ++ r) 0
          end).
  rewrite key_no_match_run by assumption. cbn [app]. f_equal.
  apply IH. simpl in Hw. now apply andb_true_iff in Hw as [_ Hw].
Qed.

Lemma sub_key_other (c : ascii) (s : str) :
  is_word c = false ->
  re_sub key_pattern key_template (c :: s)
  = c :: re_sub key_pattern key_template s.
Proof.
  intros Hc. unfold re_sub. cbn [sub_from].
  now rewrite key_no_match_head by exact Hc.
Qed.

(** Step (b) of the lenient parser, as the regular expression performs it,
    is the quoting of barewords of the specification. *)
Lemma sub_key_from (s word : str) :
  forallb is_word word = true ->
  re_sub key_pattern key_template (rev word ++ s)
  = quote_barewords_from word s.
Proof.
  revert word; induction s as [|c s IH]; intros word Hw.
  - rewrite app_nil_r. simpl.
    rewrite <- (app_nil_r (rev word)) at 1.
    rewrite sub_key_run_other; [now rewrite app_nil_r| |exact I].
    now rewrite forallb_rev.
  - cbn [quote_barewords_from]. destruct (is_word c) eqn:Hc.
    + rewrite <- (IH (c :: word)); [|simpl; now rewrite Hc, Hw].
      simpl. now rewrite <- app_assoc.
    + destruct (Ascii.eqb c ":" && nonempty word) eqn:E.
      * apply andb_true_iff in E as [Ec Hn]. apply Ascii.eqb_eq in Ec. subst c.
        destruct (rev word) as [|x w] eqn:Er.
        { destruct word; [discriminate|]. simpl in Er.
          now destruct (rev word). }
        rewrite sub_key_run_colon.
        -- rewrite <- (IH []); [|reflexivity]. reflexivity.
        -- rewrite <- Er. now rewrite forallb_rev.
      * destruct word as [|y word].
        { cbn [rev app]. rewrite sub_key_other by assumption.
          rewrite <- (IH []); [|reflexivity]. reflexivity. }
        rewrite andb_true_r in E.
        rewrite sub_key_run_other.
        -- rewrite sub_key_other by assumption.
           rewrite <- (IH []); [|reflexivity]. reflexivity.
        -- now rewrite forallb_rev.
        -- now split.
Qed.

Lemma space_not_close (c : ascii) : is_space c = true -> is_close c = false.
Proof.
  intros H. unfold is_close.
  destruct (Ascii.eqb_spec c "}") as [->|]; [discriminate|].
  destruct (Ascii.eqb_spec c "]") as [->|]; [discriminate|reflexivity].
Qed.

Lemma space_not_comma (c : ascii) : is_space c = true -> Ascii.eqb c "," = false.
Proof.
  intros H. destruct (Ascii.eqb_spec c ",") as [->|]; [discriminate | reflexivity].
Qed.

Lemma close_not_comma (c : ascii) : is_close c = true -> Ascii.eqb c "," = false.
Proof.
  intros H. destruct (Ascii.eqb_spec c ",") as [->|]; [discriminate | reflexivity].
Qed.

(** [,(\s*[}\]])] at a character that is not a comma. *)
Lemma comma_no_match_head (c : ascii) (s : str) :
  Ascii.eqb c "," = false -> match_at comma_pattern (c :: s) = None.
Proof.
  intros H. unfold match_at, comma_pattern. cbn [rmatch]. now rewrite H.
Qed.

(** At a comma, the pattern matches exactly when white space and a closing
    brace or bracket follow, and it takes all of them. *)
Lemma comma_match (s : str) :
  match_at comma_pattern (","%char :: s) =
  match drop_while is_space s with
  | c :: _ =>
      if is_close c
      then Some (S (S (List.length (take_while is_space s))),
                 Some (take_while is_space s ++ [c]))
      else None
  | [] => None
  end.
Proof.
  unfold match_at, comma_pattern. cbn [rmatch]. rewrite Ascii.eqb_refl.
  rewrite many_greedy.
  2:{ intros c t Hc. now rewrite (space_not_close _ Hc). }
  pose proof (take_drop_while is_space s) as Hs.
  destruct (drop_while is_space s) as [|c t]; [reflexivity|].
  destruct (is_close c); [|reflexivity].
  revert Hs. generalize (take_while is_space s). intros w <-.
  f_equal. f_equal.
  - cbn [List.length]. rewrite length_app. cbn [List.length]. lia.
  - f_equal. rewrite length_app. cbn [List.length].
    replace (List.length w + S (List.length t) - List.length t)
      with (List.length (w ++ [c])) by (rewrite length_app; simpl; lia).
    replace (w ++ c :: t) with ((w ++ [c]) ++ t) by (now rewrite <- app_assoc).
    apply firstn_app_length.
Qed.

(** Characters that are not commas pass through step (c). *)
Lemma drop_trailing_commas_pass (a b : str) :
  forallb (fun c => negb (Ascii.eqb c ",")) a = true ->
  drop_trailing_commas (a ++ b) = a ++ drop_trailing_commas b.
Proof.
  induction a as [|x a IH]; intros Ha; [reflexivity|].
  simpl in Ha. apply andb_true_iff in Ha as [Hx Ha].
  cbn [app drop_trailing_commas].
  apply negb_true_iff in Hx. rewrite Hx. cbn [andb]. f_equal. now apply IH.
Qed.

(** Step (c) of the lenient parser, as the regular expression performs it,
    is the removal of trailing commas of the specification. *)
Lemma sub_comma_bounded (n : nat) (s : str) :
  List.length s <= n ->
  re_sub comma_pattern comma_template s = drop_trailing_commas s.
Proof.
  revert s; induction n as [|n IH]; intros s Hn.
  - destruct s; [reflexivity | simpl in Hn; lia].
  - destruct s as [|c s]; [reflexivity|].
    simpl in Hn. unfold re_sub in *. cbn [sub_from drop_trailing_commas].
    destruct (Ascii.eqb c ",") eqn:Ec.
    + apply Ascii.eqb_eq in Ec; subst c. rewrite comma_match.
      unfold closes_after_space. cbn [andb].
      pose proof (take_drop_while is_space s) as Hs.
      pose proof (take_while_all is_space s) as Hw.
      destruct (drop_while is_space s) as [|c t] eqn:Ed.
      * f_equal. apply IH. lia.
      * destruct (is_close c) eqn:Hc; [|f_equal; apply IH; lia].
        set (w := take_while is_space s) in *.
        rewrite <- Hs.
        replace (w ++ c :: t) with ((w ++ [c]) ++ t)
          by (now rewrite <- app_assoc).
        replace (S (List.length w)) with (List.length (w ++ [c]))
          by (rewrite length_app; simpl; lia).
        rewrite sub_from_skip.
        rewrite drop_trailing_commas_pass.
        -- unfold expand, comma_template. cbn [flat_map].
           rewrite app_nil_r. f_equal. apply IH.
           rewrite <- Hs, length_app in Hn. simpl in Hn. lia.
        -- rewrite forallb_app. apply andb_true_iff. split.
           ++ clear - Hw. induction w as [|x w IHw]; [reflexivity|].
              simpl in *. apply andb_true_iff in Hw as [Hx Hw].
              now rewrite (space_not_comma _ Hx), IHw.
           ++ simpl. now rewrite (close_not_comma _ Hc).
    + rewrite comma_no_match_head by assumption. cbn [andb].
      f_equal. apply IH. lia.
Qed.

(* --------------------------------------------------------------------- *)
(** ** The lenient object parser *)
(* --------------------------------------------------------------------- *)

Lemma clean_steps (block : str) :
  clean block
  = drop_trailing_commas
      (quote_barewords
         (map (fun c => if Ascii.eqb c "'" then dquote else c) block)).
Proof.
  unfold clean, quote_barewords.
  rewrite <- (sub_key_from _ []) by reflexivity. cbn [rev app].
  now rewrite (sub_comma_bounded (n := List.length
    (re_sub key_pattern key_template (replace_char "'" dquote block)))).
Qed.

(** C3, as the code has it.  The lenient object parser replaces single
    quotes by double quotes, then quotes every bareword that a colon
    follows at once, then removes every comma followed only by white space
    and a closing brace or bracket, and parses the result strictly; a text
    the strict parser rejects with [JSONDecodeError] gives the
    not-parseable result [None]; any other exception of the strict parser
    reaches the caller; and [{name: 'foo', count: 3,}] parses to the
    record with [name] = ["foo"] and [count] = [3]. *)
Theorem lenient_parser_contract (loads : str -> outcome json) (block : str) :
  parse_metric_block loads block
  = match loads (drop_trailing_commas
                   (quote_barewords
                      (map (fun c => if Ascii.eqb c "'" then dquote else c)
                           block))) with
    | Return v => Return (Some v)
    | Raise JSONDecodeError => Return None
    | Raise e => Raise e
    end
  /\ parse_metric_block JsonRef.loads (of_string "{name: 'foo', count: 3,}")
     = Return (Some (JObj [(of_string "name", JStr "foo");
                           (of_string "count", JInt 3)])).
Proof.
  split.
  - unfold parse_metric_block. now rewrite clean_steps.
  - vm_compute. reflexivity.
Qed.

(** C3 as the specification words it fails: a span that holds an integer
    of 4301 digits does not parse, and the exception, a [ValueError] that
    is no [JSONDecodeError], leaves [parse_metric_block] instead of the
    not-parseable result. *)
Lemma lenient_parser_counterexample :
  JsonRef.loads (clean long_integer_block) = Raise ValueError /\
  parse_metric_block JsonRef.loads long_integer_block = Raise ValueError /\
  parse_metric_block JsonRef.loads long_integer_block <> Return None.
Proof.
  unfold parse_metric_block. rewrite clean_steps.
  assert (H : JsonRef.loads
                (drop_trailing_commas
                   (quote_barewords
                      (map (fun c => if Ascii.eqb c "'" then dquote else c)
                           long_integer_block)))
              = Raise ValueError) by (vm_compute; reflexivity).
  rewrite H. repeat split. discriminate.
Qed.

(* --------------------------------------------------------------------- *)
(** ** The block extractor *)
(* --------------------------------------------------------------------- *)

(** [re.split] on the marker pattern cuts the text before every marker. *)
Lemma split_from_marker (s cur : str) :
  split_from marker_pattern s 0 cur
  = (rev cur ++ before_first_marker s) :: marker_pieces s.
Proof.
  revert cur; induction s as [|c s IH]; intros cur.
  - cbn [split_from before_first_marker marker_pieces].
    rewrite match_at_marker. cbn [marker_at]. now rewrite app_nil_r.
  - cbn [split_from before_first_marker marker_pieces].
    rewrite match_at_marker.
    destruct (marker_at (c :: s)) eqn:M.
    + rewrite IH. rewrite app_nil_r. reflexivity.
    + rewrite IH. cbn [rev app]. now rewrite <- app_assoc.
Qed.

Lemma re_split_marker (s : str) :
  re_split marker_pattern s = before_first_marker s :: marker_pieces s.
Proof. unfold re_split. now rewrite split_from_marker. Qed.

Lemma before_first_marker_pass (a b : str) :
  forallb (fun c => negb (Ascii.eqb c "{")) a = true ->
  before_first_marker (a ++ b) = a ++ before_first_marker b.
Proof.
  induction a as [|x a IH]; intros Ha; [reflexivity|].
  simpl in Ha. apply andb_true_iff in Ha as [Hx Ha].
  cbn [app before_first_marker marker_at].
  apply negb_true_iff in Hx. rewrite Hx. cbn [andb]. f_equal. now apply IH.
Qed.

Lemma before_first_marker_prefix (s : str) :
  exists q, s = before_first_marker s ++ q.
Proof.
  induction s as [|c s [q IH]].
  - now exists [].
  - cbn [before_first_marker]. destruct (marker_at (c :: s)).
    + now exists (c :: s).
    + exists q. cbn [app]. now rewrite <- IH.
Qed.

Lemma contains_app_l (n a b : str) :
  contains n b = true -> contains n (a ++ b) = true.
Proof.
  intros H; induction a as [|x a IH]; [exact H|].
  cbn [app contains]. rewrite IH. apply orb_true_r.
Qed.

Lemma contains_here (n b : str) : contains n (n ++ b) = true.
Proof.
  destruct n as [|x n].
  - destruct b; reflexivity.
  - cbn [app contains]. change (x :: n ++ b) with ((x :: n) ++ b).
    now rewrite starts_with_app.
Qed.

Lemma space_not_brace (c : ascii) :
  is_space c = true -> negb (Ascii.eqb c "{") = true.
Proof.
  intros H. destruct (Ascii.eqb_spec c "{") as [->|]; [discriminate | reflexivity].
Qed.

(** The block of a marker contains [descriptor:]. *)
Lemma piece_has_descriptor (s : str) :
  marker_at s = true -> contains "descriptor:" (piece_at s) = true.
Proof.
  destruct s as [|c r]; [discriminate|]. cbn [marker_at piece_at].
  intros H. apply andb_true_iff in H as [_ H].
  apply starts_with_split in H as [t Ht].
  pose proof (take_drop_while is_space r) as Hr. rewrite Ht in Hr.
  rewrite <- Hr.
  rewrite before_first_marker_pass.
  2:{ apply (@forallb_imp _ is_space); [exact space_not_brace|].
      apply take_while_all. }
  rewrite before_first_marker_pass by reflexivity.
  change (c :: take_while is_space r ++
          of_string "descriptor:" ++ before_first_marker t)
    with ((c :: take_while is_space r) ++
          of_string "descriptor:" ++ before_first_marker t).
  apply contains_app_l, contains_here.
Qed.

(** The depth counter of the loop is the brace count of the specification. *)
Lemma scan_braces_close (s : str) :
  forall d i, 1 <= d ->
  scan_braces s (Z.of_nat d) i = option_map (fun n => i + n) (close_after d s).
Proof.
  induction s as [|c s IH]; intros d i Hd; [reflexivity|].
  cbn [scan_braces close_after].
  destruct (Ascii.eqb c "{").
  - replace (Z.of_nat d + 1)%Z with (Z.of_nat (S d)) by lia.
    rewrite IH by lia. destruct (close_after (S d) s); simpl; [f_equal; lia | reflexivity].
  - destruct (Ascii.eqb c "}").
    + destruct d as [|[|d]]; [lia| |].
      * simpl. reflexivity.
      * replace (Z.of_nat (S (S d)) - 1)%Z with (Z.of_nat (S d)) by lia.
        replace (Z.of_nat (S d) =? 0)%Z with false by (symmetry; apply Z.eqb_neq; lia).
        rewrite IH by lia.
        destruct (close_after (S d) s); simpl; [f_equal; lia | reflexivity].
    + rewrite IH by lia.
      destruct (close_after d s); simpl; [f_equal; lia | reflexivity].
Qed.

Lemma scan_braces_matching (c : ascii) (s : str) :
  Ascii.eqb c "{" = true ->
  scan_braces (c :: s) 0 0 = matching_close (c :: s).
Proof.
  intros Hc. cbn [scan_braces matching_close]. rewrite Hc.
  change (0 + 1)%Z with (Z.of_nat 1). rewrite scan_braces_close by lia.
  destruct (close_after 1 s); reflexivity.
Qed.

(** What [extract_metrics_from_log] hands to the parser for the block of
    a marker. *)
Lemma metric_str_piece (s : str) :
  marker_at s = true ->
  metric_str (piece_at s)
  = Some (firstn (match matching_close (piece_at s) with
                  | Some n => n
                  | None => 0
                  end) (piece_at s)).
Proof.
  intros M. unfold metric_str. rewrite (piece_has_descriptor _ M).
  destruct s as [|c r]; [discriminate|].
  cbn [marker_at] in M. apply andb_true_iff in M as [Hc _].
  cbn [piece_at find_char]. rewrite Hc. cbn [skipn].
  rewrite scan_braces_matching by exact Hc.
  unfold slice. cbn [skipn]. now rewrite Nat.sub_0_r.
Qed.

Lemma close_after_firstn (t : str) :
  forall d m t', close_after d t = Some m ->
                 firstn m t' = firstn m t ->
                 close_after d t' = Some m.
Proof.
  induction t as [|x t IH]; intros d m t' H Hf; [discriminate|].
  cbn [close_after] in H.
  assert (Hstep : forall d', option_map S (close_after d' t) = Some m ->
                  exists m1 t1, m = S m1 /\ t' = x :: t1 /\
                                close_after d' t = Some m1 /\
                                firstn m1 t1 = firstn m1 t).
  { intros d' H'. destruct (close_after d' t) as [m1|] eqn:E; [|discriminate].
    injection H' as <-. cbn [firstn] in Hf.
    destruct t' as [|y t1]; [discriminate|]. injection Hf as -> Hf.
    now exists m1, t1. }
  destruct (Ascii.eqb x "{") eqn:Ex.
  - destruct (Hstep _ H) as (m1 & t1 & -> & -> & E & Hf1).
    cbn [close_after]. rewrite Ex. now rewrite (IH _ _ _ E Hf1).
  - destruct (Ascii.eqb x "}") eqn:Ey.
    + destruct d as [|[|d]].
      * injection H as <-. cbn [firstn] in Hf.
        destruct t' as [|y t1]; [discriminate|]. injection Hf as ->.
        cbn [close_after]. now rewrite Ex, Ey.
      * injection H as <-. cbn [firstn] in Hf.
        destruct t' as [|y t1]; [discriminate|]. injection Hf as ->.
        cbn [close_after]. now rewrite Ex, Ey.
      * destruct (Hstep _ H) as (m1 & t1 & -> & -> & E & Hf1).
        cbn [close_after]. rewrite Ex, Ey. now rewrite (IH _ _ _ E Hf1).
    + destruct (Hstep _ H) as (m1 & t1 & -> & -> & E & Hf1).
      cbn [close_after]. rewrite Ex, Ey. now rewrite (IH _ _ _ E Hf1).
Qed.

Lemma close_after_prefix_none (p q : str) :
  forall d, close_after d (p ++ q) = None -> close_after d p = None.
Proof.
  induction p as [|x p IH]; intros d H; [reflexivity|].
  cbn [app close_after] in *.
  destruct (Ascii.eqb x "{").
  - destruct (close_after (S d) (p ++ q)) eqn:E; [discriminate|].
    now rewrite (IH _ E).
  - destruct (Ascii.eqb x "}").
    + destruct d as [|[|d]]; try discriminate.
      destruct (close_after (S d) (p ++ q)) eqn:E; [discriminate|].
      now rewrite (IH _ E).
    + destruct (close_after d (p ++ q)) eqn:E; [discriminate|].
      now rewrite (IH _ E).
Qed.

Lemma marker_free_firstn (k : nat) :
  forall s, marker_free k s = true ->
            firstn k (before_first_marker s) = firstn k s.
Proof.
  induction k as [|k IH]; intros s H; [reflexivity|].
  destruct s as [|c s]; [reflexivity|].
  cbn [marker_free] in H. apply andb_true_iff in H as [M H].
  apply negb_true_iff in M. cbn [before_first_marker]. rewrite M.
  cbn [firstn]. f_equal. now apply IH.
Qed.

(** One marker: its block yields its span, when no other marker lies
    inside the span, and nothing when its braces never balance. *)
Lemma span_of_piece (s : str) :
  marker_at s = true ->
  match matching_close s with
  | Some n => marker_free (n - 1) (tl s) = true
  | None => True
  end ->
  filter nonempty (candidate_of (piece_at s)) = span_at s.
Proof.
  intros M Hsep. unfold candidate_of, span_at.
  rewrite (metric_str_piece _ M), M.
  destruct s as [|c s]; [discriminate|].
  pose proof M as Hc. cbn [marker_at] in Hc.
  apply andb_true_iff in Hc as [Hc _].
  cbn [piece_at matching_close tl] in *. rewrite Hc in *.
  destruct (close_after 1 s) as [m|] eqn:E; cbn [option_map] in *.
  - rewrite Nat.sub_succ, Nat.sub_0_r in Hsep.
    pose proof (marker_free_firstn _ _ Hsep) as Hf.
    rewrite (close_after_firstn _ _ _ E Hf). cbn [option_map firstn filter nonempty].
    now rewrite Hf.
  - destruct (before_first_marker_prefix s) as [q Hq].
    rewrite Hq in E. rewrite (close_after_prefix_none _ _ _ E).
    reflexivity.
Qed.

Lemma spans_of_pieces (s : str) :
  separated s = true ->
  filter nonempty (flat_map candidate_of (marker_pieces s)) = marker_spans s.
Proof.
  induction s as [|c s IH]; intros H; [reflexivity|].
  cbn [separated] in H. apply andb_true_iff in H as [H1 H2].
  cbn [marker_pieces marker_spans].
  rewrite flat_map_app, filter_app, (IH H2). f_equal.
  destruct (marker_at (c :: s)) eqn:M.
  - cbn [flat_map]. rewrite app_nil_r. apply span_of_piece; [exact M|].
    cbn [tl]. destruct (matching_close (c :: s)); [exact H1 | exact I].
  - unfold span_at. now rewrite M.
Qed.

Lemma candidates_split (log : str) :
  candidates log
  = candidate_of (before_first_marker log)
    ++ flat_map candidate_of (marker_pieces log).
Proof. unfold candidates. now rewrite re_split_marker. Qed.

Lemma extract_from_blocks_parse_all (loads : str -> outcome json)
      (blocks : list str) :
  extract_from_blocks loads blocks
  = parse_all loads (flat_map candidate_of blocks).
Proof.
  induction blocks as [|b bs IH]; [reflexivity|].
  cbn [extract_from_blocks flat_map]. unfold candidate_of at 1.
  destruct (metric_str b) as [text|]; [|exact IH].
  cbn [app parse_all]. now rewrite IH.
Qed.

Lemma parse_all_nonempty (loads : str -> outcome json) (texts : list str) :
  loads [] = Raise JSONDecodeError ->
  parse_all loads (filter nonempty texts) = parse_all loads texts.
Proof.
  intros H0. induction texts as [|t ts IH]; [reflexivity|].
  cbn [filter]. destruct t as [|x t]; cbn [nonempty].
  - cbn [parse_all]. unfold parse_metric_block.
    change (clean []) with (@nil ascii). rewrite H0. cbn [obind].
    rewrite IH. now destruct (parse_all loads ts).
  - cbn [parse_all]. now rewrite IH.
Qed.

Lemma find_char_none (c : ascii) (s : str) :
  existsb (fun x => Ascii.eqb x c) s = false -> find_char c s = None.
Proof.
  induction s as [|x s IH]; [reflexivity|]. cbn [existsb find_char].
  intros H. apply orb_false_iff in H as [-> H]. now rewrite (IH H).
Qed.

Lemma stray_free_candidate (log : str) :
  stray_free log = true -> candidate_of (before_first_marker log) = [].
Proof.
  unfold stray_free, candidate_of, metric_str. intros H.
  apply negb_true_iff, andb_false_iff in H as [-> | H]; [reflexivity|].
  destruct (contains "descriptor:" (before_first_marker log)); [|reflexivity].
  now rewrite (find_char_none _ _ H).
Qed.

(** C2, as the code has it.  When nothing before the first marker can be
    taken for a block (no [descriptor:] there, or no opening brace) and no
    marker lies inside the span of another one, the extractor isolates
    exactly, and in order, the spans that start at a descriptor-bearing
    opening brace and end at its matching closing brace, whatever other
    braces the text holds; a marker whose braces never balance yields no
    span, and the markers after it are still extracted.  The metrics
    returned are the parses of these spans. *)
Theorem block_extractor_spans (loads : str -> outcome json) (log : str) :
  stray_free log = true ->
  separated log = true ->
  loads [] = Raise JSONDecodeError ->
  spans log = marker_spans log /\
  extract_metrics_from_log loads log = parse_all loads (marker_spans log).
Proof.
  intros H1 H2 H0.
  assert (E : spans log = marker_spans log).
  { unfold spans. rewrite candidates_split, (stray_free_candidate _ H1).
    cbn [app]. now apply spans_of_pieces. }
  split; [exact E|].
  unfold extract_metrics_from_log. rewrite extract_from_blocks_parse_all.
  fold (candidates log). rewrite <- E. unfold spans.
  now rewrite parse_all_nonempty.
Qed.

Lemma block_extractor_spans_witness :
  stray_free mixed_log = true /\
  separated mixed_log = true /\
  spans mixed_log
  = [of_string "{ descriptor: { name: 'a.token' }, dataPoints: [] }";
     of_string "{ descriptor: { name: 'b.cost' } }"] /\
  spans mixed_log = marker_spans mixed_log /\
  extract_metrics_from_log JsonRef.loads mixed_log
  = parse_all JsonRef.loads (marker_spans mixed_log).
Proof.
  split; [vm_compute; reflexivity|].
  split; [vm_compute; reflexivity|].
  split; [vm_compute; reflexivity|].
  apply (@block_extractor_spans JsonRef.loads mixed_log);
    vm_compute; reflexivity.
Defined.

(** C2 as stated fails.  A text with no marker at all, but with
    [descriptor:] before a brace, yields a span, and even a metric; and a
    marker inside the span of another marker cuts the outer span away. *)
Lemma block_extractor_counterexample :
  spans stray_descriptor_log <> marker_spans stray_descriptor_log /\
  marker_spans stray_descriptor_log = [] /\
  spans stray_descriptor_log = [of_string "{a: 1}"] /\
  extract_metrics_from_log JsonRef.loads stray_descriptor_log
  = Return [JObj [(of_string "a", JInt 1)]] /\
  spans nested_marker_log <> marker_spans nested_marker_log /\
  marker_spans nested_marker_log
  = [nested_marker_log; of_string "{ descriptor: 2 }"] /\
  spans nested_marker_log = [of_string "{ descriptor: 2 }"].
Proof.
  repeat split; try (vm_compute; reflexivity); vm_compute; discriminate.
Qed.

(* --------------------------------------------------------------------- *)
(** ** Storing one metric *)
(* --------------------------------------------------------------------- *)

Lemma lookup_some_nonempty (fields : list (str * json)) (k : str) (v : json) :
  lookup fields k = Some v -> truthy (JObj fields) = true.
Proof. destruct fields; [discriminate | reflexivity]. Qed.

Lemma bind_return_l (A B : Type) (a : A) (k : A -> io B) :
  Io.bind (Io.lift (Return a)) k = k a.
Proof. unfold Io.bind, Io.lift. now destruct (k a). Qed.

Lemma bind_raise_l (A B : Type) (e : exn) (k : A -> io B) :
  Io.bind (Io.lift (Raise e)) k = Io.lift (Raise e).
Proof. reflexivity. Qed.

Lemma bind_ret_l (A B : Type) (a : A) (k : A -> io B) :
  Io.bind (Io.ret a) k = k a.
Proof. apply bind_return_l. Qed.

Lemma bind_execute (B : Type) (st : stmt) (k : unit -> io B) :
  Io.bind (Io.execute st) k = (st :: trace (k tt), result (k tt)).
Proof. unfold Io.bind, Io.execute, trace, result. now destruct (k tt). Qed.

Ltac io_step :=
  repeat (rewrite ?bind_return_l, ?bind_raise_l, ?bind_ret_l, ?bind_execute;
          cbn [Io.trace Io.result fst snd obind]).

(** The first statements of [store_metric] on a dict with a descriptor that
    is a dict. *)
Lemma store_metric_unfold (mf df : list (str * json)) (timestamp : option str)
      (now : str) :
  lookup mf "descriptor" = Some (JObj df) ->
  store_metric (JObj mf) timestamp now
  = (let ts := timestamp_or timestamp now in
     let metric_name := get_or df "name" (JStr "") in
     insert_raw ts metric_name (JObj mf) ;;
     dps <~ py_iter (get_or mf "dataPoints" (JArr [])) ;;
     for_each dps (store_data_point metric_name ts) ;;
     execute Commit)%io.
Proof.
  intros Hd. unfold store_metric, no_descriptor.
  rewrite (lookup_some_nonempty _ _ Hd). cbn [negb py_in py_get].
  rewrite Hd. cbn [obind negb]. rewrite !bind_return_l.
  cbn [py_get]. rewrite !bind_return_l. reflexivity.
Qed.

(** C10.  A metric whose descriptor is present (a record, with a name that
    can be stored or with none) and whose data-point list is empty is
    stored as exactly one archive row; every other table is left as it
    was, and the row is committed. *)
Theorem empty_data_points_archive_only
        (c : conn) (mf df : list (str * json)) (n : sqlval)
        (timestamp : option str) (now : str) :
  lookup mf "descriptor" = Some (JObj df) ->
  bind_param (get_or df "name" (JStr "")) = Return n ->
  get_or mf "dataPoints" (JArr []) = JArr [] ->
  let call := store_metric (JObj mf) timestamp now in
  let c' := run (trace call) c in
  result call = Return tt /\
  raw_metrics (working c')
  = raw_metrics (working c)
    ++ [{| r_timestamp := SqlText (timestamp_or timestamp now);
           r_metric_name := n;
           r_raw_json := JObj mf |}] /\
  sessions (working c') = sessions (working c) /\
  token_usage (working c') = token_usage (working c) /\
  cost_usage (working c') = cost_usage (working c) /\
  active_time (working c') = active_time (working c) /\
  code_activity (working c') = code_activity (working c) /\
  session_messages (working c') = session_messages (working c) /\
  committed c' = working c'.
Proof.
  intros Hd Hn Hp. cbv zeta.
  rewrite (store_metric_unfold _ _ _ Hd), Hp.
  unfold insert_raw. rewrite Hn. cbn [py_iter Io.for_each]. io_step.
  cbn [run fold_left exec apply_stmt working committed raw_metrics sessions
       token_usage cost_usage active_time code_activity session_messages].
  repeat split.
Qed.

Lemma empty_data_points_archive_only_witness :
  let mf := [(of_string "descriptor",
              JObj [(of_string "name", JStr "claude_code.session.count")]);
             (of_string "dataPoints", JArr [])] in
  let c' := run (trace (store_metric (JObj mf) None "2026-01-01T00:00:00"))
                (connect empty_db) in
  raw_metrics (working c')
  = [{| r_timestamp := SqlText "2026-01-01T00:00:00";
        r_metric_name := SqlText "claude_code.session.count";
        r_raw_json := JObj mf |}] /\
  sessions (working c') = [] /\
  token_usage (working c') = [] /\
  committed c' = working c'.
Proof.
  cbv zeta.
  pose proof (@empty_data_points_archive_only (connect empty_db)
    [(of_string "descriptor",
      JObj [(of_string "name", JStr "claude_code.session.count")]);
     (of_string "dataPoints", JArr [])]
    [(of_string "name", JStr "claude_code.session.count")]
    (SqlText "claude_code.session.count") None "2026-01-01T00:00:00"
    eq_refl eq_refl eq_refl) as H.
  cbv zeta in H.
  destruct H as (_ & Hraw & Hs & Ht & _ & _ & _ & _ & Hc).
  repeat split; assumption.
Defined.

(* --------------------------------------------------------------------- *)
(** ** Classification of a data point *)
(* --------------------------------------------------------------------- *)

Lemma split_char_nonempty (sep : ascii) (s : str) : split_char sep s <> [].
Proof.
  destruct s as [|c s]; cbn [split_char]; [discriminate|].
  destruct (Ascii.eqb c sep); [discriminate|].
  destruct (split_char sep s); discriminate.
Qed.

Lemma split_char_app (sep : ascii) (a b : str) :
  split_char sep (a ++ sep :: b) = split_char sep a ++ split_char sep b.
Proof.
  induction a as [|x a IH]; cbn [app split_char].
  - now rewrite Ascii.eqb_refl.
  - destruct (Ascii.eqb x sep); [now rewrite IH|].
    rewrite IH. pose proof (split_char_nonempty sep a) as Hne.
    destruct (split_char sep a); [contradiction | reflexivity].
Qed.

Lemma split_char_single (sep : ascii) (b : str) :
  forallb (fun c => negb (Ascii.eqb c sep)) b = true ->
  split_char sep b = [b].
Proof.
  induction b as [|x b IH]; [reflexivity|]. cbn [forallb split_char].
  intros H. apply andb_true_iff in H as [Hx Hb].
  apply negb_true_iff in Hx. now rewrite Hx, (IH Hb).
Qed.

Lemma last_app_nonempty (A : Type) (l1 l2 : list A) (d : A) :
  l2 <> [] -> last (l1 ++ l2) d = last l2 d.
Proof.
  intros H. induction l1 as [|x l1 IH]; [reflexivity|].
  cbn [app]. destruct (l1 ++ l2) eqn:E.
  - destruct l1; [contradiction | discriminate].
  - cbn [last]. exact IH.
Qed.

Lemma contains_char (c : ascii) (s : str) :
  contains [c] s = existsb (fun x => Ascii.eqb x c) s.
Proof.
  induction s as [|x s IH]; [reflexivity|].
  cbn [contains starts_with existsb]. rewrite IH, andb_true_r.
  now rewrite (Ascii.eqb_sym c x).
Qed.

Lemma last_sep_decompose (sep : ascii) (s : str) :
  existsb (fun x => Ascii.eqb x sep) s = true ->
  exists a b, s = a ++ sep :: b /\
              forallb (fun c => negb (Ascii.eqb c sep)) b = true.
Proof.
  induction s as [|x s IH]; [discriminate|]. cbn [existsb]. intros H.
  destruct (existsb (fun x => Ascii.eqb x sep) s) eqn:E.
  - destruct (IH eq_refl) as (a & b & -> & Hb). now exists (x :: a), b.
  - rewrite orb_false_r in H. apply Ascii.eqb_eq in H. subst x.
    exists [], s. split; [reflexivity|].
    clear - E. induction s as [|y s IHs]; [reflexivity|].
    cbn [existsb forallb] in *. apply orb_false_iff in E as [-> E].
    now rewrite (IHs E).
Qed.

Lemma take_while_full (p : ascii -> bool) (s : str) :
  forallb p s = true -> take_while p s = s.
Proof.
  induction s as [|x s IH]; [reflexivity|]. cbn [forallb take_while].
  intros H. apply andb_true_iff in H as [-> H]. now rewrite (IH H).
Qed.

(** The activity type the code takes is the text after the last dot. *)
Lemma activity_type_after_last_dot (n : str) :
  activity_type_of n = after_last_dot n.
Proof.
  unfold activity_type_of, after_last_dot.
  change (of_string ".") with ["."%char]. rewrite contains_char.
  destruct (existsb (fun x => Ascii.eqb x ".") n) eqn:E.
  - destruct (last_sep_decompose _ _ E) as (a & b & -> & Hb).
    rewrite split_char_app, last_app_nonempty by apply split_char_nonempty.
    rewrite (split_char_single _ _ Hb). cbn [last].
    rewrite rev_app_distr. cbn [rev]. rewrite <- app_assoc. cbn [app].
    rewrite take_while_app_stop; [now rewrite rev_involutive| |reflexivity].
    now rewrite forallb_rev.
  - rewrite take_while_full; [now rewrite rev_involutive|].
    rewrite forallb_rev. clear - E.
    induction n as [|y s IHs]; [reflexivity|].
    cbn [existsb forallb] in *. apply orb_false_iff in E as [-> E].
    now rewrite (IHs E).
Qed.

(** The loop body of [store_metric] on a data point whose fields
    resolve and bind. *)
Lemma store_data_point_resolved
        (n timestamp : str) (fields attrs : list (str * json))
        (sid uid m ty v : sqlval) :
  get_or fields "attributes" (JObj []) = JObj attrs ->
  bind_param (resolve_session attrs) = Return sid ->
  bind_param (resolve_user attrs) = Return uid ->
  bind_param (resolve_model attrs) = Return m ->
  bind_param (resolve_value fields) = Return v ->
  (contains "token" (lower n) = true ->
   bind_param (resolve_type attrs) = Return ty) ->
  store_data_point (JStr n) timestamp (JObj fields)
  = (InsertOrIgnoreSession
       {| s_session_id := sid; s_user_id := uid; s_model := m;
          s_started_at := SqlText timestamp; s_ended_at := SqlNull |}
     :: match classify n sid m ty v with
        | Some e => [stmt_of_event timestamp e]
        | None => []
        end,
     Return tt).
Proof.
  intros Ha Hs Hu Hm Hv Ht.
  unfold store_data_point. cbn [py_get as_str].
  fold (get_or fields "attributes" (JObj [])). rewrite Ha.
  rewrite !bind_return_l. cbn [py_get]. rewrite !bind_return_l.
  fold (get_or attrs "session_id" (JStr "unknown")).
  fold (get_or attrs "session.id" (get_or attrs "session_id" (JStr "unknown"))).
  fold (get_or attrs "user_id" (JStr "unknown")).
  fold (get_or attrs "user.id" (get_or attrs "user_id" (JStr "unknown"))).
  fold (get_or attrs "model" (JStr "unknown")).
  fold (get_or fields "value" (JInt 0)).
  fold (resolve_session attrs) (resolve_user attrs) (resolve_model attrs)
       (resolve_value fields).
  unfold insert_or_ignore_session. rewrite Hs, Hu, Hm.
  rewrite !bind_return_l, bind_execute. cbn [trace result fst snd].
  unfold classify, code_keywords. cbn [existsb]. rewrite orb_false_r.
  rewrite <- orb_assoc.
  destruct (contains "token" (lower n)) eqn:E1.
  { fold (get_or attrs "type" (JStr "unknown")). fold (resolve_type attrs).
    unfold insert_token. rewrite Hs, Hm, (Ht eq_refl), Hv.
    rewrite !bind_return_l. reflexivity. }
  destruct (contains "cost" (lower n)) eqn:E2.
  { unfold insert_cost. rewrite Hs, Hm, Hv. rewrite !bind_return_l.
    reflexivity. }
  destruct (contains "active_time" (lower n)) eqn:E3.
  { unfold insert_active. rewrite Hs, Hv. rewrite !bind_return_l.
    reflexivity. }
  destruct (contains "commit" (lower n) || (contains "pull_request" (lower n)
            || contains "lines_of_code" (lower n))) eqn:E4.
  { unfold insert_code. rewrite Hs, Hv. rewrite !bind_return_l.
    rewrite activity_type_after_last_dot. reflexivity. }
  reflexivity.
Qed.





(* --------------------------------------------------------------------- *)
(** ** The token-usage example *)
(* --------------------------------------------------------------------- *)

Lemma has_session_refl_text (s : str) (d : db) (r : session_row) :
  s_session_id r = SqlText s ->
  has_session (SqlText s) (apply_stmt (InsertOrIgnoreSession r) d) = true.
Proof.
  intros Hr. cbn [apply_stmt]. rewrite Hr.
  destruct (has_session (SqlText s) d) eqn:E; [exact E|].
  unfold has_session. cbn [sessions]. rewrite existsb_app. cbn [existsb].
  unfold same_session at 2.
  rewrite Hr. cbn [sql_eqb text_key]. rewrite str_eqb_refl.
  now rewrite orb_true_r.
Qed.

(** C1, as the code has it.  When the log yields the single metric named
    [claude_code.token.usage] whose one data point has the value 42 and
    the attributes [type] = ["output"] and [session.id] = ["s1"], the run
    adds exactly one token-usage row, with token type ["output"], value 42
    and session ["s1"], adds no other usage row, upserts the session
    ["s1"], and commits. *)
Theorem token_usage_example
        (loads : str -> outcome json) (content : str) (clock : nat -> str)
        (c : conn) (mf df : list (str * json)) :
  extract_metrics_from_log loads content = Return [JObj mf] ->
  lookup mf "descriptor" = Some (JObj df) ->
  lookup df "name" = Some (JStr "claude_code.token.usage") ->
  lookup mf "dataPoints" = Some (JArr [token_point]) ->
  let call := parse_log_file loads content clock in
  let c' := run (trace call) c in
  result call = Return tt /\
  token_usage (working c')
  = token_usage (working c)
    ++ [{| t_session_id := SqlText "s1";
           t_timestamp := SqlText (clock 0);
           t_model := SqlText "unknown";
           t_token_type := SqlText "output";
           t_value := SqlInt 42 |}] /\
  cost_usage (working c') = cost_usage (working c) /\
  active_time (working c') = active_time (working c) /\
  code_activity (working c') = code_activity (working c) /\
  In (InsertOrIgnoreSession
        {| s_session_id := SqlText "s1"; s_user_id := SqlText "unknown";
           s_model := SqlText "unknown";
           s_started_at := SqlText (clock 0); s_ended_at := SqlNull |})
     (trace call) /\
  has_session (SqlText "s1") (working c') = true /\
  committed c' = working c'.
Proof.
  intros He Hd Hn Hp.
  set (row := {| s_session_id := SqlText "s1"; s_user_id := SqlText "unknown";
                 s_model := SqlText "unknown";
                 s_started_at := SqlText (clock 0); s_ended_at := SqlNull |}).
  assert (Hcall : parse_log_file loads content clock
                  = ([InsertRaw {| r_timestamp := SqlText (clock 0);
                                   r_metric_name :=
                                     SqlText "claude_code.token.usage";
                                   r_raw_json := JObj mf |};
                      InsertOrIgnoreSession row;
                      InsertToken
                        {| t_session_id := SqlText "s1";
                           t_timestamp := SqlText (clock 0);
                           t_model := SqlText "unknown";
                           t_token_type := SqlText "output";
                           t_value := SqlInt 42 |};
                      Commit], Return tt)).
  { unfold parse_log_file. rewrite He, bind_return_l.
    cbn [store_all]. rewrite (store_metric_unfold _ _ _ Hd).
    unfold get_or. rewrite Hn, Hp. cbn [timestamp_or py_iter].
    rewrite bind_return_l. cbn [Io.for_each].
    unfold token_point.
    rewrite (@store_data_point_resolved "claude_code.token.usage" (clock 0)
               _ [(of_string "type", JStr "output");
                  (of_string "session.id", JStr "s1")]
               (SqlText "s1") (SqlText "unknown") (SqlText "unknown")
               (SqlText "output") (SqlInt 42));
      try reflexivity. }
  cbv zeta. rewrite Hcall. clear Hcall.
  cbn [Io.trace Io.result fst snd].
  cbn [run fold_left exec working committed].
  set (d1 := apply_stmt (InsertRaw _) (working c)).
  assert (Hs : has_session (SqlText "s1")
                 (apply_stmt (InsertOrIgnoreSession row) d1) = true)
    by (now apply has_session_refl_text).
  split; [reflexivity|].
  split; [|split; [|split; [|split; [|split; [|split]]]]];
    try reflexivity; try exact Hs;
    try (cbn [apply_stmt s_session_id row];
         destruct (has_session (SqlText "s1") d1); reflexivity).
  right. left. reflexivity.
Qed.

Lemma token_usage_example_witness :
  let call := parse_log_file JsonRef.loads token_log (fun _ => of_string "T0") in
  let c' := run (trace call) (connect empty_db) in
  result call = Return tt /\
  token_usage (working c')
  = [{| t_session_id := SqlText "s1"; t_timestamp := SqlText "T0";
        t_model := SqlText "unknown"; t_token_type := SqlText "output";
        t_value := SqlInt 42 |}] /\
  has_session (SqlText "s1") (working c') = true /\
  committed c' = working c'.
Proof.
  cbv zeta.
  pose proof (@token_usage_example JsonRef.loads token_log
                (fun _ => of_string "T0") (connect empty_db)
                [(of_string "descriptor",
                  JObj [(of_string "name", JStr "claude_code.token.usage")]);
                 (of_string "dataPoints", JArr [token_point])]
                [(of_string "name", JStr "claude_code.token.usage")]) as H.
  cbv zeta in H.
  destruct H as (Hr & Ht & _ & _ & _ & _ & Hs & Hc);
    try (vm_compute; reflexivity).
  repeat split; assumption.
Defined.

(** C1 as stated fails.  With [value: 42] written among the attributes the
    one token-usage row has the value 0, the default of the data point's
    own [value] field; and with the key [session.id] left bare the block
    does not parse and nothing is stored. *)
Lemma token_usage_counterexample :
  (let call := parse_log_file JsonRef.loads token_log_value_attribute
                              (fun _ => of_string "T0") in
   exists row,
     token_usage (working (run (trace call) (connect empty_db))) = [row] /\
     t_session_id row = SqlText "s1" /\
     t_token_type row = SqlText "output" /\
     t_value row = SqlInt 0 /\
     t_value row <> SqlInt 42) /\
  extract_metrics_from_log JsonRef.loads token_log_bare_key = Return [].
Proof.
  split.
  - cbv zeta. eexists. split; [vm_compute; reflexivity|].
    cbn [t_session_id t_token_type t_value].
    repeat split; discriminate.
  - vm_compute. reflexivity.
Qed.

(* --------------------------------------------------------------------- *)
(** ** Sessions: insert if absent *)
(* --------------------------------------------------------------------- *)

Lemma sql_eqb_right (a b c : sqlval) :
  sql_eqb a b = true -> sql_eqb c a = sql_eqb c b.
Proof.
  unfold sql_eqb.
  destruct (text_key a) as [x|], (text_key b) as [y|]; try discriminate.
  intros H. apply str_eqb_eq in H. now subst.
Qed.

Lemma has_session_same (a b : sqlval) (d : db) :
  sql_eqb a b = true -> has_session a d = has_session b d.
Proof.
  intros H. unfold has_session, same_session.
  induction (sessions d) as [|r rs IH]; [reflexivity|].
  cbn [existsb]. now rewrite IH, (@sql_eqb_right a b (s_session_id r) H).
Qed.

(** One statement keeps the rows of a known session, and keeps every row
    in place. *)
Lemma apply_stmt_sessions (st : stmt) (d : db) (sid : sqlval) :
  has_session sid d = true ->
  has_session sid (apply_stmt st d) = true /\
  filter (same_session sid) (sessions (apply_stmt st d))
  = filter (same_session sid) (sessions d).
Proof.
  intros H. destruct st; cbn [apply_stmt sessions]; try (now split).
  destruct (has_session (s_session_id r) d) eqn:E; [now split|].
  cbn [sessions]. split.
  - unfold has_session in *. cbn [sessions]. rewrite existsb_app, H.
    reflexivity.
  - rewrite filter_app. cbn [filter]. unfold same_session at 2.
    destruct (sql_eqb (s_session_id r) sid) eqn:Er.
    + rewrite (@has_session_same _ _ d Er) in E. congruence.
    + now rewrite app_nil_r.
Qed.

Lemma apply_stmt_sessions_prefix (st : stmt) (d : db) :
  firstn (List.length (sessions d)) (sessions (apply_stmt st d)) = sessions d.
Proof.
  destruct st; cbn [apply_stmt sessions]; try apply firstn_all.
  destruct (has_session (s_session_id r) d); cbn [sessions].
  - apply firstn_all.
  - apply firstn_app_length.
Qed.

Lemma exec_working (c : conn) (st : stmt) :
  working (exec c st) = apply_stmt st (working c).
Proof. destruct st; reflexivity. Qed.

Lemma run_sessions (tr : list stmt) :
  forall (c : conn) (sid : sqlval),
    has_session sid (working c) = true ->
    has_session sid (working (run tr c)) = true /\
    filter (same_session sid) (sessions (working (run tr c)))
    = filter (same_session sid) (sessions (working c)).
Proof.
  induction tr as [|st tr IH]; intros c sid H; [now split|].
  cbn [run fold_left]. fold (run tr (exec c st)).
  destruct (apply_stmt_sessions st (working c) sid H) as [H1 H2].
  rewrite <- exec_working in H1, H2.
  destruct (IH _ _ H1) as [H3 H4]. split; [exact H3|]. now rewrite H4.
Qed.

Lemma run_sessions_prefix (tr : list stmt) :
  forall c : conn,
    firstn (List.length (sessions (working c)))
           (sessions (working (run tr c)))
    = sessions (working c).
Proof.
  induction tr as [|st tr IH]; intros c; [apply firstn_all|].
  cbn [run fold_left]. fold (run tr (exec c st)).
  pose proof (IH (exec c st)) as H1.
  pose proof (apply_stmt_sessions_prefix st (working c)) as H2.
  rewrite <- exec_working in H2.
  transitivity (firstn (List.length (sessions (working c)))
                  (firstn (List.length (sessions (working (exec c st))))
                     (sessions (working (run tr (exec c st)))))).
  - rewrite firstn_firstn. f_equal.
    apply (f_equal (@List.length _)) in H2.
    rewrite length_firstn in H2. lia.
  - rewrite H1. exact H2.
Qed.

(** C8.  When a session id is already in the session table, an upsert with
    that id and any user, model and timestamp changes nothing; and a whole
    call of [store_metric], whatever the metric, leaves the rows of that
    session as they were and every earlier row in its place: insert only
    if absent, the first write wins. *)
Theorem session_upsert_first_write_wins
        (c : conn) (sid uid model started : sqlval)
        (metric : json) (timestamp : option str) (now : str) :
  has_session sid (working c) = true ->
  apply_stmt (InsertOrIgnoreSession
                {| s_session_id := sid; s_user_id := uid; s_model := model;
                   s_started_at := started; s_ended_at := SqlNull |})
             (working c)
  = working c /\
  let c' := run (trace (store_metric metric timestamp now)) c in
  filter (same_session sid) (sessions (working c'))
  = filter (same_session sid) (sessions (working c)) /\
  firstn (List.length (sessions (working c))) (sessions (working c'))
  = sessions (working c).
Proof.
  intros H. split; [|split].
  - cbn [apply_stmt s_session_id]. now rewrite H.
  - now apply run_sessions.
  - apply run_sessions_prefix.
Qed.

Lemma session_upsert_first_write_wins_witness :
  has_session (SqlText "s1") store_with_session = true /\
  sessions (working (run (trace (store_metric later_metric None "T9"))
                         (connect store_with_session)))
  = [known_session].
Proof.
  split; [reflexivity|].
  pose proof (@session_upsert_first_write_wins
                (connect store_with_session) (SqlText "s1") (SqlText "bob")
                (SqlText "m-2") (SqlText "T9") later_metric None "T9"
                eq_refl) as [_ [_ H]].
  cbn [connect working sessions store_with_session List.length] in H.
  rewrite <- H. vm_compute. reflexivity.
Defined.

(* --------------------------------------------------------------------- *)
(** ** Commits *)
(* --------------------------------------------------------------------- *)

Lemma no_commit_lift (A : Type) (o : outcome A) :
  ~ In Commit (trace (Io.lift o)).
Proof. intros []. Qed.

Lemma no_commit_execute (st : stmt) :
  st <> Commit -> ~ In Commit (trace (Io.execute st)).
Proof. intros H [E|[]]. now apply H. Qed.

Lemma no_commit_bind (A B : Type) (m : io A) (k : A -> io B) :
  ~ In Commit (trace m) ->
  (forall a, ~ In Commit (trace (k a))) ->
  ~ In Commit (trace (Io.bind m k)).
Proof.
  destruct m as [t [a|e]]; cbn [trace fst]; intros Hm Hk.
  - unfold Io.bind. specialize (Hk a). destruct (k a) as [t2 o].
    cbn [trace fst] in *. intros H. apply in_app_or in H. tauto.
  - exact Hm.
Qed.

Lemma no_commit_for_each (A : Type) (xs : list A) (body : A -> io unit) :
  (forall x, ~ In Commit (trace (body x))) ->
  ~ In Commit (trace (Io.for_each xs body)).
Proof.
  intros Hb. induction xs as [|x xs IH]; cbn [Io.for_each].
  - intros [].
  - apply no_commit_bind; [apply Hb | intros _; exact IH].
Qed.

Ltac no_commit :=
  repeat first
    [ apply no_commit_lift
    | apply no_commit_execute; discriminate
    | apply no_commit_bind; [|intros ?]
    | match goal with
      | |- ~ In Commit (trace (if ?b then _ else _)) => destruct b
      | |- ~ In Commit (trace (Io.ret _)) => intros []
      end ].

Lemma no_commit_store_data_point (name : json) (timestamp : str) (dp : json) :
  ~ In Commit (trace (store_data_point name timestamp dp)).
Proof.
  unfold store_data_point, insert_or_ignore_session, insert_token,
    insert_cost, insert_active, insert_code.
  no_commit.
Qed.

Lemma commits_at_end_of_free (tr : list stmt) :
  ~ In Commit tr -> commits_only_at_end tr.
Proof. intros H. exists tr. now split; [|left]. Qed.

Lemma commits_at_end_bind (A B : Type) (m : io A) (k : A -> io B) :
  ~ In Commit (trace m) ->
  (forall a, commits_only_at_end (trace (k a))) ->
  commits_only_at_end (trace (Io.bind m k)).
Proof.
  destruct m as [t [a|e]]; cbn [trace fst]; intros Hm Hk.
  - unfold Io.bind. specialize (Hk a). destruct (k a) as [t2 o].
    cbn [trace fst] in *. destruct Hk as (body & Hb & [->| ->]).
    + exists (t ++ body). split; [|now left].
      intros H. apply in_app_or in H. tauto.
    + exists (t ++ body). split; [|right; now rewrite app_assoc].
      intros H. apply in_app_or in H. tauto.
  - now apply commits_at_end_of_free.
Qed.

(** [store_metric] commits at most once, with its last statement. *)
Lemma store_metric_commits (metric : json) (timestamp : option str)
      (now : str) :
  commits_only_at_end (trace (store_metric metric timestamp now)).
Proof.
  unfold store_metric.
  apply commits_at_end_bind; [apply no_commit_lift | intros absent].
  destruct absent; [apply commits_at_end_of_free; intros []|].
  do 3 (apply commits_at_end_bind; [apply no_commit_lift | intros ?]).
  apply commits_at_end_bind.
  { unfold insert_raw. no_commit. }
  intros _. apply commits_at_end_bind; [apply no_commit_lift | intros dps].
  apply commits_at_end_bind.
  { apply no_commit_for_each. intros dp. apply no_commit_store_data_point. }
  intros _. exists []. split; [intros [] | now right].
Qed.

Lemma ends_with_commit_bind (A B : Type) (m : io A) (k : A -> io B) (b : B) :
  (forall a, result (k a) = Return b ->
             exists body, trace (k a) = body ++ [Commit]) ->
  result (Io.bind m k) = Return b ->
  exists body, trace (Io.bind m k) = body ++ [Commit].
Proof.
  destruct m as [t [a|e]]; unfold Io.bind; intros Hk H;
    [|discriminate H].
  specialize (Hk a). destruct (k a) as [t2 o]. cbn [trace result fst snd] in *.
  destruct (Hk H) as [body ->]. exists (t ++ body). now rewrite app_assoc.
Qed.

(** A call of [store_metric] that finds a descriptor and returns has
    committed with its last statement. *)
Lemma store_metric_ends_with_commit (metric : json) (timestamp : option str)
      (now : str) :
  no_descriptor metric = Return false ->
  result (store_metric metric timestamp now) = Return tt ->
  exists body, trace (store_metric metric timestamp now) = body ++ [Commit].
Proof.
  intros Hd. unfold store_metric. rewrite Hd, bind_return_l.
  do 6 (apply ends_with_commit_bind; intros ?).
  intros _. now exists [].
Qed.

Lemma strict_prefix_no_commit (p q : list stmt) :
  commits_only_at_end (p ++ q) -> q <> [] -> ~ In Commit p.
Proof.
  intros (body & Hb & [E|E]) Hq Hp.
  - apply Hb. rewrite <- E. apply in_or_app. now left.
  - destruct (exists_last Hq) as (q' & x & ->).
    rewrite app_assoc in E. apply app_inj_tail in E as [E _].
    apply Hb. rewrite <- E. apply in_or_app. now left.
Qed.

Lemma run_app (a b : list stmt) (c : conn) :
  run (a ++ b) c = run b (run a c).
Proof. unfold run. apply fold_left_app. Qed.

Lemma run_no_commit (p : list stmt) :
  forall c, ~ In Commit p -> committed (run p c) = committed c.
Proof.
  induction p as [|st p IH]; intros c H; [reflexivity|].
  cbn [run fold_left]. fold (run p (exec c st)).
  rewrite IH by (intros Hp; apply H; now right).
  destruct st; try reflexivity. exfalso. apply H. now left.
Qed.

Lemma trace_bind_prefix (A B : Type) (m : io A) (k : A -> io B) :
  exists rest, trace (Io.bind m k) = trace m ++ rest.
Proof.
  destruct m as [t [a|e]]; unfold Io.bind; cbn [trace fst].
  - destruct (k a) as [t2 o]. now exists t2.
  - exists []. now rewrite app_nil_r.
Qed.

Lemma store_all_app (clock : nat -> str) (ms1 ms : list json) :
  forall i,
    result (store_all clock i ms1) = Return tt ->
    store_all clock i (ms1 ++ ms)
    = (trace (store_all clock i ms1)
       ++ trace (store_all clock (i + List.length ms1) ms),
       result (store_all clock (i + List.length ms1) ms)).
Proof.
  induction ms1 as [|m ms1 IH]; intros i H.
  - cbn [app store_all List.length trace fst Io.ret]. rewrite Nat.add_0_r.
    now destruct (store_all clock i ms).
  - cbn [app store_all List.length] in *.
    destruct (store_metric m None (clock i)) as [t [[]|e]] eqn:E;
      [|discriminate H].
    unfold Io.bind in *.
    destruct (store_all clock (S i) ms1) as [t1 o1] eqn:E1.
    cbn [trace result fst snd] in *. subst o1.
    specialize (IH (S i)). rewrite E1 in IH. cbn [trace result fst snd] in IH.
    rewrite (IH eq_refl). rewrite Nat.add_succ_r, app_assoc.
    reflexivity.
Qed.

(** C5, as the code has it.  [store_metric] commits at most once, with its
    last statement, and does so whenever it finds a descriptor and returns,
    so the rows of one metric become visible together; and in a run of
    [parse_log_file], an abort at any point inside the store of a metric
    leaves visible exactly what the metrics stored before it made visible,
    and nothing of the metric in progress. *)
Theorem commit_per_metric
        (loads : str -> outcome json) (content : str) (clock : nat -> str)
        (ms1 ms2 : list json) (m : json) (p q : list stmt) (c : conn) :
  extract_metrics_from_log loads content = Return (ms1 ++ m :: ms2) ->
  result (store_all clock 0 ms1) = Return tt ->
  trace (store_metric m None (clock (List.length ms1))) = p ++ q ->
  q <> [] ->
  let before := trace (store_all clock 0 ms1) in
  (exists rest,
     trace (parse_log_file loads content clock) = (before ++ p) ++ rest) /\
  committed (run (before ++ p) c) = committed (run before c) /\
  commits_only_at_end (p ++ q) /\
  (no_descriptor m = Return false ->
   result (store_metric m None (clock (List.length ms1))) = Return tt ->
   exists body, p ++ q = body ++ [Commit]).
Proof.
  intros He H1 Hpq Hq. cbv zeta.
  pose proof (store_metric_commits m None (clock (List.length ms1))) as Hc.
  rewrite Hpq in Hc.
  split; [|split; [|split; [exact Hc|]]].
  3:{ intros Hd Hr. rewrite <- Hpq.
      now apply store_metric_ends_with_commit. }
  - unfold parse_log_file. rewrite He, bind_return_l.
    rewrite (store_all_app _ _ _ _ H1). cbn [trace fst store_all].
    destruct (trace_bind_prefix (store_metric m None (clock (0 + List.length ms1)))
                (fun _ => store_all clock (S (0 + List.length ms1)) ms2))
      as [rest Hr].
    rewrite Hr. cbn [Nat.add]. rewrite Hpq.
    exists (q ++ rest). now rewrite <- !app_assoc.
  - rewrite run_app. apply run_no_commit.
    now apply (@strict_prefix_no_commit p q).
Qed.

Lemma commit_per_metric_witness :
  let clock := fun _ : nat => of_string "T0" in
  let before := trace (store_all clock 0 [token_metric]) in
  extract_metrics_from_log JsonRef.loads two_metric_log
  = Return [token_metric; cost_metric] /\
  trace (store_metric cost_metric None "T0") = cost_pending ++ [Commit] /\
  committed (run (before ++ cost_pending) (connect empty_db))
  = committed (run before (connect empty_db)).
Proof.
  cbv zeta.
  assert (He : extract_metrics_from_log JsonRef.loads two_metric_log
               = Return ([token_metric] ++ cost_metric :: []))
    by (vm_compute; reflexivity).
  assert (Ht : trace (store_metric cost_metric None "T0")
               = cost_pending ++ [Commit])
    by (vm_compute; reflexivity).
  split; [exact He|]. split; [exact Ht|].
  refine (proj1 (proj2 (@commit_per_metric JsonRef.loads two_metric_log
            (fun _ => of_string "T0") [token_metric] [] cost_metric
            cost_pending [Commit] (connect empty_db) He _ Ht _))).
  - vm_compute. reflexivity.
  - discriminate.
Defined.

(** C5 as stated fails.  With two metric blocks in the log the run
    commits twice, and after the first four statements the rows of the
    first metric are visible although the run has not ended. *)
Lemma batch_commit_counterexample :
  let tr := trace (parse_log_file JsonRef.loads two_metric_log
                                  (fun _ => of_string "T0")) in
  ~ invisible_until_end tr (connect empty_db) /\
  List.length (filter is_commit tr) = 2 /\
  token_usage (committed (run (firstn 4 tr) (connect empty_db)))
  = [{| t_session_id := SqlText "s1"; t_timestamp := SqlText "T0";
        t_model := SqlText "unknown"; t_token_type := SqlText "output";
        t_value := SqlInt 42 |}].
Proof.
  cbv zeta. split; [|split; vm_compute; reflexivity].
  intros H. specialize (H 4). vm_compute in H.
  assert (L : 5 <= 8) by lia. specialize (H L). discriminate H.
Qed.

(* --------------------------------------------------------------------- *)
(** ** Items that do not parse *)
(* --------------------------------------------------------------------- *)

Lemma obind_return_r (A : Type) (m : outcome A) :
  obind m (fun x => Return x) = m.
Proof. now destruct m. Qed.








(* --------------------------------------------------------------------- *)
(** ** Transcript messages *)
(* --------------------------------------------------------------------- *)






(* --------------------------------------------------------------------- *)
(** ** Cache efficiency *)
(* --------------------------------------------------------------------- *)

Lemma tokens_of_nonneg (ty : str) (r : token_row) :
  counted r -> (0 <= tokens_of ty r)%Z.
Proof.
  intros (z & Hz & Hp). unfold tokens_of. rewrite Hz.
  destruct (t_token_type r); try lia. destruct (str_eqb s ty); lia.
Qed.

Lemma total_nonneg (ty : str) (rows : list token_row) :
  (forall r, In r rows -> counted r) -> (0 <= total ty rows)%Z.
Proof.
  induction rows as [|r rows IH]; intros H; cbn [total fold_right]; [lia|].
  fold (total ty rows).
  pose proof (@tokens_of_nonneg ty r (H r (or_introl eq_refl))).
  pose proof (IH (fun x Hx => H x (or_intror Hx))). lia.
Qed.

Lemma case_when_counted (ty : str) (r : token_row) :
  counted r -> case_when_type ty r = SqlInt (tokens_of ty r).
Proof.
  intros (z & Hz & _). unfold case_when_type, tokens_of. rewrite Hz.
  destruct (t_token_type r); try reflexivity. now destruct (str_eqb s ty).
Qed.

(** The SUM of the query over counted rows, from a running integer sum. *)
Lemma sum_from (ty : str) (rows : list token_row) :
  forall acc : Z,
    (forall r, In r rows -> counted r) ->
    (0 <= acc)%Z ->
    (acc + total ty rows < 2 ^ 63)%Z ->
    fold_left sum_step (map (case_when_type ty) rows) (SumInt acc)
    = SumInt (acc + total ty rows).
Proof.
  induction rows as [|r rows IH]; intros acc H Ha Hb.
  - cbn. f_equal. lia.
  - cbn [map fold_left total fold_right] in *. fold (total ty rows) in *.
    pose proof (@tokens_of_nonneg ty r (H r (or_introl eq_refl))) as Hr.
    pose proof (@total_nonneg ty rows (fun x Hx => H x (or_intror Hx))) as Ht.
    rewrite (@case_when_counted ty r (H r (or_introl eq_refl))).
    cbn [sum_step].
    replace ((- 2 ^ 63 <=? acc + tokens_of ty r)
             && (acc + tokens_of ty r <? 2 ^ 63))%Z with true.
    + rewrite IH; [f_equal; lia | | lia | lia].
      intros x Hx. apply H. now right.
    + symmetry. apply andb_true_iff. split.
      * apply Z.leb_le. lia.
      * apply Z.ltb_lt. lia.
Qed.

Lemma sum_of_type_total (ty : str) (rows : list token_row) :
  (forall r, In r rows -> counted r) ->
  (total ty rows < 2 ^ 63)%Z ->
  or_zero (sum_of_type ty rows) = Exact (total ty rows).
Proof.
  intros H Hb. unfold sum_of_type, sql_sum.
  destruct rows as [|r rows]; [reflexivity|].
  cbn [map fold_left total fold_right] in *. fold (total ty rows) in *.
  pose proof (@tokens_of_nonneg ty r (H r (or_introl eq_refl))) as Hr.
  rewrite (@case_when_counted ty r (H r (or_introl eq_refl))).
  cbn [sum_step]. rewrite sum_from; [reflexivity | | lia | lia].
  intros x Hx. apply H. now right.
Qed.

(** C9.  When the values of the token rows are non-negative integers (and
    the three totals fit SQLite's 64-bit integers), the cache-efficiency
    computation returns the totals of the [cacheRead], [cacheCreation] and
    [input] rows, the hit ratio cache_read / (cache_read + cache_creation)
    and the efficiency cache_read / (cache_read + input), each ratio being
    0 when both of its summands are zero. *)
Theorem cache_efficiency_ratios (rows : list token_row) :
  (forall r, In r rows -> counted r) ->
  (total "cacheRead" rows < 2 ^ 63)%Z ->
  (total "cacheCreation" rows < 2 ^ 63)%Z ->
  (total "input" rows < 2 ^ 63)%Z ->
  let cache_read := total "cacheRead" rows in
  let cache_creation := total "cacheCreation" rows in
  let input := total "input" rows in
  exists m,
    calculate_cache_metrics rows = Exact m /\
    cache_read_tokens m = cache_read /\
    cache_creation_tokens m = cache_creation /\
    report_input_tokens m = input /\
    (cache_hit_ratio m
     == if (cache_read =? 0)%Z && (cache_creation =? 0)%Z then 0
        else inject_Z cache_read
             / (inject_Z cache_read + inject_Z cache_creation))%Q /\
    (cache_efficiency m
     == if (cache_read =? 0)%Z && (input =? 0)%Z then 0
        else inject_Z cache_read
             / (inject_Z cache_read + inject_Z input))%Q.
Proof.
  intros H H1 H2 H3. cbv zeta.
  pose proof (@total_nonneg "cacheRead" rows H) as P1.
  pose proof (@total_nonneg "cacheCreation" rows H) as P2.
  pose proof (@total_nonneg "input" rows H) as P3.
  unfold calculate_cache_metrics.
  rewrite !sum_of_type_total by assumption.
  eexists. split; [reflexivity|].
  cbn [cache_read_tokens cache_creation_tokens report_input_tokens
       cache_hit_ratio cache_efficiency].
  repeat split.
  - destruct (Z.eqb_spec (total "cacheRead" rows) 0) as [E1|E1];
      destruct (Z.eqb_spec (total "cacheCreation" rows) 0) as [E2|E2];
      cbn [andb].
    + rewrite E1, E2. reflexivity.
    + replace (total "cacheRead" rows + total "cacheCreation" rows >? 0)%Z
        with true by (symmetry; apply Z.gtb_lt; lia).
      unfold ratio. now rewrite inject_Z_plus.
    + replace (total "cacheRead" rows + total "cacheCreation" rows >? 0)%Z
        with true by (symmetry; apply Z.gtb_lt; lia).
      unfold ratio. now rewrite inject_Z_plus.
    + replace (total "cacheRead" rows + total "cacheCreation" rows >? 0)%Z
        with true by (symmetry; apply Z.gtb_lt; lia).
      unfold ratio. now rewrite inject_Z_plus.
  - destruct (Z.eqb_spec (total "cacheRead" rows) 0) as [E1|E1];
      destruct (Z.eqb_spec (total "input" rows) 0) as [E2|E2];
      cbn [andb].
    + rewrite E1, E2. reflexivity.
    + replace (total "cacheRead" rows + total "input" rows >? 0)%Z
        with true by (symmetry; apply Z.gtb_lt; lia).
      unfold ratio. now rewrite inject_Z_plus.
    + replace (total "cacheRead" rows + total "input" rows >? 0)%Z
        with true by (symmetry; apply Z.gtb_lt; lia).
      unfold ratio. now rewrite inject_Z_plus.
    + replace (total "cacheRead" rows + total "input" rows >? 0)%Z
        with true by (symmetry; apply Z.gtb_lt; lia).
      unfold ratio. now rewrite inject_Z_plus.
Qed.

Lemma cache_efficiency_ratios_witness :
  exists m,
    calculate_cache_metrics cache_rows = Exact m /\
    cache_read_tokens m = 500%Z /\
    cache_creation_tokens m = 100%Z /\
    report_input_tokens m = 100%Z /\
    (cache_hit_ratio m == 5 # 6)%Q /\
    (cache_efficiency m == 5 # 6)%Q.
Proof.
  assert (Hrows : forall r, In r cache_rows -> counted r).
  { intros r Hr. cbn in Hr.
    repeat (destruct Hr as [<-|Hr]; [eexists; split; [reflexivity|lia]|]).
    contradiction. }
  destruct (@cache_efficiency_ratios cache_rows Hrows)
    as (m & Hm & H1 & H2 & H3 & H4 & H5);
    try (vm_compute; reflexivity).
  exists m. repeat split; try assumption.
  - rewrite H4. vm_compute. reflexivity.
  - rewrite H5. vm_compute. reflexivity.
Defined.

(* --------------------------------------------------------------------- *)
(** ** More on the block extractor *)
(* --------------------------------------------------------------------- *)

Lemma pieces_concat (s : str) :
  before_first_marker s ++ List.concat (marker_pieces s) = s.
Proof.
  induction s as [|c s IH]; [reflexivity|].
  cbn [before_first_marker marker_pieces].
  destruct (marker_at (c :: s)); cbn [app List.concat piece_at];
    now rewrite IH.
Qed.

(** The header of a marker lies inside its block. *)
Lemma piece_at_marker (s : str) :
  marker_at s = true -> marker_at (piece_at s) = true.
Proof.
  destruct s as [|c r]; [discriminate|]. cbn [marker_at piece_at].
  intros H. apply andb_true_iff in H as [Hc H]. rewrite Hc. cbn [andb].
  apply starts_with_split in H as [t Ht].
  pose proof (take_drop_while is_space r) as Hr. rewrite Ht in Hr.
  rewrite <- Hr.
  rewrite before_first_marker_pass.
  2:{ apply (@forallb_imp _ is_space); [exact space_not_brace|].
      apply take_while_all. }
  rewrite before_first_marker_pass by reflexivity.
  change (of_string "descriptor:" ++ before_first_marker t)
    with ("d"%char :: of_string "escriptor:" ++ before_first_marker t).
  rewrite drop_while_app_stop; [reflexivity | apply take_while_all |
                                reflexivity].
Qed.

Lemma marker_pieces_marked (s : str) :
  Forall (fun b => marker_at b = true) (marker_pieces s).
Proof.
  induction s as [|c s IH]; [constructor|].
  cbn [marker_pieces]. destruct (marker_at (c :: s)) eqn:M; [|exact IH].
  cbn [app]. constructor; [now apply piece_at_marker | exact IH].
Qed.

Lemma marker_at_shape (b : str) :
  marker_at b = true ->
  exists ws rest,
    b = "{"%char :: ws ++ of_string "descriptor:" ++ rest /\
    forallb is_space ws = true.
Proof.
  destruct b as [|c r]; [discriminate|]. cbn [marker_at].
  intros H. apply andb_true_iff in H as [Hc H].
  apply Ascii.eqb_eq in Hc as ->.
  apply starts_with_split in H as [t Ht].
  exists (take_while is_space r), t. split; [|apply take_while_all].
  now rewrite <- Ht, take_drop_while.
Qed.

(** X1.  Splitting the log at the markers loses no text: the blocks, put
    end to end, are the log; and every block after the first begins with
    a marker, an opening brace, white space if any, then [descriptor:]. *)
Theorem split_blocks_cover_log (log : str) :
  List.concat (re_split marker_pattern log) = log /\
  Forall (fun b => exists ws rest,
                     b = "{"%char :: ws ++ of_string "descriptor:" ++ rest /\
                     forallb is_space ws = true)
         (tl (re_split marker_pattern log)).
Proof.
  rewrite re_split_marker. cbn [List.concat tl]. split.
  - apply pieces_concat.
  - eapply Forall_impl; [|apply marker_pieces_marked].
    intros b. apply marker_at_shape.
Qed.

Lemma marker_contains (s : str) :
  marker_at s = true -> contains "descriptor:" s = true.
Proof.
  destruct s as [|c r]; [discriminate|]. cbn [marker_at].
  intros H. apply andb_true_iff in H as [_ H].
  apply starts_with_split in H as [t Ht].
  pose proof (take_drop_while is_space r) as Hr. rewrite Ht in Hr.
  rewrite <- Hr.
  change (c :: take_while is_space r ++ of_string "descriptor:" ++ t)
    with ((c :: take_while is_space r) ++ of_string "descriptor:" ++ t).
  apply contains_app_l, contains_here.
Qed.

Lemma contains_tail (n : str) (c : ascii) (s : str) :
  contains n (c :: s) = false -> contains n s = false.
Proof.
  cbn [contains]. intros H. now apply orb_false_iff in H as [_ H].
Qed.

Lemma no_descriptor_no_marker (s : str) :
  contains "descriptor:" s = false ->
  before_first_marker s = s /\ marker_pieces s = [].
Proof.
  induction s as [|c s IH]; intros H; [now split|].
  destruct (IH (contains_tail _ _ _ H)) as [I1 I2].
  cbn [before_first_marker marker_pieces].
  destruct (marker_at (c :: s)) eqn:M.
  - apply marker_contains in M. congruence.
  - cbn [app]. now rewrite I1, I2.
Qed.

(** X2.  A log in which [descriptor:] does not occur, the empty log
    included, yields no candidate and no metric, whatever braces it holds
    and whatever the strict parser does. *)
Theorem log_without_descriptor (loads : str -> outcome json) (log : str) :
  contains "descriptor:" log = false ->
  candidates log = [] /\
  extract_metrics_from_log loads log = Return [].
Proof.
  intros H. destruct (no_descriptor_no_marker _ H) as [H1 H2].
  assert (C : candidates log = []).
  { unfold candidates. rewrite re_split_marker, H1, H2.
    cbn [flat_map]. unfold candidate_of, metric_str. now rewrite H. }
  split; [exact C|].
  unfold extract_metrics_from_log. rewrite extract_from_blocks_parse_all.
  fold (candidates log). now rewrite C.
Qed.

Lemma log_without_descriptor_witness :
  contains "descriptor:" plain_log = false /\
  candidates plain_log = [] /\
  extract_metrics_from_log JsonRef.loads plain_log = Return [].
Proof.
  split; [reflexivity|].
  apply (@log_without_descriptor JsonRef.loads plain_log). reflexivity.
Defined.

Lemma find_char_split (c : ascii) (s : str) (n : nat) :
  find_char c s = Some n ->
  exists rest, skipn n s = c :: rest.
Proof.
  revert n; induction s as [|x s IH]; intros n; [discriminate|].
  cbn [find_char]. destruct (Ascii.eqb_spec x c) as [->|Hx].
  - intros [= <-]. now exists s.
  - destruct (find_char c s) as [m|]; [|discriminate].
    intros [= <-]. cbn [skipn]. now apply IH.
Qed.

Lemma close_after_le (s : str) :
  forall d m, close_after d s = Some m -> 1 <= m <= List.length s.
Proof.
  induction s as [|x s IH]; intros d m; [discriminate|].
  cbn [close_after List.length].
  assert (Hstep : forall d', option_map S (close_after d' s) = Some m ->
                             1 <= m <= S (List.length s)).
  { intros d' H. destruct (close_after d' s) as [k|] eqn:E; [|discriminate].
    injection H as <-. specialize (IH _ _ E). lia. }
  destruct (Ascii.eqb x "{"); [apply Hstep|].
  destruct (Ascii.eqb x "}"); [|apply Hstep].
  destruct d as [|[|d]]; [intros [= <-]; lia | intros [= <-]; lia |
                          apply Hstep].
Qed.

Lemma close_after_last (s : str) :
  forall d m, close_after d s = Some m ->
              exists a, firstn m s = a ++ ["}"%char].
Proof.
  induction s as [|x s IH]; intros d m; [discriminate|].
  cbn [close_after].
  assert (Hstep : forall d', option_map S (close_after d' s) = Some m ->
                             exists a, firstn m (x :: s) = a ++ ["}"%char]).
  { intros d' H. destruct (close_after d' s) as [k|] eqn:E; [|discriminate].
    injection H as <-. destruct (IH _ _ E) as [a Ha].
    exists (x :: a). cbn [firstn app]. now rewrite Ha. }
  destruct (Ascii.eqb x "{"); [apply Hstep|].
  destruct (Ascii.eqb_spec x "}") as [->|]; [|apply Hstep].
  destruct d as [|[|d]]; [| |apply Hstep];
    intros [= <-]; now exists [].
Qed.

Lemma close_after_count (s : str) :
  forall d m, 1 <= d -> close_after d s = Some m ->
    count_occ ascii_dec (firstn m s) "}"%char
    = count_occ ascii_dec (firstn m s) "{"%char + d.
Proof.
  induction s as [|x s IH]; intros d m Hd; [discriminate|].
  cbn [close_after].
  assert (Hstep : forall d', 1 <= d' ->
            (x = "{"%char -> d' = S d) ->
            (x = "}"%char -> S d' = d) ->
            (x <> "{"%char -> x <> "}"%char -> d' = d) ->
            option_map S (close_after d' s) = Some m ->
            count_occ ascii_dec (firstn m (x :: s)) "}"%char
            = count_occ ascii_dec (firstn m (x :: s)) "{"%char + d).
  { intros d' Hd' Ho Hc Hn H.
    destruct (close_after d' s) as [k|] eqn:E; [|discriminate].
    injection H as <-. cbn [firstn count_occ]. rewrite (IH _ _ Hd' E).
    destruct (ascii_dec x "}") as [E1|N1];
      destruct (ascii_dec x "{") as [E2|N2].
    - congruence.
    - specialize (Hc E1). lia.
    - specialize (Ho E2). lia.
    - specialize (Hn N2 N1). lia. }
  destruct (Ascii.eqb_spec x "{") as [->|N1].
  { apply Hstep; [lia | reflexivity | discriminate | congruence]. }
  destruct (Ascii.eqb_spec x "}") as [->|N2].
  - destruct d as [|[|d]]; [lia | intros [= <-]; reflexivity|].
    apply Hstep; [lia | discriminate | reflexivity | congruence].
  - apply Hstep; [lia | congruence | congruence | reflexivity].
Qed.

(** A text handed to the parser is empty, or runs from an opening brace to
    the brace that matches it. *)
Lemma metric_str_shape (block text : str) :
  metric_str block = Some text ->
  text <> [] ->
  matching_close text = Some (List.length text) /\
  (exists body, text = "{"%char :: body) /\
  (exists a, text = a ++ ["}"%char]) /\
  count_occ ascii_dec text "{"%char = count_occ ascii_dec text "}"%char.
Proof.
  unfold metric_str. destruct (contains "descriptor:" block); [|discriminate].
  destruct (find_char "{" block) as [start|] eqn:F; [|discriminate].
  destruct (find_char_split _ _ F) as [rest Hr]. rewrite Hr.
  cbn [scan_braces]. rewrite Ascii.eqb_refl.
  change (0 + 1)%Z with (Z.of_nat 1). rewrite scan_braces_close by lia.
  unfold slice. rewrite Hr.
  destruct (close_after 1 rest) as [m|] eqn:E; cbn [option_map].
  - replace (S start + m - start) with (S m) by lia.
    intros [= <-] _. cbn [firstn].
    pose proof (close_after_le _ _ E) as Hm.
    destruct (close_after_last _ _ E) as [a Ha].
    assert (Hl : List.length (firstn m rest) = m)
      by (rewrite length_firstn; lia).
    repeat split.
    + cbn [matching_close List.length]. rewrite Ascii.eqb_refl, Hl.
      rewrite (@close_after_firstn rest 1 m (firstn m rest) E);
        [reflexivity|].
      rewrite firstn_firstn. f_equal. lia.
    + now exists (firstn m rest).
    + exists ("{"%char :: a). cbn [app]. now rewrite Ha.
    + cbn [count_occ].
      rewrite (@close_after_count rest 1 m (le_n 1) E).
      destruct (ascii_dec "{" "{") as [_|N]; [|now contradiction N].
      destruct (ascii_dec "{" "}") as [N|_]; [discriminate | lia].
  - rewrite Nat.sub_diag. intros [= <-] H. now contradiction H.
Qed.

(** X3.  Every span the extractor isolates starts with an opening brace,
    ends with a closing brace, holds as many opening as closing braces,
    and is closed exactly by its last character: no shorter beginning of
    it brings the count of open braces back to zero. *)
Theorem spans_are_balanced (log t : str) :
  In t (spans log) ->
  matching_close t = Some (List.length t) /\
  (exists body, t = "{"%char :: body) /\
  (exists a, t = a ++ ["}"%char]) /\
  count_occ ascii_dec t "{"%char = count_occ ascii_dec t "}"%char.
Proof.
  unfold spans, candidates. intros H.
  apply filter_In in H as [H Hne].
  apply in_flat_map in H as (block & _ & Hb).
  unfold candidate_of in Hb.
  destruct (metric_str block) as [text|] eqn:E; [|contradiction].
  destruct Hb as [<-|[]].
  apply (metric_str_shape _ E). now destruct text.
Qed.

Lemma spans_are_balanced_witness :
  In (of_string "{ descriptor: { name: 'b.cost' } }") (spans mixed_log) /\
  matching_close (of_string "{ descriptor: { name: 'b.cost' } }")
  = Some 34.
Proof.
  assert (H : In (of_string "{ descriptor: { name: 'b.cost' } }")
                 (spans mixed_log))
    by (vm_compute; right; left; reflexivity).
  split; [exact H|].
  exact (proj1 (@spans_are_balanced mixed_log _ H)).
Defined.

(* --------------------------------------------------------------------- *)
(** ** More on what a run of statements does *)
(* --------------------------------------------------------------------- *)

Lemma trace_bind_return (A B : Type) (m : io A) (k : A -> io B) (a : A) :
  result m = Return a ->
  trace (Io.bind m k) = trace m ++ trace (k a) /\
  result (Io.bind m k) = result (k a).
Proof.
  destruct m as [t o]. cbn [Io.result snd]. intros ->.
  cbn [Io.bind Io.trace fst]. destruct (k a) as [t2 o2]. now split.
Qed.

Lemma trace_bind_raise (A B : Type) (m : io A) (k : A -> io B) (e : exn) :
  result m = Raise e ->
  trace (Io.bind m k) = trace m /\ result (Io.bind m k) = Raise e.
Proof.
  destruct m as [t o]. cbn [Io.result snd]. intros ->. now split.
Qed.

Lemma result_bind_return (A B : Type) (m : io A) (k : A -> io B) (b : B) :
  result (Io.bind m k) = Return b ->
  exists a, result m = Return a /\ result (k a) = Return b.
Proof.
  destruct (result m) as [a|e] eqn:E.
  - destruct (@trace_bind_return _ _ m k a E) as [_ ->]. intros H. now exists a.
  - destruct (@trace_bind_raise _ _ m k e E) as [_ ->]. discriminate.
Qed.

(** A property of every statement of a call. *)
Lemma all_lift (P : stmt -> Prop) (A : Type) (o : outcome A) :
  Forall P (trace (Io.lift o)).
Proof. constructor. Qed.

Lemma all_ret (P : stmt -> Prop) (A : Type) (a : A) :
  Forall P (trace (Io.ret a)).
Proof. constructor. Qed.

Lemma all_execute (P : stmt -> Prop) (st : stmt) :
  P st -> Forall P (trace (Io.execute st)).
Proof. intros H. now constructor. Qed.

Lemma all_bind (P : stmt -> Prop) (A B : Type) (m : io A) (k : A -> io B) :
  Forall P (trace m) ->
  (forall a, Forall P (trace (k a))) ->
  Forall P (trace (Io.bind m k)).
Proof.
  intros Hm Hk. destruct (result m) as [a|e] eqn:E.
  - destruct (@trace_bind_return _ _ m k a E) as [-> _].
    apply Forall_app. split; [exact Hm | apply Hk].
  - now destruct (@trace_bind_raise _ _ m k e E) as [-> _].
Qed.

Lemma all_for_each (P : stmt -> Prop) (A : Type) (xs : list A)
      (body : A -> io unit) :
  (forall x, Forall P (trace (body x))) ->
  Forall P (trace (Io.for_each xs body)).
Proof.
  intros H. induction xs as [|x xs IH]; [constructor|].
  cbn [Io.for_each]. apply all_bind; [apply H | intros _; exact IH].
Qed.

Ltac trace_step :=
  first
    [ apply all_lift
    | apply all_ret
    | apply all_bind; [|intros ?]
    | apply all_for_each; intros ?
    | match goal with
      | |- Forall _ (trace (if ?b then _ else _)) => destruct b
      | |- Forall _ (trace (let _ := _ in _)) => cbv zeta
      end ].

Lemma all_no_rows (A : Type) (f : stmt -> list A) (tr : list stmt) :
  Forall (fun st => f st = []) tr -> flat_map f tr = [].
Proof.
  induction 1 as [|st tr H _ IH]; [reflexivity|].
  cbn [flat_map]. now rewrite H, IH.
Qed.

(** What the usage tables and the message table hold after a run: what
    they held, then one row per INSERT, in the order of the run. *)
Lemma run_tables (tr : list stmt) :
  forall c : conn,
    token_usage (working (run tr c))
    = token_usage (working c) ++ flat_map token_of tr /\
    cost_usage (working (run tr c))
    = cost_usage (working c) ++ flat_map cost_of tr /\
    active_time (working (run tr c))
    = active_time (working c) ++ flat_map active_of tr /\
    code_activity (working (run tr c))
    = code_activity (working c) ++ flat_map code_of tr /\
    raw_metrics (working (run tr c))
    = raw_metrics (working c) ++ flat_map raw_of tr /\
    session_messages (working (run tr c))
    = session_messages (working c) ++ flat_map message_of tr.
Proof.
  induction tr as [|st tr IH]; intros c.
  - cbn [run fold_left flat_map]. now rewrite !app_nil_r.
  - change (run (st :: tr) c) with (run tr (exec c st)).
    destruct (IH (exec c st)) as (H1 & H2 & H3 & H4 & H5 & H6).
    rewrite H1, H2, H3, H4, H5, H6, exec_working.
    destruct st; cbn [apply_stmt flat_map token_of cost_of active_of code_of
                      raw_of message_of token_usage cost_usage active_time
                      code_activity raw_metrics session_messages app];
      try (destruct (has_session _ _));
      cbn [token_usage cost_usage active_time code_activity raw_metrics
           session_messages];
      rewrite <- ?app_assoc; cbn [app]; repeat split; reflexivity.
Qed.

Lemma extends_refl (A : Type) (l : list A) : extends l l.
Proof. exists []. now rewrite app_nil_r. Qed.

Lemma extends_trans (A : Type) (a b c : list A) :
  extends a b -> extends b c -> extends a c.
Proof.
  intros [x ->] [y ->]. exists (x ++ y). now rewrite app_assoc.
Qed.

Lemma extends_snoc (A : Type) (l : list A) (x : A) : extends l (l ++ [x]).
Proof. now exists [x]. Qed.

Lemma grows_refl (d : db) : grows d d.
Proof. repeat split; apply extends_refl. Qed.

Lemma grows_trans (a b c : db) : grows a b -> grows b c -> grows a c.
Proof.
  intros (A1 & A2 & A3 & A4 & A5 & A6 & A7) (B1 & B2 & B3 & B4 & B5 & B6 & B7).
  repeat split; eapply extends_trans; eassumption.
Qed.

Lemma grows_apply_stmt (st : stmt) (d : db) : grows d (apply_stmt st d).
Proof.
  destruct st; cbn [apply_stmt]; try (destruct (has_session _ _));
    repeat split;
    cbn [sessions token_usage cost_usage active_time code_activity
         raw_metrics session_messages];
    first [apply extends_refl | apply extends_snoc].
Qed.

Lemma run_grows (tr : list stmt) :
  forall c : conn,
    grows (committed c) (working c) ->
    grows (committed c) (committed (run tr c)) /\
    grows (committed (run tr c)) (working (run tr c)).
Proof.
  induction tr as [|st tr IH]; intros c H.
  - split; [apply grows_refl | exact H].
  - change (run (st :: tr) c) with (run tr (exec c st)).
    assert (Hc : grows (committed c) (committed (exec c st)) /\
                 grows (committed (exec c st)) (working (exec c st))).
    { destruct st; cbn [exec committed working];
        try (split; [apply grows_refl |
                     eapply grows_trans; [exact H | apply grows_apply_stmt]]).
      split; [exact H | apply grows_refl]. }
    destruct Hc as [Hc1 Hc2]. destruct (IH _ Hc2) as [I1 I2].
    split; [eapply grows_trans; eassumption | exact I2].
Qed.

(* --------------------------------------------------------------------- *)
(** ** The UNIQUE constraint on sessions *)
(* --------------------------------------------------------------------- *)

Lemma session_keys_app (d : db) (r : session_row) :
  flat_map (fun r => match text_key (s_session_id r) with
                     | Some k => [k]
                     | None => []
                     end) (sessions d ++ [r])
  = session_keys d ++ match text_key (s_session_id r) with
                      | Some k => [k]
                      | None => []
                      end.
Proof.
  unfold session_keys. rewrite flat_map_app. cbn [flat_map].
  now rewrite app_nil_r.
Qed.

Lemma key_has_session (d : db) (sid : sqlval) (k : str) :
  text_key sid = Some k ->
  In k (session_keys d) ->
  has_session sid d = true.
Proof.
  intros Hk H. unfold session_keys in H. apply in_flat_map in H as (r & Hr & Hi).
  unfold has_session. apply existsb_exists. exists r. split; [exact Hr|].
  unfold same_session, sql_eqb. rewrite Hk.
  destruct (text_key (s_session_id r)) as [k'|]; [|contradiction].
  destruct Hi as [->|[]]. apply str_eqb_refl.
Qed.

Lemma apply_stmt_unique (st : stmt) (d : db) :
  unique_sessions d -> unique_sessions (apply_stmt st d).
Proof.
  intros H. destruct st; try exact H. cbn [apply_stmt].
  destruct (has_session (s_session_id r) d) eqn:E; [exact H|].
  unfold unique_sessions, session_keys. cbn [sessions].
  rewrite session_keys_app.
  destruct (text_key (s_session_id r)) as [k|] eqn:K;
    [|now rewrite app_nil_r].
  apply NoDup_app; repeat split.
  - exact H.
  - repeat constructor. intros [].
  - intros x Hx [<-|[]].
    rewrite (key_has_session _ _ K Hx) in E. discriminate.
Qed.

Lemma run_unique (tr : list stmt) :
  forall c : conn,
    unique_sessions (committed c) -> unique_sessions (working c) ->
    unique_sessions (committed (run tr c)) /\
    unique_sessions (working (run tr c)).
Proof.
  induction tr as [|st tr IH]; intros c Hc Hw; [now split|].
  change (run (st :: tr) c) with (run tr (exec c st)).
  apply IH; destruct st; cbn [exec committed working];
    try exact Hc; try exact Hw; now apply apply_stmt_unique.
Qed.

Lemma nodup_unique (l : list str) :
  NoDup l -> nodup str_eq_dec l = l.
Proof. apply nodup_fixed_point. Qed.

(* --------------------------------------------------------------------- *)
(** ** More on [store_metric] *)
(* --------------------------------------------------------------------- *)

Ltac stamp_leaf :=
  first [ apply all_execute; first [exact I | reflexivity] ].

Lemma store_data_point_stamped (name : json) (t : str) (dp : json) :
  Forall (stamped t) (trace (store_data_point name t dp)).
Proof.
  unfold store_data_point, insert_or_ignore_session, insert_token,
    insert_cost, insert_active, insert_code.
  repeat first [stamp_leaf | trace_step].
Qed.

(** X6.  Every statement of one [store_metric] call carries one and the
    same timestamp, the one passed in or, when none or an empty one is
    passed, the time of the call: the archive row, the session row and
    the usage rows of every data point agree on it. *)
Theorem one_timestamp_per_metric (metric : json) (timestamp : option str)
        (now : str) :
  Forall (stamped (timestamp_or timestamp now))
         (trace (store_metric metric timestamp now)).
Proof.
  unfold store_metric, insert_raw.
  repeat first [stamp_leaf | apply store_data_point_stamped | trace_step].
Qed.

Lemma store_data_point_no_raw (name : json) (t : str) (dp : json) :
  Forall (fun st => raw_of st = []) (trace (store_data_point name t dp)).
Proof.
  unfold store_data_point, insert_or_ignore_session, insert_token,
    insert_cost, insert_active, insert_code.
  repeat first [apply all_execute; reflexivity | trace_step].
Qed.

(** X7.  A metric with a descriptor whose name binds is archived first
    and once: the first statement of the call inserts the whole metric
    into [raw_metrics], and no later statement of the call touches that
    table, whatever the data points are and however the call ends. *)
Theorem archive_row_first_and_once
        (mf df : list (str * json)) (n : sqlval)
        (timestamp : option str) (now : str) :
  lookup mf "descriptor" = Some (JObj df) ->
  bind_param (get_or df "name" (JStr "")) = Return n ->
  exists rest,
    trace (store_metric (JObj mf) timestamp now)
    = InsertRaw {| r_timestamp := SqlText (timestamp_or timestamp now);
                   r_metric_name := n;
                   r_raw_json := JObj mf |} :: rest /\
    flat_map raw_of rest = [].
Proof.
  intros Hd Hn. rewrite (store_metric_unfold _ _ _ Hd). cbv zeta.
  unfold insert_raw. rewrite Hn. io_step.
  eexists. split; [reflexivity|].
  apply all_no_rows.
  repeat first [apply all_execute; reflexivity
               | apply store_data_point_no_raw
               | trace_step].
Qed.

Lemma archive_row_first_and_once_witness :
  exists rest,
    trace (store_metric broken_metric None "T0")
    = InsertRaw {| r_timestamp := SqlText "T0";
                   r_metric_name := SqlText "claude_code.token.usage";
                   r_raw_json := broken_metric |} :: rest /\
    flat_map raw_of rest = [].
Proof.
  apply (@archive_row_first_and_once
           _ [(of_string "name", JStr "claude_code.token.usage")]
           (SqlText "claude_code.token.usage") None "T0");
    reflexivity.
Defined.

Lemma raise_bind (A B : Type) (m : io A) (k : A -> io B) (e : exn) :
  ~ In Commit (trace m) ->
  (forall a, result (k a) = Raise e -> ~ In Commit (trace (k a))) ->
  result (Io.bind m k) = Raise e ->
  ~ In Commit (trace (Io.bind m k)).
Proof.
  intros Hm Hk. destruct (result m) as [a|x] eqn:E.
  - destruct (@trace_bind_return _ _ m k a E) as [-> ->].
    intros H I. apply in_app_or in I as [I|I]; [now apply Hm|].
    now apply (Hk a H).
  - destruct (@trace_bind_raise _ _ m k x E) as [-> _]. intros _. exact Hm.
Qed.

Lemma store_metric_raise_no_commit (metric : json) (timestamp : option str)
      (now : str) (e : exn) :
  result (store_metric metric timestamp now) = Raise e ->
  ~ In Commit (trace (store_metric metric timestamp now)).
Proof.
  unfold store_metric.
  apply raise_bind; [no_commit | intros absent].
  destruct absent; [discriminate|].
  do 3 (apply raise_bind; [no_commit | intros ?]).
  apply raise_bind; [unfold insert_raw; no_commit | intros _].
  apply raise_bind; [no_commit | intros dps].
  apply raise_bind.
  - apply no_commit_for_each. intros dp. apply no_commit_store_data_point.
  - intros _. discriminate.
Qed.

(** X8.  A [store_metric] call that raises commits nothing: the rows it
    inserted before the failure, the archive row included, stay pending
    and the durable store is what it was. *)
Theorem failed_metric_leaves_store (c : conn) (metric : json)
        (timestamp : option str) (now : str) (e : exn) :
  result (store_metric metric timestamp now) = Raise e ->
  ~ In Commit (trace (store_metric metric timestamp now)) /\
  committed (run (trace (store_metric metric timestamp now)) c)
  = committed c.
Proof.
  intros H. pose proof (store_metric_raise_no_commit _ _ _ H) as N.
  split; [exact N | now apply run_no_commit].
Qed.

Lemma failed_metric_leaves_store_witness :
  let call := store_metric broken_metric None "T0" in
  result call = Raise BindingError /\
  List.length (trace call) = 4 /\
  committed (run (trace call) (connect empty_db)) = empty_db.
Proof.
  assert (H : result (store_metric broken_metric None "T0")
              = Raise BindingError) by reflexivity.
  split; [exact H|]. split; [reflexivity|].
  exact (proj2 (@failed_metric_leaves_store
                  (connect empty_db) broken_metric None "T0" _ H)).
Defined.

Lemma store_metric_settles (c : conn) (metric : json)
      (timestamp : option str) (now : str) :
  result (store_metric metric timestamp now) = Return tt ->
  settled c ->
  settled (run (trace (store_metric metric timestamp now)) c).
Proof.
  intros H Hc. destruct (no_descriptor metric) as [[|]|e] eqn:N.
  - unfold store_metric. rewrite N. io_step. exact Hc.
  - destruct (store_metric_ends_with_commit _ _ _ N H) as [body ->].
    rewrite run_app. reflexivity.
  - unfold store_metric in H. rewrite N in H. discriminate.
Qed.

Lemma store_all_settles (clock : nat -> str) (metrics : list json) :
  forall (i : nat) (c : conn),
    result (store_all clock i metrics) = Return tt ->
    settled c ->
    settled (run (trace (store_all clock i metrics)) c).
Proof.
  induction metrics as [|m ms IH]; intros i c H Hc; [exact Hc|].
  cbn [store_all] in *.
  apply result_bind_return in H as H'. destruct H' as ([] & H1 & H2).
  destruct (@trace_bind_return _ _ (store_metric m None (clock i))
              (fun _ => store_all clock (S i) ms) tt H1) as [-> _].
  rewrite run_app. apply IH; [exact H2|].
  now apply store_metric_settles.
Qed.

(** X9.  A [parse_log_file] run that returns leaves nothing pending: on a
    connection with nothing pending before, every row the run inserted is
    durable when it ends. *)
Theorem ingestion_leaves_nothing_pending
        (loads : str -> outcome json) (content : str) (clock : nat -> str)
        (c : conn) :
  result (parse_log_file loads content clock) = Return tt ->
  settled c ->
  settled (run (trace (parse_log_file loads content clock)) c).
Proof.
  unfold parse_log_file.
  destruct (extract_metrics_from_log loads content) as [ms|e]; io_step.
  - apply store_all_settles.
  - discriminate.
Qed.

Lemma ingestion_leaves_nothing_pending_witness :
  let tr := trace (parse_log_file JsonRef.loads two_metric_log
                                  (fun _ => of_string "T0")) in
  settled (run tr (connect empty_db)) /\
  List.length (token_usage (committed (run tr (connect empty_db)))) = 1.
Proof.
  split; [|reflexivity].
  apply (@ingestion_leaves_nothing_pending
           JsonRef.loads two_metric_log (fun _ => of_string "T0")
           (connect empty_db)); reflexivity.
Defined.

(** X10.  An exception in one metric stops the ingestion there.  When the
    metrics before it were stored and [store_metric] raises on it, the
    run ends with that exception after the statements of that metric; no
    later metric is looked at; and on a connection with nothing pending
    before, the durable store is the one the earlier metrics left: they
    stay, the failing metric leaves nothing. *)
Theorem ingestion_stops_at_failure
        (clock : nat -> str) (ms1 ms2 : list json) (m : json) (e : exn)
        (c : conn) :
  result (store_all clock 0 ms1) = Return tt ->
  result (store_metric m None (clock (List.length ms1))) = Raise e ->
  settled c ->
  let before := trace (store_all clock 0 ms1) in
  let failing := trace (store_metric m None (clock (List.length ms1))) in
  store_all clock 0 (ms1 ++ m :: ms2) = (before ++ failing, Raise e) /\
  committed (run (before ++ failing) c) = working (run before c).
Proof.
  intros H1 Hm Hc. cbv zeta. split.
  - rewrite (@store_all_app clock ms1 (m :: ms2) 0 H1).
    cbn [Nat.add store_all].
    destruct (@trace_bind_raise _ _
                (store_metric m None (clock (List.length ms1)))
                (fun _ => store_all clock (S (List.length ms1)) ms2) e Hm)
      as [-> ->].
    reflexivity.
  - rewrite run_app.
    rewrite run_no_commit by now apply store_metric_raise_no_commit with e.
    now apply store_all_settles.
Qed.

Lemma ingestion_stops_at_failure_witness :
  let clock := fun _ : nat => of_string "T0" in
  result (store_all clock 0 [token_metric; broken_metric; cost_metric])
  = Raise BindingError /\
  cost_usage
    (working (run (trace (store_all clock 0
                            [token_metric; broken_metric; cost_metric]))
                  (connect empty_db)))
  = [] /\
  List.length
    (token_usage
       (committed (run (trace (store_all clock 0
                                 [token_metric; broken_metric; cost_metric]))
                       (connect empty_db))))
  = 1.
Proof.
  destruct (@ingestion_stops_at_failure
              (fun _ => of_string "T0") [token_metric] [cost_metric]
              broken_metric BindingError (connect empty_db)
              eq_refl eq_refl eq_refl) as [E C].
  cbv zeta. cbn [app] in E. rewrite E. cbn [Io.result Io.trace fst snd].
  split; [reflexivity|]. split; [reflexivity|].
  rewrite C. reflexivity.
Defined.

(* --------------------------------------------------------------------- *)
(** ** Usage rows and their sessions *)
(* --------------------------------------------------------------------- *)

Lemma announced_app (a b : list stmt) :
  announced a -> announced b -> announced (a ++ b).
Proof.
  intros Ha Hb x st y sid E U.
  apply app_eq_app in E as [l [[-> E]|[-> E]]].
  - destruct l as [|st' l].
    + cbn [app] in E. subst b.
      destruct (Hb [] st y sid eq_refl U) as (r & [] & _).
    + cbn [app] in E. injection E as <- Ey.
      exact (Ha x st l sid eq_refl U).
  - destruct (Hb l st y sid E U) as (r & Hr & Hs).
    exists r. split; [apply in_or_app; now right | exact Hs].
Qed.

Lemma announced_quiet (tr : list stmt) :
  Forall (fun st => usage_session st = None) tr -> announced tr.
Proof.
  intros H x st y sid -> U.
  apply Forall_app in H as [_ H]. inversion H as [|? ? H0 _]; subst.
  congruence.
Qed.

Lemma announced_bind (A B : Type) (m : io A) (k : A -> io B) :
  announced (trace m) ->
  (forall a, announced (trace (k a))) ->
  announced (trace (Io.bind m k)).
Proof.
  intros Hm Hk. destruct (result m) as [a|e] eqn:E.
  - destruct (@trace_bind_return _ _ m k a E) as [-> _].
    apply announced_app; [exact Hm | apply Hk].
  - now destruct (@trace_bind_raise _ _ m k e E) as [-> _].
Qed.

Lemma announced_for_each (A : Type) (xs : list A) (body : A -> io unit) :
  (forall x, announced (trace (body x))) ->
  announced (trace (Io.for_each xs body)).
Proof.
  intros H. induction xs as [|x xs IH].
  - apply announced_quiet. constructor.
  - cbn [Io.for_each]. apply announced_bind; [apply H | intros _; exact IH].
Qed.

Lemma announced_pair (r : session_row) (u : stmt) :
  usage_session u = Some (s_session_id r) ->
  announced [InsertOrIgnoreSession r; u].
Proof.
  intros Hu x st y sid E U.
  destruct x as [|x0 [|x1 x]]; cbn [app] in E.
  - injection E as <- _. discriminate.
  - injection E as <- <- _. exists r. split; [now left | congruence].
  - injection E as _ _ E. now destruct x.
Qed.

(** The statements of one data point: nothing, the session row, or the
    session row and one usage row for that session. *)
Lemma store_data_point_shape (name : json) (t : str) (dp : json) :
  trace (store_data_point name t dp) = [] \/
  exists r,
    trace (store_data_point name t dp) = [InsertOrIgnoreSession r] \/
    exists u,
      trace (store_data_point name t dp) = [InsertOrIgnoreSession r; u] /\
      usage_session u = Some (s_session_id r).
Proof.
  unfold store_data_point, insert_or_ignore_session, insert_token,
    insert_cost, insert_active, insert_code.
  repeat first
    [ progress io_step
    | match goal with
      | |- context [Io.lift ?o] =>
          lazymatch o with
          | Return _ => fail
          | Raise _ => fail
          | _ => destruct o
          end
      | |- context [if ?b then _ else _] => destruct b
      end
    | progress cbv zeta ];
    try (left; reflexivity);
    right; eexists; first
      [ left; reflexivity
      | right; eexists; split; reflexivity ].
Qed.

Lemma store_data_point_announced (name : json) (t : str) (dp : json) :
  announced (trace (store_data_point name t dp)).
Proof.
  destruct (store_data_point_shape name t dp) as [->|[r [->|[u [-> Hu]]]]].
  - apply announced_quiet. constructor.
  - apply announced_quiet. repeat constructor.
  - now apply announced_pair.
Qed.

Lemma store_metric_announced (metric : json) (timestamp : option str)
      (now : str) :
  announced (trace (store_metric metric timestamp now)).
Proof.
  unfold store_metric.
  apply announced_bind; [apply announced_quiet; constructor | intros absent].
  destruct absent; [apply announced_quiet; constructor|].
  do 3 (apply announced_bind; [apply announced_quiet; constructor
                              | intros ?]).
  apply announced_bind.
  { apply announced_quiet. unfold insert_raw.
    repeat first [apply all_execute; reflexivity | trace_step]. }
  intros _.
  apply announced_bind; [apply announced_quiet; constructor | intros dps].
  apply announced_bind.
  - apply announced_for_each. intros dp. apply store_data_point_announced.
  - intros _. apply announced_quiet. repeat constructor.
Qed.

Lemma has_session_after_insert (r : session_row) (d : db) :
  text_key (s_session_id r) <> None ->
  has_session (s_session_id r) (apply_stmt (InsertOrIgnoreSession r) d)
  = true.
Proof.
  intros Hk. cbn [apply_stmt].
  destruct (has_session (s_session_id r) d) eqn:E; [exact E|].
  unfold has_session. cbn [sessions]. rewrite existsb_app. cbn [existsb].
  unfold same_session at 2. unfold sql_eqb.
  destruct (text_key (s_session_id r)) as [k|]; [|now contradiction Hk].
  rewrite str_eqb_refl. now rewrite orb_true_r.
Qed.

Lemma announced_run (tr : list stmt) (c : conn) (st : stmt) (sid : sqlval) :
  announced tr ->
  In st tr ->
  usage_session st = Some sid ->
  text_key sid <> None ->
  has_session sid (working (run tr c)) = true.
Proof.
  intros Ha Hin U K.
  apply in_split in Hin as (a & b & ->).
  destruct (Ha a st b sid eq_refl U) as (r & Hr & <-).
  apply in_split in Hr as (a1 & a2 & ->).
  rewrite <- app_assoc. cbn [app]. rewrite run_app.
  change (run (InsertOrIgnoreSession r :: a2 ++ st :: b) (run a1 c))
    with (run (a2 ++ st :: b)
              (exec (run a1 c) (InsertOrIgnoreSession r))).
  apply run_sessions. rewrite exec_working.
  now apply has_session_after_insert.
Qed.

(** X11.  Every usage row a [store_metric] call inserts refers to a
    session that [sessions] holds when the call ends, unless its session
    id is NULL: the session row is offered before the usage row, and no
    statement removes it. *)
Theorem usage_rows_have_sessions
        (c : conn) (metric : json) (timestamp : option str) (now : str)
        (st : stmt) (sid : sqlval) :
  In st (trace (store_metric metric timestamp now)) ->
  usage_session st = Some sid ->
  text_key sid <> None ->
  has_session sid (working (run (trace (store_metric metric timestamp now))
                                c))
  = true.
Proof. apply announced_run, store_metric_announced. Qed.

Lemma usage_rows_have_sessions_witness :
  has_session (SqlText "s1")
    (working (run (trace (store_metric broken_metric None "T0"))
                  (connect empty_db)))
  = true.
Proof.
  apply (@usage_rows_have_sessions
           (connect empty_db) broken_metric None "T0"
           (InsertToken {| t_session_id := SqlText "s1";
                           t_timestamp := SqlText "T0";
                           t_model := SqlText "unknown";
                           t_token_type := SqlText "output";
                           t_value := SqlInt 42 |}) (SqlText "s1")).
  - vm_compute. right. right. left. reflexivity.
  - reflexivity.
  - discriminate.
Defined.

(* --------------------------------------------------------------------- *)
(** ** The summary of [parse_log_file] *)
(* --------------------------------------------------------------------- *)

Lemma session_keys_extend (d d' : db) :
  extends (sessions d) (sessions d') ->
  List.length (session_keys d) <= List.length (session_keys d').
Proof.
  intros [added H]. unfold session_keys. rewrite H, flat_map_app.
  rewrite length_app. lia.
Qed.

(** X12.  The summary [parse_log_file] prints counts the whole store, not
    the log just read: on a store that satisfies the UNIQUE constraint,
    the session count is the number of rows of [sessions] with a non-NULL
    id, never less than before the run, and the token and cost counts are
    the rows found plus one per INSERT of the run. *)
Theorem summary_counts_whole_store
        (loads : str -> outcome json) (content : str) (clock : nat -> str)
        (d : db) (s : summary) :
  unique_sessions d ->
  parse_log_file_summary loads content clock d = Return s ->
  let tr := trace (parse_log_file loads content clock) in
  session_count s
  = List.length (session_keys (working (run tr (connect d)))) /\
  List.length (session_keys d) <= session_count s /\
  token_count s
  = List.length (token_usage d) + List.length (flat_map token_of tr) /\
  cost_count s
  = List.length (cost_usage d) + List.length (flat_map cost_of tr).
Proof.
  intros U H tr. unfold parse_log_file_summary in H. fold tr in H.
  destruct (result (parse_log_file loads content clock)); [|discriminate].
  injection H as <-. unfold log_summary.
  cbn [session_count token_count cost_count].
  destruct (run_unique tr (connect d) U U) as [_ Uw].
  destruct (run_tables tr (connect d)) as (T & C & _).
  destruct (run_grows tr (connect d) (grows_refl d)) as [G1 G2].
  pose proof (grows_trans G1 G2) as (S & _).
  unfold count_distinct_sessions. rewrite (nodup_unique Uw).
  repeat split.
  - now apply session_keys_extend.
  - rewrite T, length_app. reflexivity.
  - rewrite C, length_app. reflexivity.
Qed.

Lemma summary_counts_whole_store_witness :
  exists s,
    parse_log_file_summary JsonRef.loads two_metric_log
                           (fun _ => of_string "T0") store_with_session
    = Return s /\
    session_count s = 1 /\ token_count s = 1 /\ cost_count s = 1.
Proof.
  eexists. split; [reflexivity|].
  destruct (@summary_counts_whole_store
              JsonRef.loads two_metric_log (fun _ => of_string "T0")
              store_with_session _
              ltac:(repeat constructor; intros [])
              eq_refl) as (H1 & _ & H3 & H4).
  split; [|split]; [rewrite H1 | rewrite H3 | rewrite H4]; reflexivity.
Defined.

(* --------------------------------------------------------------------- *)
(** ** More on [merge_data] *)
(* --------------------------------------------------------------------- *)

Lemma merge_entry_message_only (sid : str) (entry : json) :
  Forall (fun st => message_only st = true) (trace (merge_entry sid entry)).
Proof.
  unfold merge_entry, insert_message.
  repeat first [apply all_execute; reflexivity | trace_step].
Qed.

Lemma merge_data_message_only (loads : str -> outcome json)
      (files : list session_file) :
  Forall (fun st => message_only st = true) (trace (merge_data loads files)).
Proof.
  destruct files as [|f files]; [constructor|].
  unfold merge_data, merge_file.
  repeat first [apply all_execute; reflexivity
               | apply merge_entry_message_only
               | trace_step].
Qed.

Lemma message_only_sessions (tr : list stmt) :
  Forall (fun st => message_only st = true) tr ->
  forall c, sessions (working (run tr c)) = sessions (working c).
Proof.
  induction 1 as [|st tr H _ IH]; intros c; [reflexivity|].
  change (run (st :: tr) c) with (run tr (exec c st)).
  rewrite IH, exec_working. now destruct st.
Qed.

Lemma message_only_quiet (A : Type) (f : stmt -> list A) (tr : list stmt) :
  (forall st, message_only st = true -> f st = []) ->
  Forall (fun st => message_only st = true) tr ->
  flat_map f tr = [].
Proof.
  intros Hf H. apply all_no_rows. revert H. apply Forall_impl. exact Hf.
Qed.

Lemma store_data_point_no_message (name : json) (t : str) (dp : json) :
  Forall (fun st => message_of st = []) (trace (store_data_point name t dp)).
Proof.
  unfold store_data_point, insert_or_ignore_session, insert_token,
    insert_cost, insert_active, insert_code.
  repeat first [apply all_execute; reflexivity | trace_step].
Qed.

Lemma store_all_no_message (clock : nat -> str) (metrics : list json) :
  forall i, Forall (fun st => message_of st = [])
                   (trace (store_all clock i metrics)).
Proof.
  induction metrics as [|m ms IH]; intros i; [constructor|].
  cbn [store_all]. apply all_bind; [|intros _; apply IH].
  unfold store_metric, insert_raw.
  repeat first [apply all_execute; reflexivity
               | apply store_data_point_no_message
               | trace_step].
Qed.

(** X13.  The two writers keep to their own tables.  [merge_data] changes
    [session_messages] only: the sessions, the four usage tables and the
    archive are what they were.  [parse_log_file] never touches
    [session_messages]. *)
Theorem writers_keep_to_their_tables
        (loads : str -> outcome json) (files : list session_file)
        (content : str) (clock : nat -> str) (c : conn) :
  (let c' := run (trace (merge_data loads files)) c in
   sessions (working c') = sessions (working c) /\
   token_usage (working c') = token_usage (working c) /\
   cost_usage (working c') = cost_usage (working c) /\
   active_time (working c') = active_time (working c) /\
   code_activity (working c') = code_activity (working c) /\
   raw_metrics (working c') = raw_metrics (working c)) /\
  session_messages
    (working (run (trace (parse_log_file loads content clock)) c))
  = session_messages (working c).
Proof.
  split.
  - pose proof (merge_data_message_only loads files) as M.
    destruct (run_tables (trace (merge_data loads files)) c)
      as (T & C & A & K & R & _).
    cbv zeta. rewrite T, C, A, K, R.
    rewrite (@message_only_quiet _ token_of _) by
      (first [exact M | intros []; (reflexivity || discriminate)]).
    rewrite (@message_only_quiet _ cost_of _) by
      (first [exact M | intros []; (reflexivity || discriminate)]).
    rewrite (@message_only_quiet _ active_of _) by
      (first [exact M | intros []; (reflexivity || discriminate)]).
    rewrite (@message_only_quiet _ code_of _) by
      (first [exact M | intros []; (reflexivity || discriminate)]).
    rewrite (@message_only_quiet _ raw_of _) by
      (first [exact M | intros []; (reflexivity || discriminate)]).
    rewrite !app_nil_r.
    repeat split. now apply message_only_sessions.
  - destruct (run_tables (trace (parse_log_file loads content clock)) c)
      as (_ & _ & _ & _ & _ & ->).
    rewrite all_no_rows; [apply app_nil_r|].
    unfold parse_log_file. apply all_bind; [apply all_lift|].
    intros ms. apply store_all_no_message.
Qed.

Lemma no_commit_of_message_body (sid : str) (entry : json) :
  ~ In Commit (trace (merge_entry sid entry)).
Proof. unfold merge_entry, insert_message. no_commit. Qed.

Lemma no_commit_merge_files (loads : str -> outcome json)
      (files : list session_file) :
  ~ In Commit (trace (Io.for_each files (merge_file loads))).
Proof.
  apply no_commit_for_each. intros f. unfold merge_file.
  apply no_commit_bind; [apply no_commit_lift | intros entries].
  apply no_commit_for_each. intros e. apply no_commit_of_message_body.
Qed.

Lemma in_firstn (A : Type) (x : A) (k : nat) (l : list A) :
  In x (firstn k l) -> In x l.
Proof.
  intros H. rewrite <- (firstn_skipn k l). apply in_or_app. now left.
Qed.

(** The statements of [merge_data]: the INSERTs of the files, then, when
    all of them went through, the commit. *)
Lemma merge_data_trace (loads : str -> outcome json)
      (files : list session_file) :
  let body := trace (Io.for_each files (merge_file loads)) in
  ~ In Commit body /\
  match result (merge_data loads files) with
  | Return _ =>
      trace (merge_data loads files)
      = match files with [] => [] | _ :: _ => body ++ [Commit] end
  | Raise _ => trace (merge_data loads files) = body
  end.
Proof.
  cbv zeta. split; [apply no_commit_merge_files|].
  destruct files as [|f files]; [reflexivity|].
  unfold merge_data.
  destruct (result (Io.for_each (f :: files) (merge_file loads)))
    as [[]|e] eqn:E.
  - destruct (@trace_bind_return _ _ _ (fun _ => Io.execute Commit) tt E)
      as [-> ->]. reflexivity.
  - destruct (@trace_bind_raise _ _ _ (fun _ => Io.execute Commit) e E)
      as [-> ->]. reflexivity.
Qed.

(** X14.  [merge_data] is all or nothing.  No row it inserts is durable
    before its last statement; when it raises, the durable store is what
    it was, whatever was inserted before the failure; when it returns
    after finding files, every row it inserted is durable. *)
Theorem merge_is_all_or_nothing
        (loads : str -> outcome json) (files : list session_file)
        (c : conn) :
  let call := merge_data loads files in
  (forall k, k < List.length (trace call) ->
             committed (run (firstn k (trace call)) c) = committed c) /\
  (forall e, result call = Raise e ->
             committed (run (trace call) c) = committed c) /\
  (result call = Return tt -> files <> [] ->
   committed (run (trace call) c) = working (run (trace call) c)).
Proof.
  cbv zeta. destruct (merge_data_trace loads files) as [N H].
  destruct (result (merge_data loads files)) as [[]|e] eqn:E.
  - repeat split.
    + intros k Hk. apply run_no_commit. rewrite H in *.
      destruct files as [|f files]; [now destruct k|].
      rewrite length_app in Hk. cbn [List.length] in Hk.
      rewrite firstn_app.
      replace (k - List.length _) with 0 by lia.
      cbn [firstn]. rewrite app_nil_r. intros I. apply N.
      now apply in_firstn in I.
    + discriminate.
    + intros _ Hf. rewrite H. destruct files as [|f files];
        [now contradiction Hf|].
      now rewrite run_app.
  - repeat split.
    + intros k _. apply run_no_commit. rewrite H. intros I. apply N.
      now apply in_firstn in I.
    + intros _ _. apply run_no_commit. now rewrite H.
    + discriminate.
Qed.

Lemma merge_is_all_or_nothing_witness :
  let call := merge_data JsonRef.loads [good_transcript; bad_transcript] in
  result call = Raise AttributeError /\
  List.length (trace call) = 3 /\
  committed (run (trace call) (connect empty_db)) = empty_db.
Proof.
  assert (H : result (merge_data JsonRef.loads
                                 [good_transcript; bad_transcript])
              = Raise AttributeError) by reflexivity.
  split; [exact H|]. split; [reflexivity|].
  exact (proj1 (proj2 (@merge_is_all_or_nothing
                         JsonRef.loads [good_transcript; bad_transcript]
                         (connect empty_db))) _ H).
Defined.

(* --------------------------------------------------------------------- *)
(** ** The rows of [merge_data] *)
(* --------------------------------------------------------------------- *)

Lemma preview_cases (content v : json) :
  preview_of content = Return v ->
  (exists s, v = JStr s /\ List.length s <= 200) \/ (exists l, v = JArr l).
Proof.
  unfold preview_of. destruct (truthy content).
  - destruct content as [| | | |s|l|]; try discriminate; intros H.
    + left. exists (firstn 200 s). split; [congruence|].
      rewrite length_firstn. lia.
    + right. exists (firstn 200 l). congruence.
  - intros [= <-]. left. exists []. split; [reflexivity | cbn; lia].
Qed.

Lemma preview_bound (content v : json) (p : sqlval) :
  preview_of content = Return v ->
  bind_param v = Return p ->
  exists s, p = SqlText s /\ List.length s <= 200.
Proof.
  intros H B. apply preview_cases in H as [(s & -> & Hs)|(l & ->)].
  - injection B as <-. now exists s.
  - discriminate.
Qed.

(** One entry: no statement and an exception, or one message row. *)
Lemma merge_entry_shape (sid : str) (entry : json) :
  (exists e, merge_entry sid entry = ([], Raise e)) \/
  (exists row p,
     merge_entry sid entry = ([InsertMessage row], Return tt) /\
     m_session_id row = SqlText sid /\
     m_timestamp row = SqlNull /\
     m_content_preview row = SqlText p /\
     List.length p <= 200).
Proof.
  unfold merge_entry, insert_message.
  repeat first
    [ progress io_step
    | match goal with
      | |- context [Io.lift ?o] =>
          lazymatch o with
          | Return _ => fail
          | Raise _ => fail
          | _ => destruct o eqn:?
          end
      end
    | progress cbv zeta ];
    try (left; eexists; reflexivity).
  right.
  match goal with
  | H : preview_of _ = Return ?v, B : bind_param ?v = Return ?p |- _ =>
      destruct (preview_bound _ H B) as (s & -> & Hs)
  end.
  eexists. exists s. repeat split. exact Hs.
Qed.

Lemma all_for_each_in (P : stmt -> Prop) (A : Type) (xs : list A)
      (body : A -> io unit) :
  (forall x, In x xs -> Forall P (trace (body x))) ->
  Forall P (trace (Io.for_each xs body)).
Proof.
  induction xs as [|x xs IH]; intros H; [constructor|].
  cbn [Io.for_each]. apply all_bind; [apply H; now left|].
  intros _. apply IH. intros y Hy. apply H. now right.
Qed.

Lemma merge_files_rows (loads : str -> outcome json)
      (files : list session_file) :
  Forall (fun st =>
            forall r, st = InsertMessage r ->
              (exists f, In f files /\ m_session_id r = SqlText (stem f)) /\
              m_timestamp r = SqlNull /\
              exists p, m_content_preview r = SqlText p /\
                        List.length p <= 200)
         (trace (Io.for_each files (merge_file loads))).
Proof.
  apply all_for_each_in. intros f Hf. unfold merge_file.
  apply all_bind; [apply all_lift | intros entries].
  apply all_for_each. intros e.
  destruct (merge_entry_shape (stem f) e)
    as [[x ->]|(r0 & p & -> & Hs & Ht & Hp & Hl)]; [constructor|].
  constructor; [|constructor]. intros row' E. injection E as <-.
  split; [now exists f|]. split; [exact Ht | now exists p].
Qed.

(** X15.  Every message row [merge_data] inserts carries the stem of one
    of the files as its session id, a NULL timestamp, and as preview a
    text of at most 200 characters. *)
Theorem message_rows_of_merge
        (loads : str -> outcome json) (files : list session_file)
        (row : message_row) :
  In (InsertMessage row) (trace (merge_data loads files)) ->
  (exists f, In f files /\ m_session_id row = SqlText (stem f)) /\
  m_timestamp row = SqlNull /\
  exists p, m_content_preview row = SqlText p /\ List.length p <= 200.
Proof.
  intros I. pose proof (merge_files_rows loads files) as H.
  rewrite Forall_forall in H. apply (H (InsertMessage row)); [|reflexivity].
  destruct (merge_data_trace loads files) as [_ T].
  destruct (result (merge_data loads files)); rewrite T in I;
    [|exact I].
  destruct files as [|f files]; [contradiction|].
  apply in_app_or in I as [I|[I|[]]]; [exact I | discriminate].
Qed.

Lemma message_rows_of_merge_witness :
  exists row,
    In (InsertMessage row) (trace (merge_data JsonRef.loads [good_transcript]))
    /\ m_session_id row = SqlText "session-7"
    /\ m_timestamp row = SqlNull.
Proof.
  eexists. 
  assert (I : In (InsertMessage
                    {| m_session_id := SqlText "session-7";
                       m_timestamp := SqlNull;
                       m_role := SqlText "user";
                       m_content_preview := SqlText "hi";
                       m_tool_use := SqlNull;
                       m_usage_input_tokens := SqlInt 0;
                       m_usage_output_tokens := SqlInt 0;
                       m_usage_cache_read := SqlInt 0;
                       m_usage_cache_creation := SqlInt 0 |})
                 (trace (merge_data JsonRef.loads [good_transcript])))
    by (vm_compute; left; reflexivity).
  split; [exact I|]. split; [reflexivity|].
  exact (proj1 (proj2 (@message_rows_of_merge
                         JsonRef.loads [good_transcript] _ I))).
Defined.

Lemma for_each_count (A : Type) (g : A -> nat) (body : A -> io unit)
      (xs : list A) :
  (forall x, result (body x) = Return tt ->
             List.length (flat_map message_of (trace (body x))) = g x) ->
  result (Io.for_each xs body) = Return tt ->
  List.length (flat_map message_of (trace (Io.for_each xs body)))
  = list_sum (map g xs).
Proof.
  intros Hg. induction xs as [|x xs IH]; intros H; [reflexivity|].
  cbn [Io.for_each] in *.
  apply result_bind_return in H as H'. destruct H' as ([] & H1 & H2).
  destruct (@trace_bind_return _ _ (body x)
              (fun _ => Io.for_each xs body) tt H1) as [-> _].
  rewrite flat_map_app, length_app, (Hg _ H1), (IH H2). reflexivity.
Qed.

Lemma merge_file_count (loads : str -> outcome json) (f : session_file) :
  result (merge_file loads f) = Return tt ->
  List.length (flat_map message_of (trace (merge_file loads f)))
  = List.length (entries_of loads f).
Proof.
  unfold merge_file, entries_of.
  destruct (parse_session_jsonl loads (lines f)) as [es|e]; io_step;
    [|discriminate].
  intros H.
  rewrite (@for_each_count _ (fun _ => 1) (merge_entry (stem f)) es); auto.
  - clear H. induction es as [|e es IH]; simpl; congruence.
  - intros e He.
    destruct (merge_entry_shape (stem f) e) as [[x E]|(r & p & E & _)];
      rewrite E in *; [discriminate | reflexivity].
Qed.

Lemma merge_data_count (loads : str -> outcome json)
      (files : list session_file) :
  result (merge_data loads files) = Return tt ->
  total_entries loads files
  = List.length (flat_map (entries_of loads) files).
Proof.
  unfold total_entries. intros H.
  destruct files as [|f files]; [reflexivity|].
  unfold merge_data in *. remember (f :: files) as fs eqn:Efs. clear Efs.
  apply result_bind_return in H as H'. destruct H' as ([] & H1 & _).
  destruct (@trace_bind_return _ _ (Io.for_each fs (merge_file loads))
              (fun _ => Io.execute Commit) tt H1) as [-> _].
  rewrite flat_map_app, length_app. cbn [Io.execute Io.trace fst flat_map
                                          message_of app List.length].
  rewrite Nat.add_0_r.
  rewrite (@for_each_count _ (fun f => List.length (entries_of loads f))
             (merge_file loads) fs); auto.
  - symmetry. apply length_flat_map.
  - intros x. apply merge_file_count.
Qed.






(** X16.  A [merge_data] run that returns inserts exactly one message row
    per entry parsed from the files, and nothing keeps a second run from
    inserting them again: after two runs on the same files the table
    holds what it held, then the rows of the run twice over. *)
Theorem merge_twice_duplicates
        (loads : str -> outcome json) (files : list session_file) (d : db) :
  result (merge_data loads files) = Return tt ->
  files <> [] ->
  let rows := flat_map message_of (trace (merge_data loads files)) in
  total_entries loads files
  = List.length (flat_map (entries_of loads) files) /\
  session_messages (merge_run loads files d)
  = session_messages d ++ rows /\
  session_messages (merge_run loads files (merge_run loads files d))
  = session_messages d ++ rows ++ rows.
Proof.
  intros H Hf rows. split; [now apply merge_data_count|].
  assert (R : forall d0, session_messages (merge_run loads files d0)
                         = session_messages d0 ++ rows).
  { intros d0. unfold merge_run.
    destruct (merge_data_trace loads files) as [_ T]. rewrite H in T.
    destruct files as [|f files]; [now contradiction Hf|].
    rewrite T at 1. rewrite run_app. cbn [run fold_left exec committed].
    rewrite <- (app_nil_r rows). 
    replace (@nil message_row) with (flat_map message_of [Commit])
      by reflexivity.
    unfold rows. rewrite T, flat_map_app.
    destruct (run_tables
                (trace (Io.for_each (f :: files) (merge_file loads)))
                (connect d0)) as (_ & _ & _ & _ & _ & ->).
    cbn [flat_map message_of app]. now rewrite !app_nil_r. }
  split; [apply R|]. rewrite !R. now rewrite <- app_assoc.
Qed.

Lemma merge_twice_duplicates_witness :
  total_entries JsonRef.loads [good_transcript] = 2 /\
  List.length
    (session_messages
       (merge_run JsonRef.loads [good_transcript]
                  (merge_run JsonRef.loads [good_transcript] empty_db)))
  = 4.
Proof.
  destruct (@merge_twice_duplicates JsonRef.loads [good_transcript] empty_db
              eq_refl ltac:(discriminate)) as (H1 & _ & H3).
  split; [rewrite H1 | rewrite H3]; reflexivity.
Defined.

(* --------------------------------------------------------------------- *)
(** ** More on [parse_session_jsonl] *)
(* --------------------------------------------------------------------- *)

(** X17.  [parse_session_jsonl] reads a file line by line, each line on
    its own: the entries of two runs of lines put together are the
    entries of the first, then those of the second, and an exception of
    the first hides the second.  A blank line adds nothing. *)
Theorem jsonl_lines_are_independent
        (loads : str -> outcome json) (ls1 ls2 : list str) :
  parse_session_jsonl loads (ls1 ++ ls2)
  = obind (parse_session_jsonl loads ls1) (fun a =>
    obind (parse_session_jsonl loads ls2) (fun b =>
    Return (a ++ b))) /\
  (forall l, strip l = [] ->
             parse_session_jsonl loads (ls1 ++ l :: ls2)
             = parse_session_jsonl loads (ls1 ++ ls2)).
Proof.
  split.
  - induction ls1 as [|l ls1 IH]; cbn [app parse_session_jsonl].
    + cbn [obind app]. now rewrite obind_return_r.
    + destruct (strip l); [exact IH|].
      destruct (loads l) as [v|[]]; try reflexivity; try exact IH.
      rewrite IH.
      destruct (parse_session_jsonl loads ls1) as [es1|e1]; [|reflexivity].
      cbn [obind].
      destruct (parse_session_jsonl loads ls2) as [es2|e2]; reflexivity.
  - intros l Hl. induction ls1 as [|x ls1 IH]; cbn [app parse_session_jsonl].
    + now rewrite Hl.
    + now rewrite IH.
Qed.

Lemma jsonl_lines_are_independent_witness :
  parse_session_jsonl JsonRef.loads (lines good_transcript)
  = parse_session_jsonl JsonRef.loads
      [dq "{'role': 'user', 'content': 'hi'}";
       dq "{'role': 'assistant', 'usage': {'input_tokens': 3}}"].
Proof.
  apply (proj2 (@jsonl_lines_are_independent
                  JsonRef.loads
                  [dq "{'role': 'user', 'content': 'hi'}"]
                  [dq "{'role': 'assistant', 'usage': {'input_tokens': 3}}"])
               (of_string "   ")).
  reflexivity.
Defined.

(* --------------------------------------------------------------------- *)
(** ** What the cleaning leaves *)
(* --------------------------------------------------------------------- *)

Lemma bare_key_cons (c d : ascii) (s : str) :
  bare_key (c :: d :: s)
  = (is_word c && Ascii.eqb d ":") || bare_key (d :: s).
Proof. reflexivity. Qed.

(** A run of word characters holds no bare key; one can only sit at its
    end. *)
Lemma bare_key_word_run (w : str) (d : ascii) (rest : str) :
  forallb is_word w = true ->
  bare_key (w ++ d :: rest)
  = (nonempty w && Ascii.eqb d ":") || bare_key (d :: rest).
Proof.
  induction w as [|x w IH]; intros H; [reflexivity|].
  cbn [forallb] in H. apply andb_true_iff in H as [Hx Hw].
  destruct w as [|y w].
  - cbn [app]. rewrite bare_key_cons, Hx. reflexivity.
  - change ((x :: y :: w) ++ d :: rest) with (x :: y :: (w ++ d :: rest)).
    rewrite bare_key_cons.
    change (y :: w ++ d :: rest) with ((y :: w) ++ d :: rest).
    rewrite (IH Hw). cbn [forallb] in Hw.
    apply andb_true_iff in Hw as [Hy _].
    rewrite (word_not_colon _ Hy), andb_false_r. reflexivity.
Qed.

Lemma bare_key_words (w : str) :
  forallb is_word w = true -> bare_key w = false.
Proof.
  induction w as [|x [|y w] IH]; intros H; try reflexivity.
  rewrite bare_key_cons. cbn [forallb] in H.
  apply andb_true_iff in H as [_ H]. rewrite (IH H).
  cbn [forallb] in H. apply andb_true_iff in H as [Hy _].
  now rewrite (word_not_colon _ Hy), andb_false_r.
Qed.

Lemma nonempty_rev (w : str) : nonempty (rev w) = nonempty w.
Proof.
  destruct w as [|x w]; [reflexivity|]. cbn [rev nonempty].
  now destruct (rev w).
Qed.

Lemma quote_barewords_no_bare_key (s : str) :
  forall word, forallb is_word word = true ->
               bare_key (quote_barewords_from word s) = false.
Proof.
  induction s as [|c s IH]; intros word Hw; cbn [quote_barewords_from].
  - apply bare_key_words. now rewrite forallb_rev.
  - destruct (is_word c) eqn:W.
    + apply IH. cbn [forallb]. now rewrite W.
    + assert (Hr : forallb is_word (rev word) = true)
        by now rewrite forallb_rev.
      destruct (Ascii.eqb_spec c ":") as [->|Nc]; cbn [andb].
      * destruct (nonempty word) eqn:Ne.
        -- change (dquote :: rev word ++ dquote :: ":"%char
                   :: quote_barewords_from [] s)
             with ([dquote] ++ rev word ++ dquote :: ":"%char
                   :: quote_barewords_from [] s).
           destruct (rev word) as [|x r] eqn:Er.
           { rewrite <- nonempty_rev, Er in Ne. discriminate. }
           cbn [app]. rewrite bare_key_cons. cbn [is_word andb orb].
           change (x :: r ++ dquote :: ":"%char :: quote_barewords_from [] s)
             with ((x :: r) ++ dquote :: ":"%char
                   :: quote_barewords_from [] s).
           rewrite (@bare_key_word_run _ _ _ Hr).
           cbn [nonempty andb orb]. rewrite bare_key_cons.
           cbn [is_word andb orb].
           destruct (quote_barewords_from [] s) as [|y t] eqn:Eq;
             [reflexivity|].
           rewrite bare_key_cons. cbn [andb orb].
           rewrite <- Eq. now apply IH.
        -- destruct word; [|discriminate]. cbn [rev app].
           destruct (quote_barewords_from [] s) as [|y t] eqn:Eq;
             [reflexivity|].
           rewrite bare_key_cons. cbn [andb orb].
           rewrite <- Eq. now apply IH.
      * rewrite (@bare_key_word_run _ _ _ Hr).
        replace (Ascii.eqb c ":") with false
          by (symmetry; now apply Ascii.eqb_neq).
        rewrite andb_false_r. cbn [orb].
        destruct (quote_barewords_from [] s) as [|y t] eqn:Eq;
          [reflexivity|].
        rewrite bare_key_cons, W. cbn [andb orb].
        rewrite <- Eq. now apply IH.
Qed.

Lemma closes_after_space_head (s : str) :
  closes_after_space s = true ->
  exists x t, s = x :: t /\ Ascii.eqb x "," = false /\
              Ascii.eqb x ":" = false.
Proof.
  destruct s as [|x t]; [discriminate|]. intros H.
  exists x, t. split; [reflexivity|].
  unfold closes_after_space in H. cbn [drop_while] in H.
  destruct (is_space x) eqn:S.
  - split; [destruct (Ascii.eqb_spec x ",") as [->|] |
            destruct (Ascii.eqb_spec x ":") as [->|]];
      (discriminate || reflexivity).
  - unfold is_close in H.
    split; [destruct (Ascii.eqb_spec x ",") as [->|] |
            destruct (Ascii.eqb_spec x ":") as [->|]];
      (discriminate || reflexivity).
Qed.

(** The first character that survives the removal of the commas is not a
    colon, unless the text starts with one. *)
Lemma drop_trailing_commas_head (s : str) (d : ascii) (t : str) :
  s = d :: t -> Ascii.eqb d ":" = false ->
  match drop_trailing_commas s with
  | y :: _ => Ascii.eqb y ":" = false
  | [] => True
  end.
Proof.
  intros -> Hd. cbn [drop_trailing_commas].
  destruct (Ascii.eqb d "," && closes_after_space t) eqn:E; [|exact Hd].
  apply andb_true_iff in E as [_ E].
  destruct (@closes_after_space_head _ E) as (x & u & -> & Hx & Hc).
  cbn [drop_trailing_commas]. rewrite Hx. cbn [andb]. exact Hc.
Qed.

Lemma drop_trailing_commas_no_bare_key (s : str) :
  bare_key s = false -> bare_key (drop_trailing_commas s) = false.
Proof.
  induction s as [|c s IH]; intros H; [reflexivity|].
  assert (Hs : bare_key s = false).
  { destruct s as [|d s]; [reflexivity|].
    rewrite bare_key_cons in H. now apply orb_false_iff in H as [_ H]. }
  cbn [drop_trailing_commas].
  destruct (Ascii.eqb c "," && closes_after_space s); [now apply IH|].
  specialize (IH Hs).
  destruct (drop_trailing_commas s) as [|y t] eqn:Ed; [reflexivity|].
  rewrite bare_key_cons, IH, orb_false_r.
  destruct (is_word c) eqn:W; [|reflexivity]. cbn [andb].
  destruct s as [|d s]; [discriminate|].
  rewrite bare_key_cons, W in H. cbn [andb] in H.
  apply orb_false_iff in H as [Hd _].
  pose proof (@drop_trailing_commas_head (d :: s) d s eq_refl Hd) as Hh.
  now rewrite Ed in Hh.
Qed.

Lemma quote_barewords_in (s : str) :
  forall word x, In x (quote_barewords_from word s) ->
                 x = dquote \/ In x word \/ In x s.
Proof.
  induction s as [|c s IH]; intros word x; cbn [quote_barewords_from].
  - intros H. right. left. now apply in_rev.
  - destruct (is_word c).
    + intros H. destruct (IH _ _ H) as [H'|[[<-|H']|H']]; auto.
      * right. right. now left.
      * right. right. now right.
    + assert (Hrest : In x (quote_barewords_from [] s) ->
                      x = dquote \/ In x word \/ In x (c :: s)).
      { intros H. destruct (IH _ _ H) as [H'|[[]|H']]; auto.
        right. right. now right. }
      destruct (Ascii.eqb c ":" && nonempty word).
      * intros [<-|H]; [now left|].
        apply in_app_or in H as [H|[<-|[<-|H]]]; auto.
        -- right. left. now apply in_rev.
        -- right. right. now left.
      * intros H. apply in_app_or in H as [H|[<-|H]]; auto.
        -- right. left. now apply in_rev.
        -- right. right. now left.
Qed.

Lemma drop_trailing_commas_in (s : str) (x : ascii) :
  In x (drop_trailing_commas s) -> In x s.
Proof.
  induction s as [|c s IH]; [exact (fun H => H)|].
  cbn [drop_trailing_commas].
  destruct (Ascii.eqb c "," && closes_after_space s).
  - intros H. right. now apply IH.
  - intros [<-|H]; [now left | right; now apply IH].
Qed.

(** X18.  Whatever the block, the text handed to the strict parser holds
    no apostrophe, and no colon in it stands directly after a word
    character: every bare key has been put between double quotes, and so
    has every word before a colon inside a string value. *)
Theorem cleaned_text_has_no_bare_key (block : str) :
  ~ In "'"%char (clean block) /\
  bare_key (clean block) = false.
Proof.
  rewrite clean_steps. split.
  - intros H. apply drop_trailing_commas_in in H.
    apply quote_barewords_in in H as [H|[[]|H]]; [discriminate|].
    apply in_map_iff in H as (c & Hc & _).
    destruct (Ascii.eqb_spec c "'") as [E|N]; [discriminate | congruence].
  - apply drop_trailing_commas_no_bare_key.
    now apply quote_barewords_no_bare_key.
Qed.

(* --------------------------------------------------------------------- *)
(** ** More on [calculate_cache_metrics] *)
(* --------------------------------------------------------------------- *)

Lemma sum_overflow_stays (vals : list sqlval) :
  fold_left sum_step vals SumOverflow = SumOverflow.
Proof.
  induction vals as [|v vals IH]; [reflexivity|].
  cbn [fold_left]. now destruct v.
Qed.

Lemma sum_counted_from (ty : str) (rows : list token_row) :
  (forall r, In r rows -> counted r) ->
  forall acc, (0 <= acc)%Z ->
    (exists z, fold_left sum_step (map (case_when_type ty) rows) (SumInt acc)
               = SumInt z /\ (0 <= z)%Z) \/
    fold_left sum_step (map (case_when_type ty) rows) (SumInt acc)
    = SumOverflow.
Proof.
  induction rows as [|r rows IH]; intros H acc Ha.
  - left. now exists acc.
  - cbn [map fold_left].
    rewrite (@case_when_counted ty r) by (apply H; now left).
    pose proof (@tokens_of_nonneg ty r (H r (or_introl eq_refl))) as Hr.
    cbn [sum_step].
    destruct ((- 2 ^ 63 <=? acc + tokens_of ty r)
              && (acc + tokens_of ty r <? 2 ^ 63))%Z.
    + apply IH; [|lia]. intros x Hx. apply H. now right.
    + right. apply sum_overflow_stays.
Qed.

Lemma or_zero_counted (ty : str) (rows : list token_row) :
  (forall r, In r rows -> counted r) ->
  (exists z, or_zero (sum_of_type ty rows) = Exact z /\ (0 <= z)%Z) \/
  or_zero (sum_of_type ty rows) = Fails OperationalError.
Proof.
  intros H. unfold sum_of_type, sql_sum.
  destruct rows as [|r rows].
  - left. exists 0%Z. split; [reflexivity | lia].
  - cbn [map fold_left].
    rewrite (@case_when_counted ty r) by (apply H; now left).
    pose proof (@tokens_of_nonneg ty r (H r (or_introl eq_refl))) as Hr.
    cbn [sum_step].
    destruct (@sum_counted_from ty rows (fun x Hx => H x (or_intror Hx))
                                _ Hr) as [(z & -> & Hz)| ->].
    + left. now exists z.
    + now right.
Qed.

Lemma ratio_unit (a b : Z) :
  (0 <= a)%Z -> (0 <= b)%Z -> (0 < a + b)%Z ->
  (0 <= ratio a (a + b) /\ ratio a (a + b) <= 1)%Q.
Proof.
  intros Ha Hb Hd. unfold ratio.
  assert (Hq : (0 < inject_Z (a + b))%Q).
  { change 0%Q with (inject_Z 0). now rewrite <- Zlt_Qlt. }
  split.
  - apply Qle_shift_div_l; [exact Hq|]. rewrite Qmult_0_l.
    change 0%Q with (inject_Z 0). now rewrite <- Zle_Qle.
  - apply Qle_shift_div_r; [exact Hq|]. rewrite Qmult_1_l.
    rewrite <- Zle_Qle. lia.
Qed.

Lemma ratio_nonneg (a b : Z) :
  (0 <= a)%Z -> (0 < b)%Z -> (0 <= ratio a b)%Q.
Proof.
  intros Ha Hb. unfold ratio.
  apply Qle_shift_div_l.
  - change 0%Q with (inject_Z 0). now rewrite <- Zlt_Qlt.
  - rewrite Qmult_0_l. change 0%Q with (inject_Z 0). now rewrite <- Zle_Qle.
Qed.

(** X19.  On a table whose values are non-negative integers, the cache
    report either fails because a sum leaves 64 bits, or returns sums
    that are not negative, a hit ratio and an efficiency between 0 and
    1, and a read-to-creation ratio and savings that are not negative. *)
Theorem cache_ratios_bounded (rows : list token_row) :
  (forall r, In r rows -> counted r) ->
  calculate_cache_metrics rows = Fails OperationalError \/
  exists m,
    calculate_cache_metrics rows = Exact m /\
    (0 <= cache_read_tokens m)%Z /\
    (0 <= cache_creation_tokens m)%Z /\
    (0 <= report_input_tokens m)%Z /\
    (0 <= cache_hit_ratio m /\ cache_hit_ratio m <= 1)%Q /\
    (0 <= cache_efficiency m /\ cache_efficiency m <= 1)%Q /\
    (0 <= cache_read_creation_ratio m)%Q /\
    (0 <= estimated_savings m)%Q.
Proof.
  intros H. unfold calculate_cache_metrics.
  destruct (@or_zero_counted "cacheRead" rows H) as [(cr & -> & Hr)| ->];
    [|now left].
  destruct (@or_zero_counted "cacheCreation" rows H) as [(cc & -> & Hc)| ->];
    [|now left].
  destruct (@or_zero_counted "input" rows H) as [(ci & -> & Hi)| ->];
    [|now left].
  right. eexists. split; [reflexivity|].
  cbn [cache_read_tokens cache_creation_tokens report_input_tokens
       cache_hit_ratio cache_efficiency cache_read_creation_ratio
       estimated_savings].
  repeat apply conj; try assumption.
  - destruct (Z.gtb_spec (cr + cc) 0); [now apply ratio_unit | apply Qle_refl].
  - destruct (Z.gtb_spec (cr + cc) 0); [now apply ratio_unit | discriminate].
  - destruct (Z.gtb_spec (cr + ci) 0); [now apply ratio_unit | apply Qle_refl].
  - destruct (Z.gtb_spec (cr + ci) 0); [now apply ratio_unit | discriminate].
  - destruct (Z.gtb_spec cc 0); [now apply ratio_nonneg | apply Qle_refl].
  - repeat apply Qmult_le_0_compat; try discriminate.
    change 0%Q with (inject_Z 0). now rewrite <- Zle_Qle.
Qed.

Lemma cache_ratios_bounded_witness :
  exists m,
    calculate_cache_metrics cache_rows = Exact m /\
    (cache_hit_ratio m <= 1)%Q.
Proof.
  destruct (@cache_ratios_bounded cache_rows) as [F|(m & E & _ & _ & _ & [_ Hh] & _)].
  - intros r Hr. repeat (destruct Hr as [<-|Hr]; [eexists; split;
                                                   [reflexivity | cbn; lia]|]).
    destruct Hr.
  - discriminate F.
  - exists m. split; [exact E | exact Hh].
Defined.

(* --------------------------------------------------------------------- *)
(** ** The session column of the report *)
(* --------------------------------------------------------------------- *)

(** X20.  The session column is at most 12 characters wide and starts as
    the id does; an id of at most 12 characters is shown whole; any two
    longer ids that share their first 8 characters are shown alike. *)
Theorem session_column (session_id : str) :
  List.length (session_short session_id) <= 12 /\
  firstn 8 (session_short session_id) = firstn 8 session_id /\
  (List.length session_id <= 12 -> session_short session_id = session_id) /\
  (forall other,
     12 < List.length session_id -> 12 < List.length other ->
     firstn 8 other = firstn 8 session_id ->
     session_short other = session_short session_id).
Proof.
  unfold session_short.
  destruct (Nat.ltb_spec 12 (List.length session_id)) as [L|L].
  - assert (H8 : List.length (firstn 8 session_id) = 8)
      by (rewrite length_firstn; lia).
    repeat split.
    + rewrite length_app, H8. cbn. lia.
    + rewrite firstn_app, H8, firstn_firstn. cbn [Nat.sub Nat.min firstn].
      apply app_nil_r.
    + lia.
    + intros other _ Lo E.
      destruct (Nat.ltb_spec 12 (List.length other)); [|lia].
      now rewrite E.
  - repeat split; [exact L | lia].
Qed.

Lemma session_column_witness :
  session_short (of_string "0123456789abcdef")
  = session_short (of_string "01234567-another-id") /\
  session_short (of_string "short-id") = of_string "short-id".
Proof.
  destruct (@session_column (of_string "01234567-another-id"))
    as (_ & _ & _ & H).
  destruct (@session_column (of_string "short-id")) as (_ & _ & H' & _).
  split; [apply H | apply H']; cbn; (lia || reflexivity).
Defined.
